(** * anemoi-training: weighted losses and validation plot callbacks

    A shallow embedding of

    - [src/anemoi/training/losses/mse.py]  ([WeightedMSELoss]),
    - [src/anemoi/training/losses/mae.py]  ([WeightedMAELoss]),
    - [src/anemoi/training/diagnostics/callbacks/plotting.py]
      ([ParallelExecutor], [BasePlotCallback] and its subclasses),

    together with the properties of these modules stated in the
    repository's specification.

    Numbers.  A tensor element is either [NaN] or a finite number, and
    finite numbers are exact rationals ([Qc]): rounding, overflow,
    infinities and signed zeros are outside the model.  The only place
    where this shows is division by zero, which IEEE arithmetic sends to
    an infinity or to NaN and which is [NaN] here; the statements whose
    value depends on the normaliser assume that it is not zero. *)

From Stdlib Require Import String Ascii DecimalString.
From Stdlib Require Import List ZArith QArith Qcanon Qcabs Lia Bool.
From Stdlib Require Import Permutation Sorted.
Import ListNotations.

Close Scope Qc_scope.
Close Scope Q_scope.
Open Scope nat_scope.

(* ================================================================== *)
(** * Tensor elements                                                   *)
(* ================================================================== *)

Module Val.

Inductive val : Type :=
| NaN
| Fin (q : Qc).

Definition zero : val := Fin 0%Qc.

Definition Qc_eqb (x y : Qc) : bool := Qeq_bool x y.

Definition isnan (a : val) : bool :=
  match a with NaN => true | Fin _ => false end.

Definition add (a b : val) : val :=
  match a, b with Fin x, Fin y => Fin (x + y)%Qc | _, _ => NaN end.

Definition sub (a b : val) : val :=
  match a, b with Fin x, Fin y => Fin (x - y)%Qc | _, _ => NaN end.

Definition mul (a b : val) : val :=
  match a, b with Fin x, Fin y => Fin (x * y)%Qc | _, _ => NaN end.

Definition div (a b : val) : val :=
  match a, b with
  | Fin x, Fin y => if Qc_eqb y 0%Qc then NaN else Fin (x / y)%Qc
  | _, _ => NaN
  end.

(** [torch.square] and [torch.abs] on one element. *)
Definition square (a : val) : val := mul a a.

Definition abs (a : val) : val :=
  match a with Fin x => Fin (Qcabs x) | NaN => NaN end.

(** IEEE comparisons: any comparison with NaN is false. *)
Definition eqb (a b : val) : bool :=
  match a, b with Fin x, Fin y => Qc_eqb x y | _, _ => false end.

Definition leb (a b : val) : bool :=
  match a, b with Fin x, Fin y => Qle_bool x y | _, _ => false end.

Definition ltb (a b : val) : bool :=
  match a, b with Fin x, Fin y => Qle_bool x y && negb (Qc_eqb x y) | _, _ => false end.

Definition of_nat (n : nat) : val := Fin (Q2Qc (inject_Z (Z.of_nat n))).

(** [a] is no negative number: it is NaN, or a number that is at least
    zero. *)
Definition notneg (a : val) : Prop :=
  match a with NaN => True | Fin q => (0 <= q)%Qc end.

(** NaN read as zero, the way [torch.nansum] reads it. *)
Definition nan_to_zero (a : val) : val :=
  match a with NaN => zero | Fin _ => a end.

(** The reductions of [torch]: [torch.sum], [torch.nansum], [torch.mean],
    [torch.nanmean] over the elements being reduced. *)
Definition sum (l : list val) : val := fold_right add zero l.

Definition nansum (l : list val) : val := sum (map nan_to_zero l).

Definition mean (l : list val) : val := div (sum l) (of_nat (length l)).

Definition nanmean (l : list val) : val :=
  div (nansum l) (of_nat (length (filter (fun a => negb (isnan a)) l))).

End Val.

Import Val.

(* ================================================================== *)
(** * Tensors                                                           *)
(* ================================================================== *)

Module Tensor.

(** A tensor is its shape and its elements in row-major order. *)
Record tensor : Type := mkT { shape : list nat; data : list val }.

Definition numel (sh : list nat) : nat := fold_right Nat.mul 1 sh.

Definition rank (t : tensor) : nat := length (shape t).

Definition wf (t : tensor) : Prop := length (data t) = numel (shape t).

(** Row-major offset of a multi-index. *)
Fixpoint offset (sh ix : list nat) : nat :=
  match sh, ix with
  | _ :: sh', i :: ix' => i * numel sh' + offset sh' ix'
  | _, _ => 0
  end.

(** All multi-indices of a shape, in row-major order. *)
Fixpoint indices (sh : list nat) : list (list nat) :=
  match sh with
  | [] => [[]]
  | n :: sh' => flat_map (fun i => map (cons i) (indices sh')) (seq 0 n)
  end.

(** [valid sh ix]: [ix] addresses an element of a tensor of shape [sh]. *)
Definition valid (sh ix : list nat) : Prop := Forall2 lt ix sh.

Definition get (t : tensor) (ix : list nat) : val :=
  nth (offset (shape t) ix) (data t) NaN.

Definition tabulate (sh : list nat) (f : list nat -> val) : tensor :=
  mkT sh (map f (indices sh)).

(** 0-dimensional tensors and [Tensor.item()]. *)
Definition scalar (a : val) : tensor := mkT [] [a].
Definition item (t : tensor) : val := get t [].

(** Tensors from nested lists, for concrete inputs. *)
Definition of_list1 (l : list val) : tensor := mkT [length l] l.

Definition of_list3 (n v : nat) (l : list (list (list val))) : tensor :=
  mkT [length l; n; v] (concat (map (@concat val) l)).

Definition of_list4 (e n v : nat) (l : list (list (list (list val)))) : tensor :=
  mkT [length l; e; n; v] (concat (map (fun x => concat (map (@concat val) x)) l)).

(** ** Broadcasting *)

(** [torch.broadcast_shapes], on shapes written innermost axis first. *)
Fixpoint broadcast_rev (a b : list nat) : option (list nat) :=
  match a, b with
  | [], _ => Some b
  | _, [] => Some a
  | x :: a', y :: b' =>
      match broadcast_rev a' b' with
      | None => None
      | Some r =>
          if Nat.eqb x y then Some (x :: r)
          else if Nat.eqb x 1 then Some (y :: r)
          else if Nat.eqb y 1 then Some (x :: r)
          else None
      end
  end.

Definition broadcast_shapes (a b : list nat) : option (list nat) :=
  option_map (@rev nat) (broadcast_rev (rev a) (rev b)).

(** [expandable src tgt] (both innermost first): a tensor of shape [src]
    can be expanded to [tgt]: every axis of [src] has the size of the
    axis of [tgt] it is aligned with, or size 1. *)
Fixpoint expandable_rev (src tgt : list nat) : bool :=
  match src, tgt with
  | [], _ => true
  | _ :: _, [] => false
  | x :: s', y :: t' => (Nat.eqb x y || Nat.eqb x 1) && expandable_rev s' t'
  end.

(** The index read in the source for index [ix] of the expanded tensor. *)
Fixpoint bindex_rev (src ix : list nat) : list nat :=
  match src, ix with
  | x :: s', i :: ix' => (if Nat.eqb x 1 then 0 else i) :: bindex_rev s' ix'
  | _, _ => []
  end.

Definition bindex (src ix : list nat) : list nat :=
  rev (bindex_rev (rev src) (rev ix)).

(** [Tensor.expand] to the size [sh]. *)
Definition expand (t : tensor) (sh : list nat) : option tensor :=
  if expandable_rev (rev (shape t)) (rev sh)
  then Some (tabulate sh (fun ix => get t (bindex (shape t) ix)))
  else None.

(** [t.expand_as(other)]. *)
Definition expand_as (t other : tensor) : option tensor := expand t (shape other).

(** [t[..., None]]. *)
Definition unsqueeze_last (t : tensor) : tensor := mkT (shape t ++ [1]) (data t).

(** Elementwise unary and binary operations; the binary ones broadcast. *)
Definition map1 (f : val -> val) (t : tensor) : tensor :=
  tabulate (shape t) (fun ix => f (get t ix)).

Definition map2 (f : val -> val -> val) (a b : tensor) : option tensor :=
  match broadcast_shapes (shape a) (shape b) with
  | None => None
  | Some sh =>
      match expand a sh, expand b sh with
      | Some a', Some b' => Some (tabulate sh (fun ix => f (get a' ix) (get b' ix)))
      | _, _ => None
      end
  end.

(** In-place binary operations ([out *= x], [out /= x]): the right operand
    is broadcast to the shape of the left one, which does not change. *)
Definition map2_inplace (f : val -> val -> val) (a b : tensor) : option tensor :=
  match expand b (shape a) with
  | Some b' => Some (tabulate (shape a) (fun ix => f (get a ix) (get b' ix)))
  | None => None
  end.

(** ** Reductions *)

(** A dimension argument, negative ones counting from the end.  A
    0-dimensional tensor accepts the dimensions -1 and 0. *)
Definition norm_dim (r : nat) (d : Z) : option nat :=
  let r' := Z.of_nat (Nat.max r 1) in
  if ((- r' <=? d) && (d <? r'))%Z
  then Some (Z.to_nat (if (d <? 0)%Z then d + r' else d)%Z)
  else None.

Fixpoint norm_dims (r : nat) (ds : list Z) : option (list nat) :=
  match ds with
  | [] => Some []
  | d :: ds' =>
      match norm_dim r d, norm_dims r ds' with
      | Some a, Some l => if existsb (Nat.eqb a) l then None else Some (a :: l)
      | _, _ => None
      end
  end.

Definition mask (r : nat) (axes : list nat) : list bool :=
  map (fun a => existsb (Nat.eqb a) axes) (seq 0 r).

(** The entries of [l] at the positions where the mask is [b]. *)
Fixpoint select (m : list bool) (b : bool) (l : list nat) : list nat :=
  match m, l with
  | c :: m', x :: l' => if Bool.eqb c b then x :: select m' b l' else select m' b l'
  | _, _ => []
  end.

(** The index whose reduced axes are [kx] and whose kept axes are [jx]. *)
Fixpoint merge (m : list bool) (jx kx : list nat) : list nat :=
  match m with
  | [] => []
  | true :: m' =>
      match kx with
      | k :: kx' => k :: merge m' jx kx'
      | [] => 0 :: merge m' jx []
      end
  | false :: m' =>
      match jx with
      | j :: jx' => j :: merge m' jx' kx
      | [] => 0 :: merge m' [] kx
      end
  end.

(** [f(t, dim=ds)] for a reduction [f] of [torch] (keepdim=False). *)
Definition reduce (f : list val -> val) (ds : list Z) (t : tensor) : option tensor :=
  match norm_dims (rank t) ds with
  | None => None
  | Some axes =>
      let m := mask (rank t) axes in
      Some (tabulate (select m false (shape t))
              (fun jx => f (map (fun kx => get t (merge m jx kx))
                              (indices (select m true (shape t))))))
  end.

(** [f(t)]: reduction over all the elements. *)
Definition reduce_all (f : list val -> val) (t : tensor) : tensor :=
  scalar (f (data t)).

(** ** Comparisons *)

(** [torch.equal(a, b)]: same shape and equal elements (so no NaN). *)
Definition equal (a b : tensor) : bool :=
  (if list_eq_dec Nat.eq_dec (shape a) (shape b) then true else false)
  && forallb (fun ix => Val.eqb (get a ix) (get b ix)) (indices (shape a)).

(** Structural equality of elements: unlike [Val.eqb], NaN is the same as NaN. *)
Definition same_val (a b : val) : bool :=
  match a, b with
  | NaN, NaN => true
  | Fin x, Fin y => Qc_eqb x y
  | _, _ => false
  end.

(** The weight of the node that an index of a (bs, lat*lon, ...) tensor
    names on its axis 1. *)
Definition node_weight (w : tensor) (ix : list nat) : val := get w [nth 1 ix 0].

(** [a'] has the shape of [a] and the elements of [a] at every node whose
    weight is not zero; at the nodes of weight zero it holds anything. *)
Definition same_off_zero_weight (w a a' : tensor) : bool :=
  (if list_eq_dec Nat.eq_dec (shape a') (shape a) then true else false)
  && forallb (fun ix => Val.eqb (node_weight w ix) zero
                        || same_val (get a' ix) (get a ix))
             (indices (shape a)).

(** No element is NaN. *)
Definition finite (t : tensor) : bool :=
  forallb (fun a => negb (isnan a)) (data t).

(** Every element is a number that is at least zero. *)
Definition nonneg (t : tensor) : bool :=
  forallb (fun a => Val.leb zero a) (data t).

(** No element is a negative number; NaN may be among the elements. *)
Definition never_negative (t : tensor) : bool :=
  forallb (fun a => negb (Val.ltb a zero)) (data t).

End Tensor.

Import Tensor.

Notation "x <- e ;; k" := (match e with Some x => k | None => None end)
  (at level 61, e at next level, right associativity).

(* ================================================================== *)
(** * losses/mse.py                                                     *)
(* ================================================================== *)

Module MSE.

(** The state of a [WeightedMSELoss]: the buffers registered by
    [__init__] (the buffer [ivar] exists when [data_variances] was
    given) and the choice of [avg_function] and [sum_function]. *)
Record WeightedMSELoss : Type := mk {
  weights : tensor;
  ivar : option tensor;
  ignore_nans : bool
}.

Definition avg_function (self : WeightedMSELoss) : list val -> val :=
  if ignore_nans self then Val.nanmean else Val.mean.

Definition sum_function (self : WeightedMSELoss) : list val -> val :=
  if ignore_nans self then Val.nansum else Val.sum.

(** The error tensor before the reduction: [torch.square(pred - target)],
    multiplied by [ivar] when the buffer exists. *)
Definition error (self : WeightedMSELoss) (pred target : tensor) : option tensor :=
  d <- map2 Val.sub pred target ;;
  let out := map1 Val.square d in
  match ivar self with
  | Some iv => map2_inplace Val.mul out iv
  | None => Some out
  end.

(** [WeightedMSELoss.forward]; [None] is an exception raised by [torch]. *)
Definition forward (self : WeightedMSELoss) (pred target : tensor) (squash : bool)
  : option tensor :=
  out <- error self pred target ;;
  if squash then
    out <- reduce (avg_function self) [(-1)%Z] out ;;
    w <- expand_as (weights self) out ;;
    out <- map2 Val.mul out w ;;
    w <- expand_as (weights self) out ;;
    out <- map2_inplace Val.div out (reduce_all (sum_function self) w) ;;
    Some (reduce_all (sum_function self) out)
  else
    w <- expand_as (unsqueeze_last (weights self)) out ;;
    out <- map2 Val.mul out w ;;
    w <- expand_as (unsqueeze_last (weights self)) out ;;
    s <- reduce (sum_function self) [0%Z; 1%Z; 2%Z] w ;;
    out <- map2_inplace Val.div out s ;;
    reduce (sum_function self) [0%Z; 1%Z; 2%Z] out.

(** One element of [torch.square(pred - target)], times [ivar]; the mean
    over the variables at one (batch, node) index; the weight of the node
    of an index. *)
Definition err_at (self : WeightedMSELoss) (pred target : tensor) (ix : list nat) : val :=
  let e := Val.square (Val.sub (get pred ix) (get target ix)) in
  match ivar self with
  | Some iv => Val.mul e (get iv (skipn 2 ix))
  | None => e
  end.

Definition squashed_at (self : WeightedMSELoss) (pred target : tensor) (nv : nat)
           (ix : list nat) : val :=
  avg_function self (map (fun v => err_at self pred target (ix ++ [v])) (seq 0 nv)).

Definition w_at (self : WeightedMSELoss) : list nat -> val := node_weight (weights self).

(** The same for inputs with an ensemble axis, (bs, ensemble, lat*lon,
    n_outputs): one element of the error, and the weight of the node that
    an index names on its axis 2. *)
Definition err_at_4d (self : WeightedMSELoss) (pred target : tensor) (ix : list nat) : val :=
  let e := Val.square (Val.sub (get pred ix) (get target ix)) in
  match ivar self with
  | Some iv => Val.mul e (get iv (skipn 3 ix))
  | None => e
  end.

Definition w_at_4d (self : WeightedMSELoss) (ix : list nat) : val :=
  get (weights self) [nth 2 ix 0].

(** The variances, when given, are one number per output variable. *)
Definition per_variable (o : option tensor) (nv : nat) : Prop :=
  match o with
  | Some t => shape t = [nv] /\ wf t /\ finite t = true
  | None => True
  end.



End MSE.

(* ================================================================== *)
(** * losses/mae.py                                                     *)
(* ================================================================== *)

Module MAE.

(** Modelled from the spec: the base class [BaseWeightedLoss] of
    [anemoi.training.losses.weightedloss], which [mae.py] imports and
    which is not among the sources.  Its state is the node weights, the
    NaN-tolerant flag that chooses the mean and the sum, and the optional
    per-feature scaling. *)
Record BaseWeightedLoss : Type := mk {
  node_weights : tensor;
  ignore_nans : bool;
  feature_weights : option tensor
}.

Definition avg_function (self : BaseWeightedLoss) : list val -> val :=
  if ignore_nans self then Val.nanmean else Val.mean.

Definition sum_function (self : BaseWeightedLoss) : list val -> val :=
  if ignore_nans self then Val.nansum else Val.sum.

(** [fw[idx]] for a 1-dimensional [fw]; an index out of range raises. *)
Definition index_select (fw : tensor) (idx : list nat) : option tensor :=
  if forallb (fun i => i <? numel (shape fw)) idx
  then Some (of_list1 (map (fun i => get fw [i]) idx))
  else None.

(** Modelled from the spec: [BaseWeightedLoss.scale], the rescaling "per
    output feature, restricted to a provided subset of feature indices". *)
Definition scale (self : BaseWeightedLoss) (out : tensor)
           (feature_indices : option (list nat)) : option tensor :=
  match feature_weights self with
  | None => Some out
  | Some fw =>
      fw' <- match feature_indices with
             | None => Some fw
             | Some idx => index_select fw idx
             end ;;
      map2 Val.mul out fw'
  end.

(** Modelled from the spec: [BaseWeightedLoss.scale_by_node_weights]:
    "squash=true averages [the variable axis], false preserves it", then
    "a normalized weighted sum: sum(out * weights) / sum(weights) over the
    spatial axis", which is the last axis once the variables are averaged
    and the last but one otherwise. *)
Definition scale_by_node_weights (self : BaseWeightedLoss) (out : tensor) (squash : bool)
  : option tensor :=
  out <- (if squash then reduce (avg_function self) [(-1)%Z] out else Some out) ;;
  w <- expand_as (if squash then node_weights self
                  else unsqueeze_last (node_weights self)) out ;;
  ow <- map2 Val.mul out w ;;
  let spatial := if squash then (-1)%Z else (-2)%Z in
  num <- reduce (sum_function self) [spatial] ow ;;
  den <- reduce (sum_function self) [spatial] w ;;
  map2 Val.div num den.

(** [WeightedMAELoss.forward], from [mae.py]. *)
Definition forward (self : BaseWeightedLoss) (pred target : tensor) (squash : bool)
           (feature_indices : option (list nat)) (feature_scale : bool)
  : option tensor :=
  d <- map2 Val.sub pred target ;;
  let out := map1 Val.abs d in
  out <- (if feature_scale then scale self out feature_indices else Some out) ;;
  scale_by_node_weights self out squash.

(** One element of [torch.abs(pred - target)], scaled by [fs] when a
    scaling applies; its mean over the variables; the weight of a node. *)
Definition abs_err_at (pred target : tensor) (fs : option tensor) (ix : list nat) : val :=
  let e := Val.abs (Val.sub (get pred ix) (get target ix)) in
  match fs with
  | Some f => Val.mul e (get f (skipn 3 ix))
  | None => e
  end.

Definition squashed_at (self : BaseWeightedLoss) (pred target : tensor)
           (fs : option tensor) (nv : nat) (ix : list nat) : val :=
  avg_function self (map (fun v => abs_err_at pred target fs (ix ++ [v])) (seq 0 nv)).

Definition weight (self : BaseWeightedLoss) (n : nat) : val := get (node_weights self) [n].

(** The specification's formula over the spatial axis, for the values
    [x n] at the nodes: [sum(x * weights) / sum(weights)]. *)
Definition spatial_weighted_sum (self : BaseWeightedLoss) (N : nat) (x : nat -> val) : val :=
  Val.div (sum_function self (map (fun n => Val.mul (x n) (weight self n)) (seq 0 N)))
          (sum_function self (map (weight self) (seq 0 N))).

(** The scaling that [forward] applies, when it applies one. *)
Definition feature_scaling (self : BaseWeightedLoss)
           (feature_indices : option (list nat)) (feature_scale : bool)
  : option (option tensor) :=
  if feature_scale then
    match feature_weights self with
    | None => Some None
    | Some fw =>
        match feature_indices with
        | None => Some (Some fw)
        | Some idx => option_map Some (index_select fw idx)
        end
    end
  else Some None.

End MAE.

(* ================================================================== *)
(** * Python: exceptions, logging, effects                              *)
(* ================================================================== *)

Module Py.

(** An exception class: its name, whether it derives from [Exception]
    (and not only from [BaseException]), and whether it can be built from
    one message, [cls(text)]. *)
Record exn_class : Type := mk_class {
  cname : string;
  derives_Exception : bool;
  init_takes_message : bool
}.

(** An exception: its class and its message, and its [__cause__] when it
    was raised [from] another one. *)
Inductive exn : Type :=
| Exn (c : exn_class) (message : string)
| ExnFrom (c : exn_class) (message : string) (cause : exn).

Definition cls (e : exn) : exn_class :=
  match e with Exn c _ | ExnFrom c _ _ => c end.
Definition message (e : exn) : string :=
  match e with Exn _ m | ExnFrom _ m _ => m end.
Definition cause (e : exn) : option exn :=
  match e with Exn _ _ => None | ExnFrom _ _ c => Some c end.

Definition TypeError : exn_class := mk_class "TypeError" true true.
Definition ValueError : exn_class := mk_class "ValueError" true true.
Definition ZeroDivisionError : exn_class := mk_class "ZeroDivisionError" true true.
Definition AssertionError : exn_class := mk_class "AssertionError" true true.
Definition KeyboardInterrupt : exn_class := mk_class "KeyboardInterrupt" false true.
Definition UnicodeDecodeError : exn_class := mk_class "UnicodeDecodeError" true false.

(** How a call ends: it returns, it raises, or [SystemExit(code)] is on
    its way up ([sys.exit(code)]), which no [except Exception] catches. *)
Inductive result (A : Type) : Type :=
| Ok (a : A)
| Raise (e : exn)
| Exit (code : Z).
Arguments Ok {A} a.
Arguments Raise {A} e.
Arguments Exit {A} code.

(** The levels of [logging], with their numbers. *)
Inductive level : Type := DEBUG | INFO | WARNING | ERROR | CRITICAL.

Definition levelno (l : level) : Z :=
  match l with
  | DEBUG => 10 | INFO => 20 | WARNING => 30 | ERROR => 40 | CRITICAL => 50
  end.

(** [cls(text)]: a [TypeError] when the class wants other arguments. *)
Definition construct (c : exn_class) (text : string) : result exn :=
  if init_takes_message c then Ok (Exn c text)
  else Raise (Exn TypeError "__init__() missing required positional arguments").

(** [a % b] on integers. *)
Definition mod_ (a b : Z) : result Z :=
  if (b =? 0)%Z then Raise (Exn ZeroDivisionError "integer modulo by zero")
  else Ok (a mod b)%Z.

(** [f"{n:0wd}"] for a natural number. *)
Definition decimal (n : nat) : string := NilZero.string_of_uint (Nat.to_uint n).

Fixpoint zeros (k : nat) : string :=
  match k with 0 => EmptyString | S k' => String "0" (zeros k') end.

Definition zero_padded (width n : nat) : string :=
  let d := decimal n in (zeros (width - String.length d) ++ d)%string.

Section Effects.

(** Computations with a state [S] and a trace of events [E]. *)
Variables S E : Type.

Definition M (A : Type) : Type := S -> result A * S * list E.

Definition ret {A : Type} (a : A) : M A := fun s => (Ok a, s, []).

Definition bind {A B : Type} (m : M A) (f : A -> M B) : M B :=
  fun s =>
    match m s with
    | (Ok a, s', ev) => let '(r, s'', ev') := f a s' in (r, s'', ev ++ ev')
    | (Raise e, s', ev) => (Raise e, s', ev)
    | (Exit c, s', ev) => (Exit c, s', ev)
    end.

Definition raise {A : Type} (e : exn) : M A := fun s => (Raise e, s, []).
Definition sys_exit {A : Type} (code : Z) : M A := fun s => (Exit code, s, []).
Definition emit (e : E) : M unit := fun s => (Ok tt, s, [e]).
Definition get_state : M S := fun s => (Ok s, s, []).
Definition put_state (s : S) : M unit := fun _ => (Ok tt, s, []).
Definition lift {A : Type} (r : result A) : M A := fun s => (r, s, []).

(** [try: m  except Exception as e: h e]. *)
Definition try_except_Exception {A : Type} (m : M A) (h : exn -> M A) : M A :=
  fun s =>
    match m s with
    | (Raise e, s', ev) =>
        if derives_Exception (cls e)
        then let '(r, s'', ev') := h e s' in (r, s'', ev ++ ev')
        else (Raise e, s', ev)
    | other => other
    end.

(** [for x in l: body x]. *)
Fixpoint for_each {A : Type} (l : list A) (body : A -> M unit) : M unit :=
  match l with
  | [] => ret tt
  | x :: l' => bind (body x) (fun _ => for_each l' body)
  end.

Definition events {A : Type} (m : M A) (s : S) : list E := snd (m s).
Definition outcome {A : Type} (m : M A) (s : S) : result A := fst (fst (m s)).
Definition final {A : Type} (m : M A) (s : S) : S := snd (fst (m s)).

(** [hoare pre m post exc P]: from a state in [pre], every event of [m] is
    in [P]; [m] returns [a] in a state in [post a], or it raises or exits
    in a state in [exc]. *)
Definition hoare {A : Type} (pre : S -> Prop) (m : M A)
           (post : A -> S -> Prop) (exc : S -> Prop) (P : E -> Prop) : Prop :=
  forall s, pre s ->
    Forall P (events m s) /\
    match outcome m s with
    | Ok a => post a (final m s)
    | _ => exc (final m s)
    end.

End Effects.

Arguments hoare {S E A} pre m post exc P.
Arguments ret {S E A} a.
Arguments bind {S E A B} m f.
Arguments raise {S E A} e.
Arguments sys_exit {S E A} code.
Arguments emit {S E} e.
Arguments get_state {S E}.
Arguments put_state {S E} s.
Arguments lift {S E A} r.
Arguments try_except_Exception {S E A} m h.
Arguments for_each {S E A} l body.
Arguments events {S E A} m s.
Arguments outcome {S E A} m s.
Arguments final {S E A} m s.

End Py.

Import Py.

Declare Scope py_scope.
Delimit Scope py_scope with py.
Notation "x <~ m ;; k" := (bind m (fun x => k))
  (at level 61, m at next level, right associativity) : py_scope.
Notation "m ;;; k" := (bind m (fun _ => k))
  (at level 61, right associativity) : py_scope.

(* ================================================================== *)
(** * PlotLoss.sort_and_color_by_parameter_group                        *)
(* ================================================================== *)

Module ParamGroups.

Open Scope string_scope.

(** [name.split("_")[0]]. *)
Fixpoint first_part (name : string) : string :=
  match name with
  | EmptyString => EmptyString
  | String c rest => if Ascii.eqb c "_" then EmptyString else String c (first_part rest)
  end.

Definition automatically_determine_group (name : string) : string := first_part name.

Fixpoint has_underscore (s : string) : bool :=
  match s with
  | EmptyString => false
  | String c s' => Ascii.eqb c "_" || has_underscore s'
  end.

Definition mem (x : string) (l : list string) : bool := existsb (String.eqb x) l.

(** [parameter_groups]: a dict from group name to the names in the group,
    in the order of its items. *)
Definition groups : Type := list (string * list string).

Definition keys (g : groups) : list string := map fst g.

(** [next((group_name for group_name, group_parameters in
    parameter_groups.items() if name in group_parameters), default)]. *)
Fixpoint next_group (g : groups) (name default : string) : string :=
  match g with
  | [] => default
  | (group_name, group_parameters) :: g' =>
      if mem name group_parameters then group_name else next_group g' name default
  end.

(** ** [np.unique] on an array of strings *)

Fixpoint insert_unique (x : string) (l : list string) : list string :=
  match l with
  | [] => [x]
  | y :: l' =>
      match String.compare x y with
      | Lt => x :: l
      | Eq => l
      | Gt => y :: insert_unique x l'
      end
  end.

(** The sorted unique elements. *)
Definition unique (l : list string) : list string := fold_right insert_unique [] l.

Fixpoint index_of (x : string) (l : list string) : nat :=
  match l with
  | [] => 0
  | y :: l' => if String.eqb x y then 0 else S (index_of x l')
  end.

Definition count (x : string) (l : list string) : nat :=
  List.length (filter (String.eqb x) l).

(** [np.unique(l, return_inverse=True, return_counts=True)]. *)
Definition np_unique (l : list string) : list string * list nat * list nat :=
  let u := unique l in
  (u, map (fun x => index_of x u) l, map (fun g => count g l) u).

(** [np.argsort(keys, kind="stable")] for keys below [n]. *)
Definition argsort_stable (n : nat) (ks : list nat) : list nat :=
  flat_map (fun k => filter (fun i => Nat.eqb (nth i ks 0) k) (seq 0 (List.length ks)))
           (seq 0 n).

(** ** The groups of the parameters *)

(** [parameters_to_groups] as it stands before the parameters are put in
    the order of their groups: one group per parameter name. *)
Definition parameters_to_groups (parameter_groups : groups) (parameter_names : list string)
  : list string :=
  if Nat.leb (List.length parameter_names) 15 then parameter_names
  else
    let parameters_to_groups :=
      map (fun name => next_group parameter_groups name (automatically_determine_group name))
          parameter_names in
    let '(unique_group_list, group_inverse, group_counts) := np_unique parameters_to_groups in
    let unique_group_list :=
      map (fun '(g, count) =>
             if Nat.ltb 1 count || mem g (keys parameter_groups) then g else "other")
          (combine unique_group_list group_counts) in
    map (fun k => nth k unique_group_list "") group_inverse.

Definition sort_by_parameter_group (parameter_groups : groups) (parameter_names : list string)
  : list nat :=
  if Nat.leb (List.length parameter_names) 15 then seq 0 (List.length parameter_names)
  else
    let '(unique_group_list, group_inverse, _) :=
      np_unique (parameters_to_groups parameter_groups parameter_names) in
    argsort_stable (List.length unique_group_list) group_inverse.

(** ** Colours, ticks and legend *)

(** A colour: ["k"], or the colour of a named colormap at a position. *)
Inductive color : Type :=
| Black
| Cmap (name : string) (position : Q).

(** [np.linspace(0, 1, n)[i]]. *)
Definition linspace01 (n i : nat) : Q :=
  if Nat.leb n 1 then 0%Q else (inject_Z (Z.of_nat i) / inject_Z (Z.of_nat (n - 1)))%Q.

Fixpoint cumsum_from (acc : nat) (l : list nat) : list nat :=
  match l with
  | [] => []
  | x :: l' => (acc + x) :: cumsum_from (acc + x) l'
  end.

(** [np.cumsum(group_counts) - group_counts / 2 - 0.5]. *)
Definition x_tick_positions (group_counts : list nat) : list Q :=
  map (fun '(c, n) => (inject_Z (Z.of_nat c) - inject_Z (Z.of_nat n) / 2 - (1 # 2))%Q)
      (combine (cumsum_from 0 group_counts) group_counts).

Definition newline : string := String (ascii_of_nat 10) EmptyString.

(** The body of the inner loop that writes one legend label. *)
Fixpoint legend_text (names : list string) (text_label : string) (string_length : nat)
  : string :=
  match names with
  | [] => text_label
  | name :: rest =>
      let text_label := text_label ++ name ++ ", " in
      let string_length := string_length + String.length name + 2 in
      if Nat.ltb 50 string_length
      then legend_text rest (text_label ++ newline) 0
      else legend_text rest text_label string_length
  end.

(** [text[:-2]]. *)
Definition drop_last_two (text : string) : string :=
  substring 0 (String.length text - 2) text.

(** What the property returns, and the warning it logs on the way. *)
Record result : Type := mk_result {
  sort_order : list nat;
  colors : list color;
  xticks : list (string * Q);
  legend_patches : list (color * string)
}.

(** [parameters_to_groups[sort_by_parameter_group]]: the groups of the
    parameters in the order of the plot. *)
Definition sorted_parameters_to_groups (parameter_groups : groups)
           (parameter_names : list string) : list string :=
  map (fun i => nth i (parameters_to_groups parameter_groups parameter_names) "")
      (sort_by_parameter_group parameter_groups parameter_names).

Definition group_list (parameter_groups : groups) (parameter_names : list string)
  : list string * list nat * list nat :=
  let order := sort_by_parameter_group parameter_groups parameter_names in
  let p2g := parameters_to_groups parameter_groups parameter_names in
  np_unique (map (fun i => nth i p2g "") order).

Definition warns (parameter_groups : groups) (parameter_names : list string) : bool :=
  let '(unique_group_list, _, _) := group_list parameter_groups parameter_names in
  Nat.ltb 20 (List.length unique_group_list).

Definition sort_and_color_by_parameter_group
           (parameter_groups : groups) (parameter_names : list string) : result :=
  let order := sort_by_parameter_group parameter_groups parameter_names in
  let sorted_parameter_names := map (fun i => nth i parameter_names "") order in
  let '(unique_group_list, group_inverse, group_counts) :=
    group_list parameter_groups parameter_names in
  let n := List.length unique_group_list in
  let cmap := if Nat.leb n 10 then "tab10" else "tab20" in
  let bar_color_per_group :=
    if forallb (Nat.eqb 1) group_counts
    then repeat Black (List.length group_counts)
    else map (fun i => Cmap cmap (linspace01 n i)) (seq 0 n) in
  let xticks := combine unique_group_list (x_tick_positions group_counts) in
  let legend_patches :=
    map (fun '(group_idx, group) =>
           let members :=
             map (fun ii => nth ii sorted_parameter_names "")
                 (filter (fun ii => Nat.eqb (nth ii group_inverse 0) group_idx)
                         (seq 0 (List.length group_inverse))) in
           let text_label := group ++ ": " in
           (nth group_idx bar_color_per_group Black,
            drop_last_two (legend_text members text_label (String.length text_label))))
        (combine (seq 0 n) unique_group_list) in
  mk_result order
            (map (fun k => nth k bar_color_per_group Black) group_inverse)
            xticks legend_patches.

(** ** The grouping as the specification words it *)

(** The explicit, user-provided group a name belongs to, if any: the
    first group of the configuration that lists the name. *)
Definition explicit_group (parameter_groups : groups) (name : string) : option string :=
  option_map fst
    (find (fun group => if in_dec string_dec name (snd group) then true else false)
          parameter_groups).

(** The first underscore-separated prefix of a name: what stands before
    its first underscore, and the whole name when it holds no underscore. *)
Definition prefix_before_underscore (name : string) : string :=
  match index 0 "_" name with
  | Some k => substring 0 k name
  | None => name
  end.

(** The explicit group of a name, otherwise the prefix before its first
    underscore. *)
Definition group_of (parameter_groups : groups) (name : string) : string :=
  match explicit_group parameter_groups name with
  | Some g => g
  | None => prefix_before_underscore name
  end.

(** More than 15 names: the group of each name, and "other" in place of
    every group that holds exactly one parameter and is not named in the
    configuration.  15 names or fewer: each name is its own group. *)
Definition grouping_spec (parameter_groups : groups) (parameter_names : list string)
  : list string :=
  if Nat.ltb 15 (List.length parameter_names) then
    let resulting := map (group_of parameter_groups) parameter_names in
    map (fun g =>
           if Nat.eqb (count_occ string_dec resulting g) 1
              && negb (if in_dec string_dec g (map fst parameter_groups) then true else false)
           then "other" else g)
        resulting
  else parameter_names.

End ParamGroups.

(* ================================================================== *)
(** * diagnostics/callbacks/plotting.py                                 *)
(* ================================================================== *)

Module Plotting.

Open Scope string_scope.
Open Scope py_scope.

(** The model keeps what a hook does to the world outside, the events
    below, and to the attributes of the callback that its hooks assign.
    The tensor work that the [_plot] functions do in between (the
    dictionaries of the plotted parameters, the pre- and post-processors,
    the slices of the batch, the forward passes of the rollout, the loss
    and its reordering) has no event and is left out; in the code each of
    these steps can raise, and what comes after it in the function is then
    not reached. *)

(** A call of one of the rendering functions of
    [anemoi.training.diagnostics.plots]. *)
Inductive plot_call : Type :=
| plot_predicted_multilevel_flat_sample (rollout_step : nat)
| plot_graph_node_features
| plot_graph_edge_features
| plot_loss (rollout_step : nat) (arguments : ParamGroups.result)
| plot_histogram (rollout_step : nat)
| plot_power_spectrum (rollout_step : nat).

(** What a callback does to the world outside. *)
Inductive event : Type :=
| Render (c : plot_call)
| Mkdir (path : string)
| Savefig (path : string)
| WandbLog (exp_log_tag : string)
| MlflowLogArtifact (path : string)
| CloseFig
| Log (lv : level) (msg : string) (exc_info : option exn)
| Submit.

(** The fields of [config] that the callbacks read. *)
Record Config : Type := mk_config {
  plots : option string;                  (* hardware.paths.plots *)
  frequency : Z;                          (* diagnostics.plot.frequency *)
  asynchronous : bool;                    (* diagnostics.plot.asynchronous *)
  wandb_enabled : bool;                   (* diagnostics.log.wandb.enabled *)
  mlflow_enabled : bool;                  (* diagnostics.log.mlflow.enabled *)
  longrollout_rollout : list nat;         (* diagnostics.plot.longrollout.rollout *)
  longrollout_frequency : Z;              (* diagnostics.plot.longrollout.frequency *)
  parameter_groups : option ParamGroups.groups;
  parameters_histogram : bool;            (* ... is not None *)
  parameters_spectrum : bool              (* ... is not None *)
}.

(** What a hook finds in the process, the trainer, the module and the
    batch.  [rank] is the global rank of the process: [rank_zero_only.rank]
    and [pl_module.global_rank].  [render] is the behaviour of the
    rendering functions: the exception a call raises, if it raises. *)
Record Context : Type := mk_context {
  rank : nat;
  local_rank : nat;
  current_epoch : nat;
  rollout : nat;
  multi_step : nat;
  batch_length : nat;
  name_to_index : list (string * nat);
  render : plot_call -> option exn;
  format_exc : exn -> string
}.

(** The attributes of a callback that its hooks assign. *)
Record State : Type := mk_state {
  parameter_names : option (list string);
  cached : option ParamGroups.result;   (* the value of the cached property *)
  evaluations : nat;                    (* how often the property's body has run *)
  post_processors : bool;               (* ... is not None *)
  pre_processors : bool;
  latlons : bool
}.

(** The attributes after [__init__]. *)
Definition init : State := mk_state None None 0 false false false.

Definition M : Type -> Type := Py.M State event.

Section Callbacks.

Variable config : Config.
Variable ctx : Context.

(** [@rank_zero_only]: the function runs on rank 0 and returns [None] at
    once on every other rank. *)
Definition rank_zero_only (fn : M unit) : M unit :=
  if Nat.eqb (rank ctx) 0 then fn else ret tt.

(** A rendering function is called; it returns a figure or raises. *)
Definition call (c : plot_call) : M unit :=
  emit (Render c) ;;;
  match render ctx c with
  | Some e => raise e
  | None => ret tt
  end.

Definition when (b : bool) (m : M unit) : M unit := if b then m else ret tt.

(** ** ParallelExecutor *)

(** [ParallelExecutor._function_wrapper]. *)
Definition _function_wrapper (fn : M unit) : M unit :=
  try_except_Exception fn
    (fun exc =>
       e <~ lift (construct (cls exc) (format_exc ctx exc)) ;;
       raise (ExnFrom (cls e) (message e) exc)).

(** ** BasePlotCallback *)

(** [BasePlotCallback._output_figure]. *)
Definition _output_figure (epoch : nat) (tag exp_log_tag : string) : M unit :=
  rank_zero_only
    (match plots config with
     | Some save_basedir =>
         let parent := save_basedir ++ "/plots" in
         let save_path := parent ++ "/" ++ tag ++ "_epoch" ++ zero_padded 3 epoch ++ ".png" in
         emit (Mkdir parent) ;;;
         emit (Savefig save_path) ;;;
         when (wandb_enabled config) (emit (WandbLog exp_log_tag)) ;;;
         when (mlflow_enabled config) (emit (MlflowLogArtifact save_path))
     | None => ret tt
     end ;;;
     emit CloseFig).

Definition critical : string := "Critical error occurred in asynchronous plots.".

(** [BasePlotCallback._async_plot] around the [_plot] of a subclass.  The
    task is handed to the executor, whose one worker runs
    [_function_wrapper] on it, and [future.result()] waits for it and
    returns or raises what it returned or raised. *)
Definition _async_plot (_plot : M unit) : M unit :=
  rank_zero_only
    (emit Submit ;;;
     try_except_Exception (_function_wrapper _plot)
       (fun e =>
          emit (Log ERROR critical (Some e)) ;;;
          sys_exit 1)).

(** [self.plot], as [__init__] binds it. *)
Definition plot (_plot : M unit) : M unit :=
  if asynchronous config then _async_plot _plot else _plot.

Definition modify (f : State -> State) : M unit :=
  s <~ get_state ;; put_state (f s).

Definition cache_post_processors : M unit :=
  modify (fun s => mk_state (parameter_names s) (cached s) (evaluations s)
                            true (pre_processors s) (latlons s)).

Definition cache_pre_processors : M unit :=
  modify (fun s => mk_state (parameter_names s) (cached s) (evaluations s)
                            (post_processors s) true (latlons s)).

Definition cache_latlons : M unit :=
  modify (fun s => mk_state (parameter_names s) (cached s) (evaluations s)
                            (post_processors s) (pre_processors s) true).

(** ** LongRolloutPlots *)

Definition LongRolloutPlots_plot (batch_idx epoch : nat) : M unit :=
  rank_zero_only
    (cache_post_processors ;;;
     cache_latlons ;;;
     match longrollout_rollout config with
     | [] => raise (Exn ValueError "max() arg is an empty sequence")
     | r :: rs =>
         let max_rollout := fold_right Nat.max r rs in
         if Nat.ltb (batch_length ctx) (max_rollout + multi_step ctx)
         then raise (Exn AssertionError
                         "Batch length not sufficient for requested rollout length!")
         else
           for_each (seq 0 max_rollout)
             (fun rollout_step =>
                when (existsb (Nat.eqb (rollout_step + 1)) (longrollout_rollout config))
                  (call (plot_predicted_multilevel_flat_sample rollout_step) ;;;
                   _output_figure epoch
                     ("gnn_pred_val_sample_rstep" ++ zero_padded 3 rollout_step
                        ++ "_batch" ++ zero_padded 4 batch_idx ++ "_rank0")
                     ("val_pred_sample_rstep" ++ zero_padded 3 rollout_step
                        ++ "_rank" ++ zero_padded 1 (local_rank ctx)))) ;;;
           emit (Log INFO "Time taken to plot samples after longer rollout: %s seconds" None)
     end).

Definition LongRolloutPlots_on_validation_batch_end (batch_idx : nat) : M unit :=
  rank_zero_only
    (a <~ lift (mod_ (Z.of_nat batch_idx) (frequency config)) ;;
     if (a =? 0)%Z then
       b <~ lift (mod_ (Z.of_nat (current_epoch ctx) + 1) (longrollout_frequency config)) ;;
       when (b =? 0)%Z (LongRolloutPlots_plot batch_idx (current_epoch ctx))
     else ret tt).

(** ** GraphNodeTrainableFeaturesPlot *)

Definition GraphNodeTrainableFeaturesPlot_plot (tag exp_log_tag : string) : M unit :=
  rank_zero_only
    (call plot_graph_node_features ;;;
     _output_figure (current_epoch ctx) tag exp_log_tag).

Definition GraphNodeTrainableFeaturesPlot_on_validation_epoch_start : M unit :=
  rank_zero_only
    (plot (GraphNodeTrainableFeaturesPlot_plot "node_trainable_params" "node_trainable_params")).

(** ** GraphEdgeTrainableFeaturesPlot *)

Definition epoch_freq : Z := 5.

Definition GraphEdgeTrainableFeaturesPlot_plot (tag exp_log_tag : string) : M unit :=
  call plot_graph_edge_features ;;;
  _output_figure (current_epoch ctx) tag exp_log_tag.

Definition GraphEdgeTrainableFeaturesPlot_on_validation_epoch_end : M unit :=
  a <~ lift (mod_ (Z.of_nat (current_epoch ctx)) epoch_freq) ;;
  when ((a =? 0)%Z && Nat.eqb (rank ctx) 0)
    (GraphEdgeTrainableFeaturesPlot_plot "edge_trainable_params" "edge_trainable_params").

(** ** PlotLoss *)

(** [self.parameter_groups], which [__init__] sets to an empty dict when
    the configuration has none. *)
Definition self_parameter_groups : ParamGroups.groups :=
  match parameter_groups config with Some g => g | None => [] end.

(** The cached property [sort_and_color_by_parameter_group]: its body runs
    on the first access and its value is kept in the instance. *)
Definition sort_and_color_by_parameter_group : M ParamGroups.result :=
  s <~ get_state ;;
  match cached s with
  | Some r => ret r
  | None =>
      match parameter_names s with
      | None => raise (Exn TypeError "object of type 'NoneType' has no len()")
      | Some names =>
          let r := ParamGroups.sort_and_color_by_parameter_group self_parameter_groups names in
          when (ParamGroups.warns self_parameter_groups names)
            (emit (Log WARNING
                       "More than 20 groups detected, but colormap has only 20 colors." None)) ;;;
          put_state (mk_state (parameter_names s) (Some r) (S (evaluations s))
                              (post_processors s) (pre_processors s) (latlons s)) ;;;
          ret r
      end
  end.

(** [[parameter_names[i] for i in np.argsort(parameter_positions)]]. *)
Fixpoint insert_by_position (x : string * nat) (l : list (string * nat))
  : list (string * nat) :=
  match l with
  | [] => [x]
  | y :: l' => if Nat.leb (snd x) (snd y) then x :: l else y :: insert_by_position x l'
  end.

Definition names_by_position (d : list (string * nat)) : list string :=
  map fst (fold_right insert_by_position [] d).

Definition PlotLoss_plot (epoch : nat) : M unit :=
  rank_zero_only
    (modify (fun s => mk_state (Some (names_by_position (name_to_index ctx)))
                               (cached s) (evaluations s)
                               (post_processors s) (pre_processors s) (latlons s)) ;;;
     for_each (seq 0 (rollout ctx))
       (fun rollout_step =>
          r <~ sort_and_color_by_parameter_group ;;
          call (plot_loss rollout_step r) ;;;
          _output_figure epoch
            ("loss_rstep_rstep" ++ zero_padded 2 rollout_step
               ++ "_rank" ++ zero_padded 1 (local_rank ctx))
            ("loss_sample_rstep" ++ zero_padded 2 rollout_step
               ++ "_rank" ++ zero_padded 1 (local_rank ctx)))).

Definition PlotLoss_on_validation_batch_end (batch_idx : nat) : M unit :=
  a <~ lift (mod_ (Z.of_nat batch_idx) (frequency config)) ;;
  when (a =? 0)%Z (plot (PlotLoss_plot (current_epoch ctx))).

(** ** PlotSample *)

Definition PlotSample_plot (batch_idx epoch : nat) : M unit :=
  rank_zero_only
    (cache_post_processors ;;;
     cache_latlons ;;;
     for_each (seq 0 (rollout ctx))
       (fun rollout_step =>
          call (plot_predicted_multilevel_flat_sample rollout_step) ;;;
          _output_figure epoch
            ("gnn_pred_val_sample_rstep" ++ zero_padded 2 rollout_step
               ++ "_batch" ++ zero_padded 4 batch_idx ++ "_rank0")
            ("val_pred_sample_rstep" ++ zero_padded 2 rollout_step
               ++ "_rank" ++ zero_padded 1 (local_rank ctx)))).

Definition PlotSample_on_validation_batch_end (batch_idx : nat) : M unit :=
  a <~ lift (mod_ (Z.of_nat batch_idx) (frequency config)) ;;
  when (a =? 0)%Z (plot (PlotSample_plot batch_idx (current_epoch ctx))).

(** ** PlotAdditionalMetrics *)

Definition PlotAdditionalMetrics_plot (batch_idx epoch : nat) : M unit :=
  rank_zero_only
    (cache_pre_processors ;;;
     cache_post_processors ;;;
     cache_latlons ;;;
     for_each (seq 0 (rollout ctx))
       (fun rollout_step =>
          when (parameters_histogram config)
            (call (plot_histogram rollout_step) ;;;
             _output_figure epoch
               ("gnn_pred_val_histo_rstep_" ++ zero_padded 2 rollout_step
                  ++ "_batch" ++ zero_padded 4 batch_idx ++ "_rank0")
               ("val_pred_histo_rstep_" ++ zero_padded 2 rollout_step
                  ++ "_rank" ++ zero_padded 1 (local_rank ctx))) ;;;
          when (parameters_spectrum config)
            (call (plot_power_spectrum rollout_step) ;;;
             _output_figure epoch
               ("gnn_pred_val_spec_rstep_" ++ zero_padded 2 rollout_step
                  ++ "_batch" ++ zero_padded 4 batch_idx ++ "_rank0")
               ("val_pred_spec_rstep_" ++ zero_padded 2 rollout_step
                  ++ "_rank" ++ zero_padded 1 (local_rank ctx))))).

Definition PlotAdditionalMetrics_on_validation_batch_end (batch_idx : nat) : M unit :=
  a <~ lift (mod_ (Z.of_nat batch_idx) (frequency config)) ;;
  when (a =? 0)%Z (plot (PlotAdditionalMetrics_plot batch_idx (current_epoch ctx))).

(** ** The hooks of the validation loop *)

Inductive callback : Type :=
| LongRolloutPlots
| GraphNodeTrainableFeaturesPlot
| GraphEdgeTrainableFeaturesPlot
| PlotLoss
| PlotSample
| PlotAdditionalMetrics.

Inductive hook : Type :=
| on_validation_epoch_start
| on_validation_batch_end (batch_idx : nat)
| on_validation_epoch_end.

(** The trainer calls a hook of a callback; a hook that the class does not
    define is the empty one of [Callback]. *)
Definition call_hook (cb : callback) (h : hook) : M unit :=
  match cb, h with
  | LongRolloutPlots, on_validation_batch_end i => LongRolloutPlots_on_validation_batch_end i
  | GraphNodeTrainableFeaturesPlot, on_validation_epoch_start =>
      GraphNodeTrainableFeaturesPlot_on_validation_epoch_start
  | GraphEdgeTrainableFeaturesPlot, on_validation_epoch_end =>
      GraphEdgeTrainableFeaturesPlot_on_validation_epoch_end
  | PlotLoss, on_validation_batch_end i => PlotLoss_on_validation_batch_end i
  | PlotSample, on_validation_batch_end i => PlotSample_on_validation_batch_end i
  | PlotAdditionalMetrics, on_validation_batch_end i =>
      PlotAdditionalMetrics_on_validation_batch_end i
  | _, _ => ret tt
  end.

End Callbacks.

(** Plot calls on one [PlotLoss] instance, one after the other, each with
    what it finds in the trainer and the module: the state each call
    leaves and the events of the call. *)
Fixpoint PlotLoss_plot_calls (config : Config) (calls : list (Context * nat)) (s : State)
  : list (State * list event) :=
  match calls with
  | [] => []
  | (ctx, epoch) :: rest =>
      let m := plot config ctx (PlotLoss_plot config ctx epoch) in
      (final m s, events m s) :: PlotLoss_plot_calls config rest (final m s)
  end.

(** What the cached property computes on the names that a plot call finds. *)
Definition first_result (config : Config) (ctx : Context) : ParamGroups.result :=
  ParamGroups.sort_and_color_by_parameter_group
    (self_parameter_groups config) (names_by_position (name_to_index ctx)).

(** Every call of [plot_loss] among the events has these arguments. *)
Definition plot_loss_with (r : ParamGroups.result) (e : event) : Prop :=
  forall k r', e = Render (plot_loss k r') -> r' = r.

(** The cached property holds [r] and its body has run [n] times. *)
Definition cache_is (r : ParamGroups.result) (n : nat) (s : State) : Prop :=
  cached s = Some r /\ evaluations s = n.

(** The cached property has not been computed and its body has run [n]
    times; the same, once the plot call has assigned the names. *)
Definition fresh (n : nat) (s : State) : Prop := cached s = None /\ evaluations s = n.

Definition named (ctx : Context) (n : nat) (s : State) : Prop :=
  fresh n s /\ parameter_names s = Some (names_by_position (name_to_index ctx)).

(** The instance holds the parameter names that a plot call finds. *)
Definition has_names (ctx : Context) (s : State) : Prop :=
  parameter_names s = Some (names_by_position (name_to_index ctx)).

(** [m] keeps the states in [I], and its events are in [P]. *)
Definition keeps (I : State -> Prop) (P : event -> Prop) (m : M unit) : Prop :=
  hoare I m (fun _ => I) I P.

(** An event that writes to the filesystem. *)
Definition writes_file (e : event) : bool :=
  match e with
  | Mkdir _ | Savefig _ | MlflowLogArtifact _ => true
  | _ => false
  end.

Definition is_render (e : event) : bool :=
  match e with Render _ => true | _ => false end.

(** An event that puts a figure somewhere: on disk, or in the run of an
    experiment tracker. *)
Definition outputs_figure (e : event) : bool :=
  match e with
  | Mkdir _ | Savefig _ | WandbLog _ | MlflowLogArtifact _ => true
  | _ => false
  end.

(** An event of [_async_plot]: the task is handed to the executor, or its
    error is logged. *)
Definition is_async (e : event) : bool :=
  match e with
  | Submit | Log ERROR _ _ => true
  | _ => false
  end.

(** From every state, the events of [m] are in [P], and when [m] ends in
    [SystemExit(code)] the code is in [X]. *)
Definition within {A : Type} (P : event -> Prop) (X : Z -> Prop) (m : M A) : Prop :=
  forall s,
    Forall P (events m s) /\ forall code, outcome m s = Exit code -> X code.

(** The callbacks whose hook calls [self.plot], which [__init__] binds to
    [_async_plot] in asynchronous mode; the other two call [self._plot]. *)
Definition calls_self_plot (cb : callback) : bool :=
  match cb with
  | LongRolloutPlots | GraphEdgeTrainableFeaturesPlot => false
  | _ => true
  end.

(** The callbacks whose batch hook computes [batch_idx % plot_frequency]
    before anything looks at the rank. *)
Definition tests_frequency_first (cb : callback) : bool :=
  match cb with
  | PlotLoss | PlotSample | PlotAdditionalMetrics => true
  | _ => false
  end.

(** ** Two sentences of the specification, as they stand *)

(** The most severe level of [logging]. *)
Definition highest_severity (lv : level) : Prop :=
  forall l, (levelno l <= levelno lv)%Z.

(** C5 as the specification states it, for one plot function in one
    state: when the function raises an [Exception], the retrieval point
    logs an error of the same class at the highest severity and the
    process exits with code 1. *)
Definition surfaces_at_highest_severity (ctx : Context) (_plot : M unit) (s : State) : Prop :=
  forall e s' ev,
    _plot s = (Raise e, s', ev) -> derives_Exception (cls e) = true ->
    exists lv x,
      In (Log lv critical (Some x)) (events (_async_plot ctx _plot) s)
      /\ cls x = cls e
      /\ highest_severity lv
      /\ outcome (_async_plot ctx _plot) s = Exit 1.

(** C7 as the specification states it, for one hook of one callback: the
    callback calls a rendering function only in a batch hook whose batch
    index is a multiple of the plot frequency. *)
Definition fires_only_on_plot_frequency
           (config : Config) (ctx : Context) (cb : callback) (h : hook) (s : State) : Prop :=
  existsb is_render (events (call_hook config ctx cb h) s) = true ->
  exists i, h = on_validation_batch_end i
            /\ (Z.of_nat i mod frequency config = 0)%Z.

End Plotting.

(* ================================================================== *)
(** * Concrete inputs                                                   *)
(* ================================================================== *)

Module Examples.

Open Scope string_scope.

Definition q (n : Z) : val := Fin (Q2Qc (inject_Z n)).

(** Two nodes; in the second vector the second node has weight zero. *)
Definition node_weights : tensor := of_list1 [q 1; q 3].
Definition node_weights_with_zero : tensor := of_list1 [q 2; q 0].

(** Shape (1, 2, 2): one sample, two nodes, two variables. *)
Definition pred3 : tensor := of_list3 2 2 [[[q 1; q 2]; [q 3; q 5]]].
Definition target3 : tensor := of_list3 2 2 [[[q 0; q 0]; [q 1; q 1]]].

(** [pred3] and [target3] with NaN at the node of weight zero. *)
Definition pred3_nan : tensor := of_list3 2 2 [[[q 1; q 2]; [NaN; q 5]]].
Definition target3_nan : tensor := of_list3 2 2 [[[q 0; q 0]; [q 1; NaN]]].

(** Shape (1, 1, 2, 2): one sample, one ensemble member, two nodes, two
    variables. *)
Definition pred4 : tensor := of_list4 1 2 2 [[[[q 1; q 2]; [q 3; q 5]]]].
Definition target4 : tensor := of_list4 1 2 2 [[[[q 0; q 0]; [q 1; q 1]]]].

(** Shape (1, 1, 0): no variable. *)
Definition no_variable : tensor := of_list3 1 0 [[[]]].

Definition variances : tensor := of_list1 [q 1; q 4].
Definition feature_weights : tensor := of_list1 [q 2; q 3].

Import Py Plotting.

Definition config (async : bool) : Config :=
  mk_config (Some "/out") 2 async true false [1; 2] 1 None true false.

Definition failing (e : exn) : plot_call -> option exn := fun _ => Some e.
Definition rendering : plot_call -> option exn := fun _ => None.

Definition traceback (e : exn) : string :=
  "Traceback (most recent call last): ... " ++ cname (cls e) ++ ": " ++ message e.

Definition context (rank : nat) (names : list (string * nat))
           (render : plot_call -> option exn) : Context :=
  mk_context rank 0 3 2 1 4 names render traceback.

End Examples.

(* ================================================================== *)
(** * Facts about elements                                              *)
(* ================================================================== *)

Module ValFacts.

Lemma Qc_eqb_eq (x y : Qc) : Qc_eqb x y = true <-> x = y.
Proof.
  unfold Qc_eqb. rewrite Qeq_bool_iff. split.
  - apply Qc_is_canon.
  - intros ->. reflexivity.
Qed.

Lemma Qc_eqb_refl (x : Qc) : Qc_eqb x x = true.
Proof. apply Qc_eqb_eq. reflexivity. Qed.

Lemma Qc_eqb_neq (x y : Qc) : Qc_eqb x y = false <-> x <> y.
Proof.
  rewrite <- Qc_eqb_eq. destruct (Qc_eqb x y); split; congruence.
Qed.

Lemma eqb_eq (a b : val) : Val.eqb a b = true -> a = b /\ isnan a = false.
Proof.
  destruct a, b; simpl; try discriminate.
  intros H. apply Qc_eqb_eq in H. subst. auto.
Qed.

Lemma sub_diag (a : val) : isnan a = false -> Val.sub a a = zero.
Proof.
  destruct a; simpl; [discriminate|]. intros _. unfold zero. f_equal. ring.
Qed.

Lemma square_zero : Val.square zero = zero.
Proof. unfold Val.square, zero; simpl. f_equal; ring. Qed.

Lemma abs_zero : Val.abs zero = zero.
Proof. unfold Val.abs, zero. f_equal. apply Qc_is_canon. reflexivity. Qed.

Lemma mul_zero_l (a : val) : isnan a = false -> Val.mul zero a = zero.
Proof.
  destruct a; simpl; [discriminate|]. intros _. unfold zero. f_equal. ring.
Qed.

Lemma div_zero_l (a : val) :
  isnan a = false -> Val.eqb a zero = false -> Val.div zero a = zero.
Proof.
  destruct a; simpl; [discriminate|]. intros _ H. rewrite H.
  unfold zero. f_equal. unfold Qcdiv. ring.
Qed.

Lemma add_zero_l (a : val) : Val.add zero a = a.
Proof. destruct a; simpl; [reflexivity|]. f_equal. ring. Qed.

Lemma nan_to_zero_fin (a : val) : isnan a = false -> nan_to_zero a = a.
Proof. destruct a; simpl; [discriminate|reflexivity]. Qed.

(** Sums of elements that are all zero. *)
Lemma sum_zeros (l : list val) : Forall (eq zero) l -> Val.sum l = zero.
Proof.
  unfold Val.sum. induction 1 as [|a l <- _ IH]; simpl; [reflexivity|].
  rewrite IH. apply add_zero_l.
Qed.

Lemma nansum_zeros (l : list val) : Forall (eq zero) l -> Val.nansum l = zero.
Proof.
  intros H. unfold Val.nansum. apply sum_zeros.
  induction H as [|a l <- _ IH]; simpl; constructor; auto.
Qed.

Lemma of_nat_pos (n : nat) : 0 < n -> Val.eqb (of_nat n) zero = false.
Proof.
  intros H. unfold of_nat, zero, Val.eqb, Qc_eqb.
  destruct (Qeq_bool _ _) eqn:E; [|reflexivity].
  apply Qeq_bool_iff in E. change (this (Q2Qc ?q)) with (Qred q) in E.
  rewrite !Qred_correct in E. unfold Qeq in E. simpl in E. lia.
Qed.

Lemma mean_zeros (l : list val) : l <> [] -> Forall (eq zero) l -> Val.mean l = zero.
Proof.
  intros Hne H. unfold Val.mean. rewrite (sum_zeros _ H).
  apply div_zero_l; [reflexivity|]. apply of_nat_pos.
  destruct l; [congruence|simpl; lia].
Qed.

Lemma filter_not_nan_zeros (l : list val) :
  Forall (eq zero) l -> filter (fun a => negb (isnan a)) l = l.
Proof.
  induction 1 as [|a l <- _ IH]; simpl; [reflexivity|]. now rewrite IH.
Qed.

Lemma nanmean_zeros (l : list val) : l <> [] -> Forall (eq zero) l -> Val.nanmean l = zero.
Proof.
  intros Hne H. unfold Val.nanmean.
  rewrite (nansum_zeros _ H), (filter_not_nan_zeros _ H).
  apply div_zero_l; [reflexivity|]. apply of_nat_pos.
  destruct l; [congruence|simpl; lia].
Qed.

(** [torch.nansum] only sees the terms with NaN read as zero. *)
Lemma nansum_ext (A : Type) (f g : A -> val) (l : list A) :
  (forall x, In x l -> nan_to_zero (f x) = nan_to_zero (g x)) ->
  Val.nansum (map f l) = Val.nansum (map g l).
Proof.
  intros H. unfold Val.nansum. rewrite !map_map. f_equal. now apply map_ext_in.
Qed.

Lemma nansum_finite (l : list val) :
  Forall (fun a => isnan a = false) l -> Val.nansum l = Val.sum l.
Proof.
  intros H. unfold Val.nansum. f_equal.
  induction H as [|a l Ha _ IH]; simpl; [reflexivity|].
  now rewrite IH, nan_to_zero_fin.
Qed.

Lemma leb_zero_fin (a : val) :
  Val.leb zero a = true -> exists x, a = Fin x /\ (0 <= x)%Qc.
Proof.
  destruct a as [|x]; simpl; [discriminate|]. intros H.
  exists x. split; [reflexivity|]. now apply Qle_bool_iff in H.
Qed.

(** A sum of numbers that are at least zero is a number that is at least
    zero, and it is zero only when every term is. *)
Lemma sum_nonneg (l : list val) :
  Forall (fun a => Val.leb zero a = true) l ->
  exists s, Val.sum l = Fin s /\ (0 <= s)%Qc /\ (s = 0%Qc -> Forall (eq zero) l).
Proof.
  unfold Val.sum. induction 1 as [|a l Ha _ (s & Es & Hs & Hz)]; simpl.
  - exists 0%Qc. repeat split; [apply Qcle_refl|constructor].
  - apply leb_zero_fin in Ha as (x & -> & Hx). rewrite Es. simpl.
    exists (x + s)%Qc. split; [reflexivity|]. split.
    + replace 0%Qc with (0 + 0)%Qc by ring. now apply Qcplus_le_compat.
    + intros E.
      assert (Hx0 : x = 0%Qc).
      { apply Qcle_antisym; [|exact Hx].
        replace x with ((x + s) - s)%Qc by ring. rewrite E.
        replace (0 - s)%Qc with (- s)%Qc by ring.
        apply Qcopp_le_compat in Hs. exact Hs. }
      subst x. constructor; [reflexivity|]. apply Hz. rewrite <- E. ring.
Qed.

Lemma ltb_zero_neq (a : val) : Val.ltb zero a = true -> a <> zero.
Proof.
  destruct a as [|x]; simpl; [discriminate|]. intros H E.
  injection E as ->. rewrite Qc_eqb_refl, andb_false_r in H. discriminate.
Qed.

(** ** Further algebra of the elements *)

Lemma square_sub_sym (a b : val) : Val.square (Val.sub a b) = Val.square (Val.sub b a).
Proof.
  destruct a as [|x], b as [|y]; simpl; try reflexivity. f_equal. ring.
Qed.

Lemma abs_sub_sym (a b : val) : Val.abs (Val.sub a b) = Val.abs (Val.sub b a).
Proof.
  destruct a as [|x], b as [|y]; simpl; try reflexivity. f_equal.
  replace (y - x)%Qc with (- (x - y))%Qc by ring. symmetry. apply Qcabs_opp.
Qed.




(** ** Numbers that are not negative *)

Lemma Qc_mul_nonneg (x y : Qc) : (0 <= x -> 0 <= y -> 0 <= x * y)%Qc.
Proof.
  unfold Qcle. intros Hx Hy. change (this (x * y)%Qc) with (Qred (this x * this y)).
  rewrite Qred_correct. now apply Qmult_le_0_compat.
Qed.

Lemma Qc_inv_nonneg (x : Qc) : (0 <= x -> 0 <= / x)%Qc.
Proof.
  unfold Qcle. intros Hx. change (this (/ x)%Qc) with (Qred (/ this x)).
  rewrite Qred_correct. now apply Qinv_le_0_compat.
Qed.

Lemma Qc_square_nonneg (x : Qc) : (0 <= x * x)%Qc.
Proof.
  destruct (Qclt_le_dec x 0%Qc) as [H|H].
  - replace (x * x)%Qc with ((- x) * (- x))%Qc by ring.
    assert (0 <= - x)%Qc.
    { apply Qclt_le_weak in H. apply Qcopp_le_compat in H.
      now replace (- 0)%Qc with 0%Qc in H by ring. }
    now apply Qc_mul_nonneg.
  - now apply Qc_mul_nonneg.
Qed.

Lemma Qc_of_nat_nonneg (n : nat) : (0 <= Q2Qc (inject_Z (Z.of_nat n)))%Qc.
Proof.
  unfold Qcle.
  change (this (Q2Qc (inject_Z (Z.of_nat n)))) with (Qred (inject_Z (Z.of_nat n))).
  rewrite Qred_correct. change (this 0%Qc) with (inject_Z 0).
  rewrite <- Zle_Qle. lia.
Qed.

Lemma notneg_ltb (a : val) : Val.ltb a zero = false <-> notneg a.
Proof.
  destruct a as [|q]; unfold Val.ltb, zero, notneg; [tauto|]. split.
  - intros H. apply andb_false_iff in H as [H|H].
    + destruct (Qclt_le_dec 0%Qc q) as [Hlt|Hle]; [now apply Qclt_le_weak|].
      apply Qle_bool_iff in Hle. congruence.
    + apply negb_false_iff, Qc_eqb_eq in H. subst. apply Qcle_refl.
  - intros H. destruct (Qle_bool q 0%Qc) eqn:E; [|reflexivity]. cbn [andb].
    apply negb_false_iff, Qc_eqb_eq. apply Qcle_antisym; [|exact H].
    now apply Qle_bool_iff in E.
Qed.

Lemma notneg_add (a b : val) : notneg a -> notneg b -> notneg (Val.add a b).
Proof.
  destruct a as [|x], b as [|y]; simpl; auto. intros Hx Hy.
  replace 0%Qc with (0 + 0)%Qc by ring. now apply Qcplus_le_compat.
Qed.

Lemma notneg_mul (a b : val) : notneg a -> notneg b -> notneg (Val.mul a b).
Proof. destruct a as [|x], b as [|y]; simpl; auto. apply Qc_mul_nonneg. Qed.

Lemma notneg_div (a b : val) : notneg a -> notneg b -> notneg (Val.div a b).
Proof.
  destruct a as [|x], b as [|y]; simpl; auto. intros Hx Hy.
  destruct (Qc_eqb y 0%Qc); simpl; [exact I|].
  unfold Qcdiv. apply Qc_mul_nonneg; [exact Hx|now apply Qc_inv_nonneg].
Qed.

Lemma notneg_square (a : val) : notneg (Val.square a).
Proof. destruct a as [|x]; simpl; [exact I|apply Qc_square_nonneg]. Qed.

Lemma notneg_of_nat (n : nat) : notneg (of_nat n).
Proof. apply Qc_of_nat_nonneg. Qed.

Lemma notneg_sum (l : list val) : Forall notneg l -> notneg (Val.sum l).
Proof.
  unfold Val.sum. induction 1 as [|a l Ha _ IH]; simpl.
  - apply Qcle_refl.
  - now apply notneg_add.
Qed.

Lemma notneg_nansum (l : list val) : Forall notneg l -> notneg (Val.nansum l).
Proof.
  intros H. unfold Val.nansum. apply notneg_sum. apply Forall_forall.
  intros a Ha. apply in_map_iff in Ha as (b & <- & Hb).
  rewrite Forall_forall in H. specialize (H b Hb).
  destruct b; [apply Qcle_refl|exact H].
Qed.

Lemma notneg_mean (l : list val) : Forall notneg l -> notneg (Val.mean l).
Proof.
  intros H. unfold Val.mean. apply notneg_div; [now apply notneg_sum|apply notneg_of_nat].
Qed.

Lemma notneg_nanmean (l : list val) : Forall notneg l -> notneg (Val.nanmean l).
Proof.
  intros H. unfold Val.nanmean.
  apply notneg_div; [now apply notneg_nansum|apply notneg_of_nat].
Qed.

(** ** Lists of NaN *)

Lemma nansum_all_nan (l : list val) : Forall (eq NaN) l -> Val.nansum l = zero.
Proof.
  intros H. unfold Val.nansum. apply sum_zeros.
  induction H as [|a l <- _ IH]; simpl; constructor; [reflexivity|exact IH].
Qed.

Lemma nanmean_all_nan (l : list val) : Forall (eq NaN) l -> Val.nanmean l = NaN.
Proof.
  intros H. unfold Val.nanmean. rewrite nansum_all_nan by exact H.
  assert (E : filter (fun a => negb (isnan a)) l = []).
  { induction H as [|a l <- _ IH]; [reflexivity|exact IH]. }
  rewrite E. reflexivity.
Qed.

End ValFacts.

(* ================================================================== *)
(** * Facts about tensors                                               *)
(* ================================================================== *)

Module TensorFacts.

Lemma length_indices (sh : list nat) : length (indices sh) = numel sh.
Proof.
  induction sh as [|n sh IH]; simpl; [reflexivity|].
  generalize 0 as a. induction n as [|n IHn]; intros a; simpl; [reflexivity|].
  rewrite length_app, length_map, IH, IHn. reflexivity.
Qed.

Lemma in_indices (sh ix : list nat) : In ix (indices sh) <-> valid sh ix.
Proof.
  unfold valid. revert ix. induction sh as [|n sh IH]; intros ix; simpl.
  - split.
    + intros [<-|[]]. constructor.
    + intros H. inversion H. now left.
  - rewrite in_flat_map. split.
    + intros (i & Hi & Hix). apply in_map_iff in Hix as (ix' & <- & Hix').
      apply in_seq in Hi. constructor; [lia|]. now apply IH.
    + intros H. inversion H as [|i ? ix' ? Hi Hix']; subst.
      exists i. split; [apply in_seq; lia|]. apply in_map. now apply IH.
Qed.

Lemma nth_flat_map_seq (A : Type) (g : nat -> list A) (m : nat) (d : A) :
  (forall k, length (g k) = m) ->
  forall n a i j, i < n -> j < m ->
    nth (i * m + j) (flat_map g (seq a n)) d = nth j (g (a + i)) d.
Proof.
  intros Hg. induction n as [|n IH]; intros a i j Hi Hj; [lia|].
  simpl. destruct i as [|i].
  - simpl. rewrite app_nth1 by (rewrite Hg; lia). now rewrite Nat.add_0_r.
  - rewrite app_nth2 by (rewrite Hg; simpl; lia).
    rewrite Hg. replace (S i * m + j - m) with (i * m + j) by (simpl; lia).
    rewrite IH by lia. f_equal. f_equal. lia.
Qed.

Lemma offset_lt (sh ix : list nat) : valid sh ix -> offset sh ix < numel sh.
Proof.
  unfold valid. intros H. induction H as [|i n ix sh Hi _ IH]; simpl; [lia|].
  nia.
Qed.

Lemma nth_indices (sh ix : list nat) :
  valid sh ix -> nth (offset sh ix) (indices sh) [] = ix.
Proof.
  unfold valid. intros H. induction H as [|i n ix sh Hi Hv IH]; simpl; [reflexivity|].
  rewrite nth_flat_map_seq with (m := numel sh).
  - simpl. rewrite nth_indep with (d' := i :: []).
    + change (i :: []) with ((cons i) []). rewrite map_nth. now rewrite IH.
    + rewrite length_map, length_indices. now apply offset_lt.
  - intros k. now rewrite length_map, length_indices.
  - exact Hi.
  - now apply offset_lt.
Qed.

Lemma get_tabulate (sh : list nat) (f : list nat -> val) (ix : list nat) :
  valid sh ix -> get (tabulate sh f) ix = f ix.
Proof.
  intros H. unfold get, tabulate; simpl.
  rewrite nth_indep with (d' := f []).
  - rewrite map_nth. now rewrite nth_indices.
  - rewrite length_map, length_indices. now apply offset_lt.
Qed.

Lemma tabulate_ext (sh : list nat) (f g : list nat -> val) :
  (forall ix, valid sh ix -> f ix = g ix) -> tabulate sh f = tabulate sh g.
Proof.
  intros H. unfold tabulate. f_equal. apply map_ext_in.
  intros ix Hix. apply H. now apply in_indices.
Qed.

(** A well-formed tensor is the table of its elements. *)
Lemma get_in_data (t : tensor) (ix : list nat) :
  wf t -> valid (shape t) ix -> In (get t ix) (data t).
Proof.
  intros Hwf Hv. unfold get. apply nth_In. rewrite Hwf. now apply offset_lt.
Qed.

Lemma flat_map_ext_in (A B : Type) (f g : A -> list B) (l : list A) :
  (forall a, In a l -> f a = g a) -> flat_map f l = flat_map g l.
Proof.
  induction l as [|a l IH]; intros H; simpl; [reflexivity|].
  rewrite (H a) by now left. rewrite IH; [reflexivity|].
  intros b Hb. apply H. now right.
Qed.

Lemma blocks_of_list (sh : list nat) (m : nat) :
  (forall l, length l = m -> map (fun ix => nth (offset sh ix) l NaN) (indices sh) = l) ->
  m = numel sh ->
  forall n a l, length l = n * m ->
    flat_map (fun i => map (fun ix => nth ((i - a) * m + offset sh ix) l NaN) (indices sh))
             (seq a n) = l.
Proof.
  intros IH Hm. induction n as [|n IHn]; intros a l Hl.
  - destruct l; [reflexivity|discriminate].
  - simpl. transitivity (firstn m l ++ skipn m l); [|apply firstn_skipn]. f_equal.
    + etransitivity; [|apply (IH (firstn m l)); rewrite length_firstn; simpl in Hl; lia].
      apply map_ext_in. intros ix Hix. apply in_indices, offset_lt in Hix.
      rewrite Nat.sub_diag. simpl. rewrite nth_firstn.
      destruct (Nat.ltb_spec (offset sh ix) m); [reflexivity|lia].
    + etransitivity;
        [|apply (IHn (S a) (skipn m l)); rewrite length_skipn; simpl in Hl; lia].
      apply flat_map_ext_in. intros i Hi. apply in_seq in Hi.
      apply map_ext. intros ix. rewrite nth_skipn. f_equal.
      replace (i - a) with (S (i - S a)) by lia. simpl. lia.
Qed.

Lemma nth_offset_indices (sh : list nat) (l : list val) :
  length l = numel sh -> map (fun ix => nth (offset sh ix) l NaN) (indices sh) = l.
Proof.
  revert l. induction sh as [|n sh IH]; intros l Hl; simpl in *.
  - destruct l as [|a [|b l]]; simpl in *; try discriminate. reflexivity.
  - etransitivity; [|apply (blocks_of_list sh _ IH eq_refl n 0 l Hl)].
    rewrite flat_map_concat_map, concat_map, map_map, <- flat_map_concat_map.
    apply flat_map_ext. intros i. rewrite map_map, Nat.sub_0_r. reflexivity.
Qed.

Lemma data_as_table (t : tensor) : wf t -> map (get t) (indices (shape t)) = data t.
Proof. intros H. unfold get. now apply nth_offset_indices. Qed.

(** ** Broadcasting *)

Lemma Forall2_rev (A B : Type) (R : A -> B -> Prop) (l : list A) (l' : list B) :
  Forall2 R l l' -> Forall2 R (rev l) (rev l').
Proof.
  induction 1; simpl; [constructor|].
  apply Forall2_app; [assumption|]. repeat constructor. assumption.
Qed.

Lemma bindex_rev_valid (sh ix p : list nat) :
  Forall2 lt ix sh -> bindex_rev sh (ix ++ p) = ix.
Proof.
  induction 1 as [|i n ix sh Hi _ IH]; simpl; [reflexivity|].
  rewrite IH. destruct (Nat.eqb_spec n 1); [|reflexivity]. f_equal. lia.
Qed.

(** Expanding along new leading axes reads the trailing part of the index. *)
Lemma bindex_trailing (sh pre ix : list nat) :
  valid sh ix -> bindex sh (pre ++ ix) = ix.
Proof.
  intros H. unfold bindex. rewrite rev_app_distr.
  rewrite bindex_rev_valid by now apply Forall2_rev.
  apply rev_involutive.
Qed.

Lemma bindex_valid (sh ix : list nat) : valid sh ix -> bindex sh ix = ix.
Proof. apply (bindex_trailing sh [] ix). Qed.

Lemma expandable_rev_app (s p : list nat) : expandable_rev s (s ++ p) = true.
Proof.
  induction s as [|x s IH]; simpl; [reflexivity|].
  now rewrite Nat.eqb_refl, IH.
Qed.

Lemma expandable_trailing (s pre : list nat) :
  expandable_rev (rev s) (rev (pre ++ s)) = true.
Proof. rewrite rev_app_distr. apply expandable_rev_app. Qed.

Lemma broadcast_rev_refl (s : list nat) : broadcast_rev s s = Some s.
Proof.
  induction s as [|x s IH]; simpl; [reflexivity|].
  now rewrite IH, Nat.eqb_refl.
Qed.

Lemma broadcast_shapes_refl (s : list nat) : broadcast_shapes s s = Some s.
Proof.
  unfold broadcast_shapes. rewrite broadcast_rev_refl. simpl.
  now rewrite rev_involutive.
Qed.

Lemma valid_split (pre s ix : list nat) :
  valid (pre ++ s) ix ->
  exists ip js, ix = ip ++ js /\ valid pre ip /\ valid s js.
Proof.
  unfold valid. intros H. apply Forall2_app_inv_r in H as (ip & js & H1 & H2 & ->).
  now exists ip, js.
Qed.

Lemma skipn_valid_split (pre ip js : list nat) :
  valid pre ip -> skipn (length pre) (ip ++ js) = js.
Proof.
  intros H. rewrite <- (Forall2_length H).
  rewrite skipn_app, skipn_all, Nat.sub_diag. reflexivity.
Qed.

(** [expand] along new leading axes. *)
Lemma expand_trailing (t : tensor) (pre : list nat) :
  expand t (pre ++ shape t)
  = Some (tabulate (pre ++ shape t) (fun ix => get t (skipn (length pre) ix))).
Proof.
  unfold expand. rewrite expandable_trailing. f_equal.
  apply tabulate_ext. intros ix Hix.
  apply valid_split in Hix as (ip & js & -> & Hp & Hs).
  rewrite (bindex_trailing _ ip js Hs). now rewrite (skipn_valid_split _ ip js Hp).
Qed.

Lemma expand_same (t : tensor) :
  expand t (shape t) = Some (tabulate (shape t) (get t)).
Proof. apply (expand_trailing t []). Qed.

Lemma expand_scalar (a : val) (sh : list nat) :
  expand (scalar a) sh = Some (tabulate sh (fun _ => a)).
Proof.
  unfold expand. simpl. f_equal.
Qed.

(** ** Elementwise operations on tables *)

Lemma map1_tabulate (f : val -> val) (sh : list nat) (g : list nat -> val) :
  map1 f (tabulate sh g) = tabulate sh (fun ix => f (g ix)).
Proof.
  unfold map1. simpl. apply tabulate_ext. intros ix H. now rewrite get_tabulate.
Qed.

Lemma map2_same_shape (f : val -> val -> val) (a b : tensor) :
  shape a = shape b ->
  map2 f a b = Some (tabulate (shape a) (fun ix => f (get a ix) (get b ix))).
Proof.
  intros E. unfold map2. rewrite <- E, broadcast_shapes_refl, expand_same.
  rewrite E at 1. rewrite expand_same, <- E. f_equal.
  apply tabulate_ext. intros ix H. now rewrite !get_tabulate.
Qed.

Lemma map2_tabulate (f : val -> val -> val) (sh : list nat) (g h : list nat -> val) :
  map2 f (tabulate sh g) (tabulate sh h) = Some (tabulate sh (fun ix => f (g ix) (h ix))).
Proof.
  rewrite map2_same_shape by reflexivity. simpl. f_equal.
  apply tabulate_ext. intros ix H. now rewrite !get_tabulate.
Qed.

Lemma map2_inplace_trailing (f : val -> val -> val) (pre : list nat)
      (g : list nat -> val) (b : tensor) :
  map2_inplace f (tabulate (pre ++ shape b) g) b
  = Some (tabulate (pre ++ shape b)
            (fun ix => f (g ix) (get b (skipn (length pre) ix)))).
Proof.
  unfold map2_inplace. simpl. rewrite expand_trailing. f_equal.
  apply tabulate_ext. intros ix H. now rewrite !get_tabulate.
Qed.

Lemma map2_inplace_scalar (f : val -> val -> val) (sh : list nat)
      (g : list nat -> val) (a : val) :
  map2_inplace f (tabulate sh g) (scalar a) = Some (tabulate sh (fun ix => f (g ix) a)).
Proof.
  unfold map2_inplace. change (shape (tabulate sh g)) with sh.
  rewrite expand_scalar. f_equal.
  apply tabulate_ext. intros ix H. now rewrite !get_tabulate.
Qed.

(** ** Reductions *)

Lemma indices1 (n : nat) : indices [n] = map (fun i => [i]) (seq 0 n).
Proof.
  simpl. generalize 0. induction n as [|n IH]; intros a; simpl; [reflexivity|].
  now rewrite IH.
Qed.

Lemma reduce_all_tabulate (f : list val -> val) (sh : list nat) (g : list nat -> val) :
  reduce_all f (tabulate sh g) = scalar (f (map g (indices sh))).
Proof. reflexivity. Qed.

Ltac inv_valid :=
  repeat match goal with
         | H : valid _ _ |- _ => unfold valid in H
         | H : Forall2 lt _ (_ :: _) |- _ => inversion H; clear H; subst
         | H : Forall2 lt _ [] |- _ => inversion H; clear H; subst
         end.

(** The mean or sum over the last axis of a 3-dimensional table. *)
Lemma reduce_last_3d (f : list val -> val) (a b c : nat) (g : list nat -> val) :
  reduce f [(-1)%Z] (tabulate [a; b; c] g)
  = Some (tabulate [a; b] (fun ix => f (map (fun v => g (ix ++ [v])) (seq 0 c)))).
Proof.
  unfold reduce. simpl. f_equal. apply tabulate_ext. intros ix H.
  f_equal. change (flat_map (fun i : nat => [[i]]) (seq 0 c)) with (indices [c]).
  rewrite indices1, map_map. apply map_ext_in. intros v Hv.
  apply in_seq in Hv. inv_valid. simpl.
  apply get_tabulate. repeat constructor; lia.
Qed.

(** The reduction over the axes (0, 1, 2) of a 3-dimensional table. *)
Lemma reduce_012_3d (f : list val -> val) (a b c : nat) (g : list nat -> val) :
  reduce f [0%Z; 1%Z; 2%Z] (tabulate [a; b; c] g)
  = Some (scalar (f (map g (indices [a; b; c])))).
Proof.
  unfold reduce.
  change (rank (tabulate [a; b; c] g)) with 3.
  change (norm_dims 3 [0%Z; 1%Z; 2%Z]) with (Some [0; 1; 2]).
  cbv beta iota zeta.
  change (mask 3 [0; 1; 2]) with [true; true; true].
  change (shape (tabulate [a; b; c] g)) with [a; b; c].
  change (select [true; true; true] false [a; b; c]) with (@nil nat).
  change (select [true; true; true] true [a; b; c]) with [a; b; c].
  unfold tabulate at 1, scalar. change (indices []) with [@nil nat]. cbn [map].
  do 4 f_equal.
  apply map_ext_in. intros ix H. apply in_indices in H.
  assert (E : merge [true; true; true] [] ix = ix) by (inv_valid; reflexivity).
  rewrite E. now apply get_tabulate.
Qed.

(** Node weights of shape (N,) expanded to (bs, N), and, after
    [weights[..., None]], to (bs, N, n_outputs): the element at an index is
    the weight of the node the index names on axis 1. *)
Lemma expand_weights_2d (w : tensor) (bs N : nat) :
  shape w = [N] ->
  expand w [bs; N] = Some (tabulate [bs; N] (node_weight w)).
Proof.
  intros Hw. change [bs; N] with ([bs] ++ [N]). rewrite <- Hw, expand_trailing.
  f_equal. apply tabulate_ext. intros ix H. rewrite Hw in H. simpl in H.
  inv_valid. reflexivity.
Qed.

Lemma expand_weights_3d (w : tensor) (bs N nv : nat) :
  shape w = [N] ->
  expand (unsqueeze_last w) [bs; N; nv] = Some (tabulate [bs; N; nv] (node_weight w)).
Proof.
  intros Hw. unfold expand, unsqueeze_last. cbn [shape]. rewrite Hw.
  cbn [app rev expandable_rev]. rewrite ?Nat.eqb_refl, ?orb_true_r. cbn [orb andb].
  f_equal. apply tabulate_ext. intros ix H. inv_valid.
  unfold node_weight, get, bindex. cbn [shape rev app bindex_rev nth].
  rewrite Hw. cbn [Nat.eqb rev app offset numel fold_right].
  f_equal. destruct (Nat.eqb_spec N 1); lia.
Qed.

(** ** The same for 4-dimensional tables, (bs, ensemble, lat*lon, n_outputs) *)

Lemma broadcast_rev_app (s p : list nat) : broadcast_rev (s ++ p) s = Some (s ++ p).
Proof.
  induction s as [|x s IH]; simpl.
  - now destruct p.
  - now rewrite IH, Nat.eqb_refl.
Qed.

Lemma broadcast_shapes_trailing (pre s : list nat) :
  broadcast_shapes (pre ++ s) s = Some (pre ++ s).
Proof.
  unfold broadcast_shapes. rewrite rev_app_distr, broadcast_rev_app. simpl.
  now rewrite <- rev_app_distr, rev_involutive.
Qed.

Lemma map2_trailing (f : val -> val -> val) (pre : list nat)
      (g : list nat -> val) (b : tensor) :
  map2 f (tabulate (pre ++ shape b) g) b
  = Some (tabulate (pre ++ shape b)
            (fun ix => f (g ix) (get b (skipn (length pre) ix)))).
Proof.
  unfold map2. change (shape (tabulate (pre ++ shape b) g)) with (pre ++ shape b).
  rewrite broadcast_shapes_trailing, expand_trailing.
  change (expand (tabulate (pre ++ shape b) g) (pre ++ shape b))
    with (expand (tabulate (pre ++ shape b) g) (shape (tabulate (pre ++ shape b) g))).
  rewrite expand_same. f_equal.
  apply tabulate_ext. intros ix H. now rewrite !get_tabulate.
Qed.

Lemma reduce_last_4d (f : list val -> val) (a e b c : nat) (g : list nat -> val) :
  reduce f [(-1)%Z] (tabulate [a; e; b; c] g)
  = Some (tabulate [a; e; b] (fun ix => f (map (fun v => g (ix ++ [v])) (seq 0 c)))).
Proof.
  unfold reduce. simpl. f_equal. apply tabulate_ext. intros ix H.
  f_equal. change (flat_map (fun i : nat => [[i]]) (seq 0 c)) with (indices [c]).
  rewrite indices1, map_map. apply map_ext_in. intros v Hv.
  apply in_seq in Hv. inv_valid. simpl.
  apply get_tabulate. repeat constructor; lia.
Qed.

(** The reduction over the last axis but one. *)
Lemma reduce_spatial_4d (f : list val -> val) (a e b c : nat) (g : list nat -> val) :
  reduce f [(-2)%Z] (tabulate [a; e; b; c] g)
  = Some (tabulate [a; e; c]
            (fun ix => f (map (fun n => g (firstn 2 ix ++ [n] ++ skipn 2 ix)) (seq 0 b)))).
Proof.
  unfold reduce. simpl. f_equal. apply tabulate_ext. intros ix H.
  f_equal. change (flat_map (fun i : nat => [[i]]) (seq 0 b)) with (indices [b]).
  rewrite indices1, map_map. apply map_ext_in. intros n Hn.
  apply in_seq in Hn. inv_valid. simpl.
  apply get_tabulate. repeat constructor; lia.
Qed.

Lemma expand_weights_4d (w : tensor) (bs ens N nv : nat) :
  shape w = [N] ->
  expand (unsqueeze_last w) [bs; ens; N; nv]
  = Some (tabulate [bs; ens; N; nv] (fun ix => get w [nth 2 ix 0])).
Proof.
  intros Hw. unfold expand, unsqueeze_last. cbn [shape]. rewrite Hw.
  cbn [app rev expandable_rev]. rewrite ?Nat.eqb_refl, ?orb_true_r. cbn [orb andb].
  f_equal. apply tabulate_ext. intros ix H. inv_valid.
  unfold get, bindex. cbn [shape rev app bindex_rev nth].
  rewrite Hw. cbn [Nat.eqb rev app offset numel fold_right].
  f_equal. destruct (Nat.eqb_spec N 1); lia.
Qed.

(** ** The indices of a shape with one more, innermost, axis *)

(** The reduction over the axes (0, 1, 2) of a 4-dimensional table keeps
    the last axis. *)
Lemma reduce_012_4d (f : list val -> val) (a e b c : nat) (g : list nat -> val) :
  reduce f [0%Z; 1%Z; 2%Z] (tabulate [a; e; b; c] g)
  = Some (tabulate [c] (fun jx => f (map (fun kx => g (kx ++ jx)) (indices [a; e; b])))).
Proof.
  unfold reduce.
  change (rank (tabulate [a; e; b; c] g)) with 4.
  change (norm_dims 4 [0%Z; 1%Z; 2%Z]) with (Some [0; 1; 2]).
  cbv beta iota zeta.
  change (mask 4 [0; 1; 2]) with [true; true; true; false].
  change (shape (tabulate [a; e; b; c] g)) with [a; e; b; c].
  change (select [true; true; true; false] false [a; e; b; c]) with [c].
  change (select [true; true; true; false] true [a; e; b; c]) with [a; e; b].
  f_equal. apply tabulate_ext. intros jx Hj. f_equal.
  apply map_ext_in. intros kx Hk. apply in_indices in Hk.
  assert (E : merge [true; true; true; false] jx kx = kx ++ jx)
    by (inv_valid; reflexivity).
  rewrite E. apply get_tabulate. inv_valid. simpl. repeat constructor; assumption.
Qed.

End TensorFacts.

(* ================================================================== *)
(** * The value of [WeightedMSELoss.forward] on 3-dimensional inputs    *)
(* ================================================================== *)

Module MSEFacts.
Import MSE ValFacts TensorFacts.

Section Forward3d.

Variable self : WeightedMSELoss.
Variables pred target : tensor.
Variables bs N nv : nat.

(** The documented shapes: [pred] and [target] are (bs, lat*lon,
    n_outputs), the node weights are (N,), and the variances, when given,
    are one number per output variable. *)
Hypothesis Hpred : shape pred = [bs; N; nv].
Hypothesis Htarget : shape target = [bs; N; nv].
Hypothesis Hweights : shape (weights self) = [N].
Hypothesis Hivar : match ivar self with Some iv => shape iv = [nv] | None => True end.

Lemma error_3d : error self pred target = Some (tabulate [bs; N; nv] (err_at self pred target)).
Proof.
  unfold error. rewrite map2_same_shape by congruence. rewrite Hpred.
  rewrite map1_tabulate. unfold err_at. destruct (ivar self) as [iv|].
  - change [bs; N; nv] with ([bs; N] ++ [nv]). rewrite <- Hivar.
    rewrite map2_inplace_trailing. reflexivity.
  - reflexivity.
Qed.

Theorem forward_squash_3d :
  forward self pred target true
  = Some (scalar (sum_function self
       (map (fun ix => Val.div (Val.mul (squashed_at self pred target nv ix) (w_at self ix))
                               (sum_function self (map (w_at self) (indices [bs; N]))))
            (indices [bs; N])))).
Proof.
  unfold forward. rewrite error_3d, reduce_last_3d.
  unfold expand_as. cbn [shape tabulate].
  rewrite (expand_weights_2d _ bs _ Hweights), map2_tabulate.
  cbn [shape tabulate]. rewrite (expand_weights_2d _ bs _ Hweights).
  rewrite reduce_all_tabulate, map2_inplace_scalar, reduce_all_tabulate.
  reflexivity.
Qed.

Theorem forward_nosquash_3d :
  forward self pred target false
  = Some (scalar (sum_function self
       (map (fun ix => Val.div (Val.mul (err_at self pred target ix) (w_at self ix))
                               (sum_function self (map (w_at self) (indices [bs; N; nv]))))
            (indices [bs; N; nv])))).
Proof.
  unfold forward. rewrite error_3d.
  unfold expand_as. cbn [shape tabulate].
  rewrite (expand_weights_3d _ bs _ nv Hweights), map2_tabulate.
  cbn [shape tabulate]. rewrite (expand_weights_3d _ bs _ nv Hweights).
  rewrite reduce_012_3d, map2_inplace_scalar, reduce_012_3d.
  reflexivity.
Qed.

(** ** The normaliser *)

Section Normaliser.

Hypothesis Hwf : wf (weights self).
Hypothesis Hnonneg : nonneg (weights self) = true.
Hypothesis Hpos : Val.ltb zero (Val.sum (data (weights self))) = true.

Lemma weight_nonneg (n : nat) :
  n < N -> Val.leb zero (get (weights self) [n]) = true.
Proof.
  intros Hn. unfold nonneg in Hnonneg. rewrite forallb_forall in Hnonneg.
  apply Hnonneg, get_in_data; [exact Hwf|].
  rewrite Hweights. repeat constructor. exact Hn.
Qed.

Lemma weight_finite (n : nat) : n < N -> isnan (get (weights self) [n]) = false.
Proof.
  intros Hn. destruct (leb_zero_fin _ (weight_nonneg n Hn)) as (x & -> & _).
  reflexivity.
Qed.

(** The sum of the weights over any family of indices that names only
    nodes, and names every node, is a number other than zero. *)
Lemma normaliser_nonzero (idx : list (list nat)) :
  (forall ix, In ix idx -> nth 1 ix 0 < N) ->
  (forall n, n < N -> exists ix, In ix idx /\ nth 1 ix 0 = n) ->
  let s := sum_function self (map (w_at self) idx) in
  isnan s = false /\ Val.eqb s zero = false.
Proof.
  intros Hin Hall.
  assert (Hge : Forall (fun a => Val.leb zero a = true) (map (w_at self) idx)).
  { apply Forall_forall. intros a Ha. apply in_map_iff in Ha as (ix & <- & Hix).
    apply weight_nonneg. now apply Hin. }
  assert (Hsum : sum_function self (map (w_at self) idx) = Val.sum (map (w_at self) idx)).
  { unfold sum_function. destruct (ignore_nans self); [|reflexivity].
    apply nansum_finite. eapply Forall_impl; [|exact Hge].
    intros a Ha. apply leb_zero_fin in Ha as (x & -> & _). reflexivity. }
  cbv zeta. rewrite Hsum.
  destruct (sum_nonneg _ Hge) as (s & Es & _ & Hz). rewrite Es.
  split; [reflexivity|]. simpl. apply Qc_eqb_neq. intros ->.
  specialize (Hz eq_refl). rewrite Forall_forall in Hz.
  apply (ltb_zero_neq _ Hpos).
  rewrite <- (data_as_table _ Hwf), Hweights. apply sum_zeros.
  apply Forall_forall. intros a Ha. apply in_map_iff in Ha as (jx & <- & Hjx).
  apply in_indices in Hjx. inv_valid.
  match goal with H : _ < N |- _ => destruct (Hall _ H) as (ix & Hix & E) end.
  apply Hz. apply in_map_iff. exists ix. split; [|exact Hix].
  unfold w_at, node_weight. now rewrite E.
Qed.

Lemma normaliser_2d :
  0 < bs ->
  let s := sum_function self (map (w_at self) (indices [bs; N])) in
  isnan s = false /\ Val.eqb s zero = false.
Proof.
  intros Hbs. apply normaliser_nonzero.
  - intros ix H. apply in_indices in H. inv_valid. assumption.
  - intros n Hn. exists [0; n]. split; [|reflexivity].
    apply in_indices. repeat constructor; assumption.
Qed.

Lemma normaliser_3d :
  0 < bs -> 0 < nv ->
  let s := sum_function self (map (w_at self) (indices [bs; N; nv])) in
  isnan s = false /\ Val.eqb s zero = false.
Proof.
  intros Hbs Hnv. apply normaliser_nonzero.
  - intros ix H. apply in_indices in H. inv_valid. assumption.
  - intros n Hn. exists [0; n; 0]. split; [|reflexivity].
    apply in_indices. repeat constructor; assumption.
Qed.

End Normaliser.

(** ** Prediction equal to target *)

Section Zero.

Hypothesis Hwf : wf (weights self).
Hypothesis Hnonneg : nonneg (weights self) = true.
Hypothesis Hpos : Val.ltb zero (Val.sum (data (weights self))) = true.
Hypothesis Hivar_fin :
  match ivar self with Some iv => wf iv /\ finite iv = true | None => True end.
Hypothesis Hequal : equal pred target = true.

Lemma sum_function_zeros (l : list val) :
  Forall (eq zero) l -> sum_function self l = zero.
Proof.
  unfold sum_function. destruct (ignore_nans self);
    [apply nansum_zeros|apply sum_zeros].
Qed.

Lemma avg_function_zeros (l : list val) :
  l <> [] -> Forall (eq zero) l -> avg_function self l = zero.
Proof.
  unfold avg_function. destruct (ignore_nans self);
    [apply nanmean_zeros|apply mean_zeros].
Qed.

Lemma err_at_zero (ix : list nat) : valid [bs; N; nv] ix -> err_at self pred target ix = zero.
Proof.
  intros Hv. unfold equal in Hequal. apply andb_true_iff in Hequal as [_ Hall].
  rewrite forallb_forall in Hall. rewrite Hpred in Hall.
  specialize (Hall ix (proj2 (in_indices _ _) Hv)).
  apply eqb_eq in Hall as [E Hfin]. unfold err_at. rewrite <- E.
  rewrite (sub_diag _ Hfin), square_zero.
  destruct (ivar self) as [iv|]; [|reflexivity].
  destruct Hivar_fin as [Hwiv Hfiv]. apply mul_zero_l.
  unfold finite in Hfiv. rewrite forallb_forall in Hfiv.
  apply negb_true_iff, Hfiv, get_in_data; [exact Hwiv|].
  rewrite Hivar. inv_valid. simpl. repeat constructor. assumption.
Qed.

Lemma squashed_at_zero (ix : list nat) :
  0 < nv -> valid [bs; N] ix -> squashed_at self pred target nv ix = zero.
Proof.
  intros Hnv Hv. unfold squashed_at. apply avg_function_zeros.
  - destruct nv; [lia|discriminate].
  - apply Forall_forall. intros a Ha. apply in_map_iff in Ha as (v & <- & Hin).
    apply in_seq in Hin. symmetry. apply err_at_zero.
    inv_valid. simpl. repeat constructor; lia.
Qed.

Lemma zero_term (x s : val) (ix : list nat) :
  x = zero -> nth 1 ix 0 < N -> isnan s = false -> Val.eqb s zero = false ->
  Val.div (Val.mul x (w_at self ix)) s = zero.
Proof.
  intros -> Hn Hs1 Hs2. unfold w_at, node_weight.
  rewrite mul_zero_l by now apply weight_finite.
  now apply div_zero_l.
Qed.

Lemma forward_zero_3d (squash : bool) :
  0 < nv -> forward self pred target squash = Some (scalar zero).
Proof.
  intros Hnv. destruct squash.
  - rewrite forward_squash_3d. do 2 f_equal. apply sum_function_zeros.
    apply Forall_forall. intros a Ha. apply in_map_iff in Ha as (ix & <- & Hix).
    apply in_indices in Hix. symmetry.
    assert (Hbs : 0 < bs) by (inv_valid; lia).
    destruct (normaliser_2d Hwf Hnonneg Hpos Hbs) as [H1 H2].
    apply zero_term; [now apply squashed_at_zero|inv_valid; assumption|exact H1|exact H2].
  - rewrite forward_nosquash_3d. do 2 f_equal. apply sum_function_zeros.
    apply Forall_forall. intros a Ha. apply in_map_iff in Ha as (ix & <- & Hix).
    apply in_indices in Hix. symmetry.
    assert (Hbs : 0 < bs) by (inv_valid; lia).
    destruct (normaliser_3d Hwf Hnonneg Hpos Hbs Hnv) as [H1 H2].
    apply zero_term; [now apply err_at_zero|inv_valid; assumption|exact H1|exact H2].
Qed.

End Zero.

End Forward3d.

(** ** NaN-tolerant mode and nodes of weight zero *)

Lemma zero_weight_term (x s : val) :
  nan_to_zero (Val.div (Val.mul x zero) s) = zero.
Proof.
  destruct x as [|x], s as [|s]; simpl; try reflexivity.
  destruct (Qc_eqb s 0%Qc); simpl; [reflexivity|].
  unfold zero. f_equal. unfold Qcdiv. ring.
Qed.

Lemma same_val_eq (a b : val) : same_val a b = true -> a = b.
Proof.
  destruct a, b; simpl; try discriminate; [reflexivity|].
  intros H. apply Qc_eqb_eq in H. now subst.
Qed.

Lemma same_off_zero_weight_spec (w a a' : tensor) :
  same_off_zero_weight w a a' = true ->
  shape a' = shape a /\
  forall ix, valid (shape a) ix -> Val.eqb (node_weight w ix) zero = false ->
             get a' ix = get a ix.
Proof.
  unfold same_off_zero_weight. intros H. apply andb_true_iff in H as [Hs Hall].
  split.
  - destruct (list_eq_dec Nat.eq_dec (shape a') (shape a)); [assumption|discriminate].
  - intros ix Hv Hw. rewrite forallb_forall in Hall.
    specialize (Hall ix (proj2 (in_indices _ _) Hv)).
    rewrite Hw in Hall. now apply same_val_eq.
Qed.

Section ZeroWeight.

Variable self : WeightedMSELoss.
Variables pred target pred' target' : tensor.
Variables bs N nv : nat.

Hypothesis Hign : ignore_nans self = true.
Hypothesis Hpred : shape pred = [bs; N; nv].
Hypothesis Htarget : shape target = [bs; N; nv].
Hypothesis Hweights : shape (weights self) = [N].
Hypothesis Hivar : match ivar self with Some iv => shape iv = [nv] | None => True end.
Hypothesis Hp : same_off_zero_weight (weights self) pred pred' = true.
Hypothesis Ht : same_off_zero_weight (weights self) target target' = true.

Lemma err_at_same (ix : list nat) :
  valid [bs; N; nv] ix -> Val.eqb (w_at self ix) zero = false ->
  err_at self pred' target' ix = err_at self pred target ix.
Proof.
  intros Hv Hw. unfold err_at.
  destruct (same_off_zero_weight_spec _ _ _ Hp) as [_ Ep].
  destruct (same_off_zero_weight_spec _ _ _ Ht) as [_ Et].
  rewrite Ep, Et; [reflexivity| | | |]; try assumption; congruence.
Qed.

Lemma term_same (x x' s : val) (ix : list nat) :
  (Val.eqb (w_at self ix) zero = false -> x' = x) ->
  nan_to_zero (Val.div (Val.mul x' (w_at self ix)) s)
  = nan_to_zero (Val.div (Val.mul x (w_at self ix)) s).
Proof.
  intros H. destruct (Val.eqb (w_at self ix) zero) eqn:E.
  - apply eqb_eq in E as [-> _]. now rewrite !zero_weight_term.
  - now rewrite H.
Qed.

Lemma forward_zero_weight_3d (squash : bool) :
  forward self pred' target' squash = forward self pred target squash.
Proof.
  destruct (same_off_zero_weight_spec _ _ _ Hp) as [Sp _].
  destruct (same_off_zero_weight_spec _ _ _ Ht) as [St _].
  destruct squash.
  - rewrite (forward_squash_3d self pred' target' bs N nv),
            (forward_squash_3d self pred target bs N nv);
      try assumption; try congruence.
    do 2 f_equal. unfold sum_function. rewrite Hign.
    apply nansum_ext. intros ix Hix. apply in_indices in Hix.
    apply term_same. intros Hw. unfold squashed_at. f_equal.
    apply map_ext_in. intros v Hv. apply in_seq in Hv.
    apply err_at_same.
    + inv_valid. simpl. repeat constructor; lia.
    + inv_valid. exact Hw.
  - rewrite (forward_nosquash_3d self pred' target' bs N nv),
            (forward_nosquash_3d self pred target bs N nv);
      try assumption; try congruence.
    do 2 f_equal. unfold sum_function. rewrite Hign.
    apply nansum_ext. intros ix Hix. apply in_indices in Hix.
    apply term_same. intros Hw. now apply err_at_same.
Qed.

End ZeroWeight.

(** ** Symmetry, rescaled weights, NaN without the NaN-tolerant mode *)

Lemma err_at_sym (self : WeightedMSELoss) (pred target : tensor) (ix : list nat) :
  err_at self pred target ix = err_at self target pred ix.
Proof. unfold err_at. now rewrite square_sub_sym. Qed.

Lemma squashed_at_sym (self : WeightedMSELoss) (pred target : tensor) (nv : nat)
      (ix : list nat) :
  squashed_at self pred target nv ix = squashed_at self target pred nv ix.
Proof.
  unfold squashed_at. f_equal. apply map_ext. intros v. apply err_at_sym.
Qed.

Lemma err_at_nan (self : WeightedMSELoss) (pred target : tensor) (ix : list nat) :
  get pred ix = NaN \/ get target ix = NaN -> err_at self pred target ix = NaN.
Proof.
  intros H. unfold err_at.
  assert (E : Val.square (Val.sub (get pred ix) (get target ix)) = NaN).
  { destruct H as [-> | ->]; [reflexivity|]. now destruct (get pred ix). }
  rewrite E. now destruct (ivar self).
Qed.

Lemma error_shape (self : WeightedMSELoss) (pred target out : tensor) :
  shape pred = shape target ->
  error self pred target = Some out -> shape out = shape pred.
Proof.
  intros Hs. unfold error. rewrite map2_same_shape by assumption.
  rewrite map1_tabulate. destruct (ivar self) as [iv|].
  - unfold map2_inplace. cbn [shape tabulate].
    destruct (expand iv (shape pred)); [|discriminate].
    intros E. injection E as <-. reflexivity.
  - intros E. injection E as <-. reflexivity.
Qed.

(** ** The sign of the loss *)

Section NeverNegative.

Variable self : WeightedMSELoss.
Variables pred target : tensor.

Hypothesis Hw : never_negative (weights self) = true.
Hypothesis Hiv : match ivar self with
                 | Some iv => never_negative iv = true
                 | None => True
                 end.

Lemma get_notneg (t : tensor) (ix : list nat) :
  never_negative t = true -> notneg (get t ix).
Proof.
  intros H. unfold get.
  destruct (nth_in_or_default (offset (shape t) ix) (data t) NaN) as [Hin| ->];
    [|exact I].
  unfold never_negative in H. rewrite forallb_forall in H.
  apply notneg_ltb. apply negb_true_iff. now apply H.
Qed.

Lemma err_at_notneg (ix : list nat) : notneg (err_at self pred target ix).
Proof.
  unfold err_at. destruct (ivar self) as [iv|]; [|apply notneg_square].
  apply notneg_mul; [apply notneg_square|now apply get_notneg].
Qed.

Lemma w_at_notneg (ix : list nat) : notneg (w_at self ix).
Proof. unfold w_at, node_weight. now apply get_notneg. Qed.

Lemma sum_function_notneg (l : list val) : Forall notneg l -> notneg (sum_function self l).
Proof.
  unfold sum_function. destruct (ignore_nans self);
    [apply notneg_nansum|apply notneg_sum].
Qed.

Lemma avg_function_notneg (l : list val) : Forall notneg l -> notneg (avg_function self l).
Proof.
  unfold avg_function. destruct (ignore_nans self);
    [apply notneg_nanmean|apply notneg_mean].
Qed.

Lemma squashed_at_notneg (nv : nat) (ix : list nat) :
  notneg (squashed_at self pred target nv ix).
Proof.
  unfold squashed_at. apply avg_function_notneg. apply Forall_forall.
  intros a Ha. apply in_map_iff in Ha as (v & <- & _). apply err_at_notneg.
Qed.

Lemma normalised_sum_notneg (X : list nat -> val) (idx idx' : list (list nat)) :
  (forall ix, notneg (X ix)) ->
  notneg (sum_function self
            (map (fun ix => Val.div (Val.mul (X ix) (w_at self ix))
                                    (sum_function self (map (w_at self) idx')))
                 idx)).
Proof.
  intros HX. apply sum_function_notneg. apply Forall_forall.
  intros a Ha. apply in_map_iff in Ha as (ix & <- & _).
  apply notneg_div.
  - apply notneg_mul; [apply HX|apply w_at_notneg].
  - apply sum_function_notneg. apply Forall_forall.
    intros b Hb. apply in_map_iff in Hb as (jx & <- & _). apply w_at_notneg.
Qed.

End NeverNegative.

(** ** A prediction that holds NaN only *)

Lemma get_all_nan (t : tensor) (ix : list nat) :
  forallb isnan (data t) = true -> get t ix = NaN.
Proof.
  intros H. unfold get.
  destruct (nth_in_or_default (offset (shape t) ix) (data t) NaN) as [Hin|E];
    [|exact E].
  rewrite forallb_forall in H. specialize (H _ Hin).
  now destruct (nth _ _ _).
Qed.

Lemma all_nan_terms (self : WeightedMSELoss) (X : list nat -> val) (s : val)
      (idx : list (list nat)) :
  ignore_nans self = true ->
  (forall ix, X ix = NaN) ->
  sum_function self (map (fun ix => Val.div (Val.mul (X ix) (w_at self ix)) s) idx) = zero.
Proof.
  intros Hign HX. unfold sum_function. rewrite Hign. apply nansum_all_nan.
  apply Forall_forall. intros a Ha. apply in_map_iff in Ha as (ix & <- & _).
  now rewrite HX.
Qed.

(** ** Inputs with an ensemble axis *)

Section Forward4d.

Variable self : WeightedMSELoss.
Variables pred target : tensor.
Variables bs ens N nv : nat.

Hypothesis Hpred : shape pred = [bs; ens; N; nv].
Hypothesis Htarget : shape target = [bs; ens; N; nv].
Hypothesis Hweights : shape (weights self) = [N].
Hypothesis Hivar : match ivar self with Some iv => shape iv = [nv] | None => True end.

Lemma error_4d :
  error self pred target = Some (tabulate [bs; ens; N; nv] (err_at_4d self pred target)).
Proof.
  unfold error. rewrite map2_same_shape by congruence. rewrite Hpred.
  rewrite map1_tabulate. unfold err_at_4d. destruct (ivar self) as [iv|].
  - change [bs; ens; N; nv] with ([bs; ens; N] ++ [nv]). rewrite <- Hivar.
    rewrite map2_inplace_trailing. reflexivity.
  - reflexivity.
Qed.

Lemma forward_nosquash_4d_mse :
  forward self pred target false
  = Some (tabulate [nv]
       (fun jx => sum_function self
          (map (fun kx => Val.div (Val.mul (err_at_4d self pred target (kx ++ jx))
                                           (w_at_4d self kx))
                                  (sum_function self
                                     (map (w_at_4d self) (indices [bs; ens; N]))))
               (indices [bs; ens; N])))).
Proof.
  unfold forward. rewrite error_4d.
  unfold expand_as. cbn [shape tabulate].
  rewrite (expand_weights_4d _ bs ens _ nv Hweights), map2_tabulate.
  cbn [shape tabulate]. rewrite (expand_weights_4d _ bs ens _ nv Hweights).
  rewrite reduce_012_4d.
  set (den := tabulate [nv] _).
  change [bs; ens; N; nv] with ([bs; ens; N] ++ shape den).
  rewrite map2_inplace_trailing. cbn [app shape den tabulate List.length].
  rewrite reduce_012_4d. f_equal. apply tabulate_ext. intros jx Hj.
  f_equal. apply map_ext_in. intros kx Hk. apply in_indices in Hk.
  assert (E3 : skipn 3 (kx ++ jx) = jx) by (inv_valid; reflexivity).
  assert (E2 : nth 2 (kx ++ jx) 0 = nth 2 kx 0) by (inv_valid; reflexivity).
  rewrite E3, E2. unfold den. rewrite get_tabulate by exact Hj.
  unfold w_at_4d. f_equal. f_equal. apply map_ext_in. intros kx' Hk'.
  apply in_indices in Hk'. inv_valid. reflexivity.
Qed.

End Forward4d.

End MSEFacts.

(* ================================================================== *)
(** * The value of [WeightedMAELoss.forward] on 4-dimensional inputs    *)
(* ================================================================== *)

Module MAEFacts.
Import MAE ValFacts TensorFacts.

Section Forward4d.

Variable self : BaseWeightedLoss.
Variables pred target : tensor.
Variable feature_indices : option (list nat).
Variable feature_scale : bool.
Variable fs : option tensor.
Variables bs ens N nv : nat.

(** The documented shapes: [pred] and [target] are (bs, ensemble, lat*lon,
    n_outputs), the node weights are (N,), and the scaling that applies,
    when one does, has one number per feature passed in. *)
Hypothesis Hpred : shape pred = [bs; ens; N; nv].
Hypothesis Htarget : shape target = [bs; ens; N; nv].
Hypothesis Hweights : shape (node_weights self) = [N].
Hypothesis Hscaling : feature_scaling self feature_indices feature_scale = Some fs.
Hypothesis Hfs : match fs with Some f => shape f = [nv] | None => True end.

Lemma scaled_error_4d :
  (d <- map2 Val.sub pred target ;;
   let out := map1 Val.abs d in
   if feature_scale then scale self out feature_indices else Some out)
  = Some (tabulate [bs; ens; N; nv] (abs_err_at pred target fs)).
Proof.
  rewrite map2_same_shape by congruence. rewrite Hpred, map1_tabulate.
  unfold abs_err_at. unfold feature_scaling in Hscaling.
  destruct feature_scale.
  - unfold scale. destruct (feature_weights self) as [fw|].
    + assert (E : match feature_indices with
                  | Some idx => index_select fw idx
                  | None => Some fw
                  end = fs).
      { destruct feature_indices as [idx|].
        - destruct (index_select fw idx); simpl in Hscaling; congruence.
        - congruence. }
      rewrite E. destruct fs as [f|]; [|destruct feature_indices;
        [destruct (index_select fw l)|]; discriminate].
      change [bs; ens; N; nv] with ([bs; ens; N] ++ [nv]). rewrite <- Hfs.
      rewrite map2_trailing. reflexivity.
    + injection Hscaling as <-. reflexivity.
  - injection Hscaling as <-. reflexivity.
Qed.

Theorem forward_squash_4d :
  forward self pred target true feature_indices feature_scale
  = Some (tabulate [bs; ens]
       (fun jx => Val.div
          (sum_function self
             (map (fun n => Val.mul (squashed_at self pred target fs nv (jx ++ [n])) (weight self n)) (seq 0 N)))
          (sum_function self (map (weight self) (seq 0 N))))).
Proof.
  unfold forward.
  destruct (map2 Val.sub pred target) as [d|] eqn:Ed;
    [|pose proof scaled_error_4d as H; rewrite Ed in H; discriminate].
  pose proof scaled_error_4d as H. rewrite Ed in H. cbv zeta in H. rewrite H.
  unfold scale_by_node_weights. rewrite reduce_last_4d.
  unfold expand_as. cbn [shape tabulate].
  change [bs; ens; N] with ([bs; ens] ++ [N]). rewrite <- Hweights.
  rewrite expand_trailing, map2_tabulate. rewrite Hweights. cbn [app].
  rewrite !reduce_last_3d, map2_tabulate. f_equal.
  apply tabulate_ext. intros jx Hj. inv_valid. reflexivity.
Qed.

Theorem forward_nosquash_4d :
  forward self pred target false feature_indices feature_scale
  = Some (tabulate [bs; ens; nv]
       (fun jx => Val.div
          (sum_function self
             (map (fun n => Val.mul (abs_err_at pred target fs (firstn 2 jx ++ [n] ++ skipn 2 jx)) (weight self n))
                  (seq 0 N)))
          (sum_function self (map (weight self) (seq 0 N))))).
Proof.
  unfold forward.
  destruct (map2 Val.sub pred target) as [d|] eqn:Ed;
    [|pose proof scaled_error_4d as H; rewrite Ed in H; discriminate].
  pose proof scaled_error_4d as H. rewrite Ed in H. cbv zeta in H. rewrite H.
  unfold scale_by_node_weights.
  unfold expand_as. cbn [shape tabulate].
  rewrite (expand_weights_4d _ bs ens _ nv Hweights), map2_tabulate.
  rewrite !reduce_spatial_4d, map2_tabulate. f_equal.
  apply tabulate_ext. intros jx Hj. inv_valid. reflexivity.
Qed.

(** ** Prediction equal to target *)

Section Zero.

Hypothesis Hwf : wf (node_weights self).
Hypothesis Hnonneg : nonneg (node_weights self) = true.
Hypothesis Hpos : Val.ltb zero (Val.sum (data (node_weights self))) = true.
Hypothesis Hfs_fin : match fs with Some f => wf f /\ finite f = true | None => True end.
Hypothesis Hequal : equal pred target = true.

Lemma weights_as_list : map (weight self) (seq 0 N) = data (node_weights self).
Proof.
  rewrite <- (data_as_table _ Hwf), Hweights, indices1, map_map. reflexivity.
Qed.

Lemma mae_weight_finite (n : nat) : n < N -> isnan (weight self n) = false.
Proof.
  intros Hn. unfold nonneg in Hnonneg. rewrite forallb_forall in Hnonneg.
  assert (H : Val.leb zero (weight self n) = true).
  { apply Hnonneg, get_in_data; [exact Hwf|].
    rewrite Hweights. repeat constructor. exact Hn. }
  apply leb_zero_fin in H as (x & -> & _). reflexivity.
Qed.

Lemma denominator_nonzero :
  let s := sum_function self (map (weight self) (seq 0 N)) in
  isnan s = false /\ Val.eqb s zero = false.
Proof.
  cbv zeta. rewrite weights_as_list.
  assert (Hge : Forall (fun a => Val.leb zero a = true) (data (node_weights self))).
  { apply Forall_forall. unfold nonneg in Hnonneg.
    now rewrite forallb_forall in Hnonneg. }
  assert (E : sum_function self (data (node_weights self))
              = Val.sum (data (node_weights self))).
  { unfold sum_function. destruct (ignore_nans self); [|reflexivity].
    apply nansum_finite. eapply Forall_impl; [|exact Hge].
    intros a Ha. apply leb_zero_fin in Ha as (x & -> & _). reflexivity. }
  rewrite E. destruct (sum_nonneg _ Hge) as (s & Es & _ & _).
  pose proof (ltb_zero_neq _ Hpos) as Hne. rewrite Es in *.
  split; [reflexivity|]. simpl. apply Qc_eqb_neq. intros ->. now apply Hne.
Qed.

Lemma mae_sum_function_zeros (l : list val) :
  Forall (eq zero) l -> sum_function self l = zero.
Proof.
  unfold sum_function. destruct (ignore_nans self);
    [apply nansum_zeros|apply sum_zeros].
Qed.

Lemma mae_avg_function_zeros (l : list val) :
  l <> [] -> Forall (eq zero) l -> avg_function self l = zero.
Proof.
  unfold avg_function. destruct (ignore_nans self);
    [apply nanmean_zeros|apply mean_zeros].
Qed.

Lemma abs_err_at_zero (ix : list nat) :
  valid [bs; ens; N; nv] ix -> abs_err_at pred target fs ix = zero.
Proof.
  intros Hv. unfold equal in Hequal. apply andb_true_iff in Hequal as [_ Hall].
  rewrite forallb_forall in Hall. rewrite Hpred in Hall.
  specialize (Hall ix (proj2 (in_indices _ _) Hv)).
  apply eqb_eq in Hall as [E Hfin]. unfold abs_err_at. rewrite <- E.
  rewrite (sub_diag _ Hfin), abs_zero.
  destruct fs as [f|]; [|reflexivity].
  destruct Hfs_fin as [Hwf_f Hfin_f]. apply mul_zero_l.
  unfold finite in Hfin_f. rewrite forallb_forall in Hfin_f.
  apply negb_true_iff, Hfin_f, get_in_data; [exact Hwf_f|].
  rewrite Hfs. inv_valid. simpl. repeat constructor. assumption.
Qed.

Lemma weighted_zeros (x : nat -> val) :
  (forall n, n < N -> x n = zero) ->
  Val.div (sum_function self (map (fun n => Val.mul (x n) (weight self n)) (seq 0 N)))
          (sum_function self (map (weight self) (seq 0 N))) = zero.
Proof.
  intros Hx. destruct denominator_nonzero as [H1 H2].
  rewrite mae_sum_function_zeros; [now apply div_zero_l|].
  apply Forall_forall. intros a Ha. apply in_map_iff in Ha as (n & <- & Hn).
  apply in_seq in Hn. rewrite Hx by lia. symmetry. apply mul_zero_l.
  apply mae_weight_finite. lia.
Qed.

Lemma forward_zero_4d (squash : bool) :
  0 < nv ->
  forward self pred target squash feature_indices feature_scale
  = Some (tabulate (if squash then [bs; ens] else [bs; ens; nv]) (fun _ => zero)).
Proof.
  intros Hnv. destruct squash.
  - rewrite forward_squash_4d. f_equal. apply tabulate_ext. intros jx Hj.
    apply weighted_zeros. intros n Hn. unfold squashed_at.
    apply mae_avg_function_zeros.
    + destruct nv; [lia|discriminate].
    + apply Forall_forall. intros a Ha. apply in_map_iff in Ha as (v & <- & Hin).
      apply in_seq in Hin. symmetry. apply abs_err_at_zero.
      inv_valid. simpl. repeat constructor; lia.
  - rewrite forward_nosquash_4d. f_equal. apply tabulate_ext. intros jx Hj.
    apply weighted_zeros. intros n Hn. apply abs_err_at_zero.
    inv_valid. simpl. repeat constructor; lia.
Qed.

End Zero.

End Forward4d.

End MAEFacts.

(* ================================================================== *)
(** * Facts about the parameter groups                                  *)
(* ================================================================== *)

Module ParamGroupsFacts.
Import ParamGroups.

Lemma mem_In (x : string) (l : list string) : mem x l = true <-> In x l.
Proof.
  unfold mem. rewrite existsb_exists. split.
  - intros (y & Hy & E). apply String.eqb_eq in E. now subst.
  - intros H. exists x. split; [exact H|apply String.eqb_refl].
Qed.

(** [name.split("_")[0]] is the prefix before the first underscore. *)
Lemma first_part_is_prefix (name : string) :
  automatically_determine_group name = prefix_before_underscore name.
Proof.
  unfold automatically_determine_group, prefix_before_underscore.
  induction name as [|c rest IH]; [reflexivity|].
  cbn [first_part index prefix].
  destruct (ascii_dec "_" c) as [E|E].
  - subst c. cbn. now destruct rest.
  - assert (Ec : Ascii.eqb c "_" = false) by (apply Ascii.eqb_neq; congruence).
    rewrite Ec, IH. now destruct (index 0 "_" rest).
Qed.

Lemma mem_in_dec (x : string) (l : list string) :
  mem x l = if in_dec string_dec x l then true else false.
Proof.
  destruct (in_dec string_dec x l) as [H|H].
  - now apply mem_In.
  - destruct (mem x l) eqn:E; [|reflexivity]. apply mem_In in E. contradiction.
Qed.

Lemma next_group_spec (g : groups) (name : string) :
  next_group g name (automatically_determine_group name) = group_of g name.
Proof.
  unfold group_of, explicit_group.
  induction g as [|[group_name group_parameters] g IH]; simpl;
    [apply first_part_is_prefix|].
  rewrite mem_in_dec.
  destruct (in_dec string_dec name group_parameters); [reflexivity|exact IH].
Qed.

Lemma count_count_occ (x : string) (l : list string) :
  count x l = count_occ string_dec l x.
Proof.
  unfold count. induction l as [|y l IH]; simpl; [reflexivity|].
  destruct (string_dec y x) as [->|Hne].
  - rewrite String.eqb_refl. simpl. now rewrite IH.
  - destruct (String.eqb_spec x y) as [->|_]; [congruence|exact IH].
Qed.

(** [np.unique] keeps every element. *)
Lemma in_insert_unique (x y : string) (l : list string) :
  In y (insert_unique x l) <-> y = x \/ In y l.
Proof.
  induction l as [|z l IH]; simpl.
  - intuition.
  - destruct (String.compare x z) eqn:C; simpl.
    + apply String.compare_eq_iff in C. subst. intuition.
    + intuition.
    + rewrite IH. intuition.
Qed.

Lemma in_unique (x : string) (l : list string) : In x (unique l) <-> In x l.
Proof.
  unfold unique. induction l as [|y l IH]; simpl; [reflexivity|].
  rewrite in_insert_unique, IH. intuition.
Qed.

Lemma nth_index_of (x d : string) (l : list string) :
  In x l -> index_of x l < List.length l /\ nth (index_of x l) l d = x.
Proof.
  induction l as [|y l IH]; simpl; [intros []|].
  intros H. destruct (String.eqb_spec x y) as [->|Hne].
  - split; [lia|reflexivity].
  - destruct H as [->|H]; [congruence|].
    destruct (IH H) as [H1 H2]. split; [lia|exact H2].
Qed.

Lemma combine_map_r (A B : Type) (f : A -> B) (l : list A) :
  combine l (map f l) = map (fun a => (a, f a)) l.
Proof. induction l as [|a l IH]; simpl; [reflexivity|]. now rewrite IH. Qed.

Lemma count_pos (x : string) (l : list string) : In x l -> 1 <= count x l.
Proof.
  unfold count. induction l as [|y l IH]; simpl; [intros []|].
  intros H. destruct (String.eqb_spec x y) as [->|Hne]; simpl; [lia|].
  destruct H as [->|H]; [congruence|]. now apply IH.
Qed.

(** The array that the code builds with [np.unique], its inverse and its
    counts is the grouping of the specification. *)
Lemma parameters_to_groups_spec (g : groups) (names : list string) :
  parameters_to_groups g names = grouping_spec g names.
Proof.
  unfold parameters_to_groups, grouping_spec.
  destruct (Nat.leb_spec (List.length names) 15) as [Hle|Hgt].
  - assert (E : Nat.ltb 15 (List.length names) = false) by (apply Nat.ltb_ge; lia).
    now rewrite E.
  - assert (E : Nat.ltb 15 (List.length names) = true) by (apply Nat.ltb_lt; lia).
    rewrite E. unfold np_unique. cbv zeta.
    set (tentative := map (fun name => next_group g name (automatically_determine_group name))
                          names).
    assert (Et : map (group_of g) names = tentative).
    { unfold tentative. apply map_ext. intros name. symmetry. apply next_group_spec. }
    rewrite Et, combine_map_r, !map_map.
    apply map_ext_in. intros x Hx.
    assert (Hu : In x (unique tentative)) by now apply in_unique.
    destruct (nth_index_of x "" (unique tentative) Hu) as [Hlt Hnth].
    set (H := fun a : string =>
                if Nat.ltb 1 (count a tentative) || mem a (keys g) then a else "other").
    change (nth (index_of x (unique tentative)) (map H (unique tentative)) "" =
            (if Nat.eqb (count_occ string_dec tentative x) 1
                && negb (if in_dec string_dec x (map fst g) then true else false)
             then "other" else x)).
    rewrite nth_indep with (d' := H ""), map_nth, Hnth by now rewrite length_map.
    unfold H, keys. rewrite <- count_count_occ, <- mem_in_dec.
    pose proof (count_pos x tentative Hx) as Hc.
    destruct (Nat.ltb_spec 1 (count x tentative)), (Nat.eqb_spec (count x tentative) 1);
      try lia; simpl; [reflexivity|].
    now destruct (mem x (map fst g)).
Qed.

(** [name.split("_")[0]] is the part of the name before its first
    underscore, and the whole name when it has none. *)
Lemma first_part_prefix (a b : string) :
  has_underscore a = false -> first_part (a ++ String "_" b) = a.
Proof.
  induction a as [|c a IH]; simpl; [reflexivity|].
  intros H. apply orb_false_iff in H as [Hc Ha]. rewrite Hc. now rewrite IH.
Qed.

Lemma first_part_whole (a : string) : has_underscore a = false -> first_part a = a.
Proof.
  induction a as [|c a IH]; simpl; [reflexivity|].
  intros H. apply orb_false_iff in H as [Hc Ha]. rewrite Hc. now rewrite IH.
Qed.

(** ** The order of the parameters *)

Lemma filter_all (A : Type) (f : A -> bool) (l : list A) :
  (forall x, In x l -> f x = true) -> filter f l = l.
Proof.
  induction l as [|a l IH]; simpl; [reflexivity|]. intros H.
  rewrite (H a) by now left. f_equal. apply IH. intros x Hx. apply H. now right.
Qed.

Lemma filter_none (A : Type) (f : A -> bool) (l : list A) :
  (forall x, In x l -> f x = false) -> filter f l = [].
Proof.
  induction l as [|a l IH]; simpl; [reflexivity|]. intros H.
  rewrite (H a) by now left. apply IH. intros x Hx. apply H. now right.
Qed.

Lemma filter_split_perm (A : Type) (p q : A -> bool) (l : list A) :
  (forall x, p x && q x = false) ->
  Permutation (filter p l ++ filter q l) (filter (fun x => p x || q x) l).
Proof.
  intros H. induction l as [|a l IH]; simpl; [constructor|].
  specialize (H a). destruct (p a), (q a); simpl in *; try discriminate.
  - now constructor.
  - apply Permutation_sym, Permutation_cons_app, Permutation_sym. exact IH.
  - exact IH.
Qed.

(** The blocks of [argsort_stable]: the positions whose key is below [n]. *)
Lemma argsort_blocks (key : nat -> nat) (l : list nat) (n : nat) :
  Permutation (flat_map (fun k => filter (fun i => Nat.eqb (key i) k) l) (seq 0 n))
              (filter (fun i => Nat.ltb (key i) n) l).
Proof.
  induction n as [|n IH].
  - simpl. rewrite filter_none; [constructor|]. intros x _. reflexivity.
  - rewrite seq_S, flat_map_app. cbn [flat_map Nat.add]. rewrite app_nil_r.
    eapply Permutation_trans; [apply Permutation_app_tail; exact IH|].
    eapply Permutation_trans; [apply filter_split_perm|].
    + intros x. destruct (Nat.ltb_spec (key x) n), (Nat.eqb_spec (key x) n);
        try reflexivity; lia.
    + erewrite filter_ext; [reflexivity|]. intros x. cbv beta.
      destruct (Nat.ltb_spec (key x) n), (Nat.eqb_spec (key x) n),
        (Nat.ltb_spec (key x) (S n)); simpl; try reflexivity; lia.
Qed.

Lemma argsort_stable_perm (n : nat) (ks : list nat) :
  (forall i, i < List.length ks -> nth i ks 0 < n) ->
  Permutation (argsort_stable n ks) (seq 0 (List.length ks)).
Proof.
  intros H. unfold argsort_stable.
  eapply Permutation_trans; [apply (argsort_blocks (fun i => nth i ks 0))|].
  rewrite filter_all; [reflexivity|]. intros i Hi. apply in_seq in Hi.
  apply Nat.ltb_lt. apply H. lia.
Qed.

(** The keys along [argsort_stable] do not decrease. *)
Lemma argsort_blocks_sorted (key : nat -> nat) (l : list nat) (n : nat) :
  StronglySorted le
    (map key (flat_map (fun k => filter (fun i => Nat.eqb (key i) k) l) (seq 0 n)))
  /\ Forall (fun k => k < n)
       (map key (flat_map (fun k => filter (fun i => Nat.eqb (key i) k) l) (seq 0 n))).
Proof.
  induction n as [|n [IH1 IH2]].
  - simpl. split; constructor.
  - rewrite seq_S, flat_map_app, map_app. cbn [flat_map Nat.add]. rewrite app_nil_r.
    set (A := map key (flat_map _ (seq 0 n))) in *.
    assert (HB : Forall (fun k => k = n) (map key (filter (fun i => Nat.eqb (key i) n) l))).
    { apply Forall_forall. intros k Hk. apply in_map_iff in Hk as (i & <- & Hi).
      apply filter_In in Hi as [_ Hi]. now apply Nat.eqb_eq. }
    set (B := map key (filter _ l)) in *. split.
    + clearbody A B. induction IH1 as [|a A HA IHA Ha]; simpl.
      * induction HB as [|b B Hb HB IHB]; constructor; [exact IHB|].
        subst b. eapply Forall_impl; [|exact HB]. intros k ->. lia.
      * inversion IH2 as [|? ? Han HAn]; subst. constructor; [now apply IHA|].
        apply Forall_app. split; [exact Ha|].
        eapply Forall_impl; [|exact HB]. intros k ->. lia.
    + apply Forall_app. split.
      * eapply Forall_impl; [|exact IH2]. intros k Hk. simpl in Hk. lia.
      * eapply Forall_impl; [|exact HB]. intros k ->. lia.
Qed.

Lemma argsort_stable_sorted (n : nat) (ks : list nat) :
  StronglySorted le (map (fun i => nth i ks 0) (argsort_stable n ks)).
Proof. apply (argsort_blocks_sorted (fun i => nth i ks 0)). Qed.

Lemma inverse_bound (l : list string) (i : nat) :
  i < List.length l ->
  nth i (map (fun x => index_of x (unique l)) l) 0 < List.length (unique l).
Proof.
  intros Hi.
  rewrite nth_indep with (d' := index_of "" (unique l)) by now rewrite length_map.
  rewrite (map_nth (fun x => index_of x (unique l)) l "" i).
  apply nth_index_of with (d := ""). apply in_unique. now apply nth_In.
Qed.

Lemma parameters_to_groups_length (g : groups) (names : list string) :
  List.length (parameters_to_groups g names) = List.length names.
Proof.
  unfold parameters_to_groups. destruct (Nat.leb _ _); [reflexivity|].
  unfold np_unique. cbv zeta. now rewrite !length_map.
Qed.

Lemma sort_by_parameter_group_perm (g : groups) (names : list string) :
  Permutation (sort_by_parameter_group g names) (seq 0 (List.length names)).
Proof.
  unfold sort_by_parameter_group. destruct (Nat.leb _ _); [reflexivity|].
  unfold np_unique. cbv zeta.
  rewrite <- (parameters_to_groups_length g names).
  set (l := parameters_to_groups g names).
  rewrite <- (length_map (fun x => index_of x (unique l)) l).
  apply argsort_stable_perm. intros i Hi. rewrite length_map in Hi.
  now apply inverse_bound.
Qed.

Lemma sort_order_eq (g : groups) (names : list string) :
  sort_order (sort_and_color_by_parameter_group g names) = sort_by_parameter_group g names.
Proof.
  unfold sort_and_color_by_parameter_group. cbv zeta.
  destruct (group_list g names) as [[u inv] c]. reflexivity.
Qed.

Lemma colors_length (g : groups) (names : list string) :
  List.length (colors (sort_and_color_by_parameter_group g names)) = List.length names.
Proof.
  unfold sort_and_color_by_parameter_group. cbv zeta.
  destruct (group_list g names) as [[u inv] c] eqn:E. cbn [colors].
  unfold group_list, np_unique in E. cbv zeta in E. injection E as _ <- _.
  rewrite !length_map.
  rewrite (Permutation_length (sort_by_parameter_group_perm g names)).
  apply length_seq.
Qed.

(** ** At most 15 names *)

Lemma map_nth_seq (l : list string) :
  map (fun i => nth i l "") (seq 0 (List.length l)) = l.
Proof.
  induction l as [|a l IH]; [reflexivity|].
  cbn [List.length seq map nth]. f_equal.
  rewrite <- seq_shift, map_map. exact IH.
Qed.

Lemma count_NoDup (x : string) (l : list string) : NoDup l -> In x l -> count x l = 1.
Proof.
  unfold count. induction 1 as [|y l Hy Hl IH]; simpl; [intros []|].
  intros H. destruct (String.eqb_spec x y) as [->|Hne]; simpl.
  - f_equal. rewrite filter_none; [reflexivity|]. intros z Hz.
    apply String.eqb_neq. intros ->. contradiction.
  - destruct H as [->|H]; [congruence|]. now apply IH.
Qed.

Lemma few_names (g : groups) (names : list string) :
  List.length names <= 15 -> NoDup names ->
  sort_order (sort_and_color_by_parameter_group g names) = seq 0 (List.length names)
  /\ colors (sort_and_color_by_parameter_group g names)
     = repeat Black (List.length names).
Proof.
  intros Hlen Hnd. split.
  - rewrite sort_order_eq. unfold sort_by_parameter_group.
    apply Nat.leb_le in Hlen. now rewrite Hlen.
  - unfold sort_and_color_by_parameter_group. cbv zeta.
    destruct (group_list g names) as [[u inv] c] eqn:E. cbn [colors].
    unfold group_list, sort_by_parameter_group, parameters_to_groups in E.
    apply Nat.leb_le in Hlen. rewrite Hlen in E. cbv zeta in E.
    rewrite map_nth_seq in E. unfold np_unique in E. injection E as <- <- <-.
    assert (Hc : forallb (Nat.eqb 1) (map (fun g0 => count g0 names) (unique names)) = true).
    { apply forallb_forall. intros k Hk. apply in_map_iff in Hk as (x & <- & Hx).
      apply (proj1 (in_unique x names)) in Hx.
      now rewrite (count_NoDup x names Hnd Hx). }
    rewrite Hc. rewrite map_map.
    erewrite map_ext; [|intros x; apply nth_repeat].
    clear. induction names as [|a l IH]; simpl; [reflexivity|]. now rewrite IH.
Qed.

(** ** More than 15 names: the groups stay together *)

Lemma nth_map_lt (A B : Type) (f : A -> B) (l : list A) (d : B) (d' : A) (x : nat) :
  x < List.length l -> nth x (map f l) d = f (nth x l d').
Proof.
  intros H. rewrite nth_indep with (d' := f d') by now rewrite length_map.
  apply map_nth.
Qed.

Lemma StronglySorted_nth (l : list nat) (i j : nat) :
  StronglySorted le l -> i <= j -> j < List.length l -> nth i l 0 <= nth j l 0.
Proof.
  intros H. revert i j. induction H as [|a l Hl IH Ha]; intros i j Hij Hj; simpl in *.
  - lia.
  - destruct i, j; try lia.
    + rewrite Forall_forall in Ha. apply Ha. apply nth_In. lia.
    + apply IH; lia.
Qed.

Lemma sorted_groups_together (g : groups) (names : list string) (i j k : nat) :
  15 < List.length names -> i <= j -> j <= k -> k < List.length names ->
  nth i (sorted_parameters_to_groups g names) ""
  = nth k (sorted_parameters_to_groups g names) "" ->
  nth j (sorted_parameters_to_groups g names) ""
  = nth i (sorted_parameters_to_groups g names) "".
Proof.
  intros Hlen Hij Hjk Hk. unfold sorted_parameters_to_groups.
  pose proof (sort_by_parameter_group_perm g names) as Hperm.
  pose proof (parameters_to_groups_length g names) as Hl.
  unfold sort_by_parameter_group in *.
  assert (E : Nat.leb (List.length names) 15 = false) by (apply Nat.leb_gt; lia).
  rewrite E in *. unfold np_unique in *. cbv zeta in *.
  set (l := parameters_to_groups g names) in *.
  set (u := unique l) in *.
  set (inv := map (fun x => index_of x u) l) in *.
  set (order := argsort_stable (List.length u) inv) in *.
  assert (Hlo : List.length order = List.length names).
  { rewrite (Permutation_length Hperm). apply length_seq. }
  assert (Ho : forall x, x < List.length names -> nth x order 0 < List.length l).
  { intros x Hx. rewrite Hl.
    assert (Hin : In (nth x order 0) (seq 0 (List.length names))).
    { eapply Permutation_in; [exact Hperm|]. apply nth_In. lia. }
    apply in_seq in Hin. lia. }
  assert (HG : forall x, x < List.length names ->
                 nth x (map (fun y => nth y l "") order) "" = nth (nth x order 0) l "").
  { intros x Hx. apply (nth_map_lt _ _ (fun y => nth y l "") order "" 0). lia. }
  assert (HK : forall x, x < List.length names ->
                 nth x (map (fun y => nth y inv 0) order) 0
                 = index_of (nth (nth x order 0) l "") u).
  { intros x Hx. rewrite (nth_map_lt _ _ (fun y => nth y inv 0) order 0 0) by lia.
    unfold inv. apply (nth_map_lt _ _ (fun y => index_of y u) l 0 ""). now apply Ho. }
  assert (Hu : forall x, x < List.length names ->
                 nth (index_of (nth (nth x order 0) l "") u) u "" = nth (nth x order 0) l "").
  { intros x Hx. apply nth_index_of. apply in_unique. apply nth_In. now apply Ho. }
  pose proof (argsort_stable_sorted (List.length u) inv) as Hs. fold order in Hs.
  assert (Hlk : List.length (map (fun y => nth y inv 0) order) = List.length names)
    by now rewrite length_map.
  pose proof (StronglySorted_nth _ i j Hs Hij ltac:(lia)) as H1.
  pose proof (StronglySorted_nth _ j k Hs Hjk ltac:(lia)) as H2.
  rewrite !HG by lia. intros Heq.
  rewrite !HK in H1, H2 by lia. rewrite <- Heq in H2.
  rewrite <- (Hu j), <- (Hu i) by lia. f_equal. lia.
Qed.

End ParamGroupsFacts.

(* ================================================================== *)
(** * A program logic for the effects                                   *)
(* ================================================================== *)

Module PyFacts.
Import Py.

Section Logic.

Variables S E : Type.

Lemma hoare_ret (A : Type) (a : A) (pre : S -> Prop) post exc (P : E -> Prop) :
  (forall s, pre s -> post a s) -> hoare pre (ret a) post exc P.
Proof. intros H s Hs. split; [constructor|]. now apply H. Qed.

Lemma hoare_raise (A : Type) (e : exn) (pre : S -> Prop) (post : A -> S -> Prop) exc (P : E -> Prop) :
  (forall s, pre s -> exc s) -> hoare pre (raise e) post exc P.
Proof. intros H s Hs. split; [constructor|]. now apply H. Qed.

Lemma hoare_exit (A : Type) (c : Z) (pre : S -> Prop) (post : A -> S -> Prop) exc (P : E -> Prop) :
  (forall s, pre s -> exc s) -> hoare pre (sys_exit c) post exc P.
Proof. intros H s Hs. split; [constructor|]. now apply H. Qed.

Lemma hoare_emit (e : E) (pre : S -> Prop) post exc (P : E -> Prop) :
  P e -> (forall s, pre s -> post tt s) -> hoare pre (emit e) post exc P.
Proof. intros He H s Hs. split; [repeat constructor; exact He|]. now apply H. Qed.

Lemma hoare_lift (A : Type) (r : result A) (pre : S -> Prop) post exc (P : E -> Prop) :
  (forall s, pre s -> match r with Ok a => post a s | _ => exc s end) ->
  hoare pre (lift r) post exc P.
Proof. intros H s Hs. split; [constructor|]. now apply H. Qed.

Lemma hoare_bind (A B : Type) (m : M S E A) (f : A -> M S E B)
      (pre : S -> Prop) mid post exc (P : E -> Prop) :
  hoare pre m mid exc P ->
  (forall a, hoare (mid a) (f a) post exc P) ->
  hoare pre (bind m f) post exc P.
Proof.
  intros Hm Hf s Hs. specialize (Hm s Hs).
  unfold events, outcome, final, bind in *.
  destruct (m s) as [[r s'] ev]. simpl in *. destruct Hm as [Hev Hr].
  destruct r as [a|e|c]; simpl; try (split; assumption).
  specialize (Hf a s' Hr). unfold events, outcome, final in Hf.
  destruct (f a s') as [[r' s''] ev']. simpl in *.
  destruct Hf as [Hev' Hr']. split; [|exact Hr'].
  apply Forall_app. now split.
Qed.

Lemma hoare_conseq (A : Type) (m : M S E A) (pre pre' : S -> Prop)
      (post post' : A -> S -> Prop) (exc exc' : S -> Prop) (P P' : E -> Prop) :
  hoare pre' m post' exc' P' ->
  (forall s, pre s -> pre' s) ->
  (forall a s, post' a s -> post a s) ->
  (forall s, exc' s -> exc s) ->
  (forall e, P' e -> P e) ->
  hoare pre m post exc P.
Proof.
  intros H H1 H2 H3 H4 s Hs. destruct (H s (H1 s Hs)) as [Hev Hr]. split.
  - eapply Forall_impl; [exact H4|exact Hev].
  - destruct (outcome m s); auto.
Qed.

Lemma hoare_try (A : Type) (m : M S E A) (h : exn -> M S E A)
      (pre : S -> Prop) post mid exc (P : E -> Prop) :
  hoare pre m post mid P ->
  (forall e, hoare mid (h e) post exc P) ->
  (forall s, mid s -> exc s) ->
  hoare pre (try_except_Exception m h) post exc P.
Proof.
  intros Hm Hh Hx s Hs. specialize (Hm s Hs).
  unfold events, outcome, final, try_except_Exception in *.
  destruct (m s) as [[r s'] ev]. simpl in *. destruct Hm as [Hev Hr].
  destruct r as [a|e|c]; simpl; try (split; auto; fail).
  destruct (derives_Exception (cls e)); simpl; [|split; auto].
  specialize (Hh e s' Hr). unfold events, outcome, final in Hh.
  destruct (h e s') as [[r' s''] ev']. simpl in *.
  destruct Hh as [Hev' Hr']. split; [|exact Hr'].
  apply Forall_app. now split.
Qed.

(** A loop keeps what its body keeps. *)
Lemma hoare_for_each (A : Type) (l : list A) (body : A -> M S E unit)
      (I : S -> Prop) (P : E -> Prop) :
  (forall x, hoare I (body x) (fun _ => I) I P) ->
  hoare I (for_each l body) (fun _ => I) I P.
Proof.
  intros Hb. induction l as [|x l IH]; simpl.
  - now apply hoare_ret.
  - eapply hoare_bind; [apply Hb|]. intros u. exact IH.
Qed.

(** The same, for a body that keeps it on the elements of the list. *)
Lemma hoare_for_each_in (A : Type) (l : list A) (body : A -> M S E unit)
      (I : S -> Prop) (P : E -> Prop) :
  (forall x, In x l -> hoare I (body x) (fun _ => I) I P) ->
  hoare I (for_each l body) (fun _ => I) I P.
Proof.
  induction l as [|x l IH]; intros Hb; simpl.
  - now apply hoare_ret.
  - eapply hoare_bind; [apply Hb; now left|]. intros u. apply IH.
    intros y Hy. apply Hb. now right.
Qed.

End Logic.

End PyFacts.

(* ================================================================== *)
(** * Facts about the plot callbacks                                    *)
(* ================================================================== *)

Module PlottingFacts.
Import Py PyFacts ParamGroups Plotting.

Open Scope py_scope.

(** ** Ranks other than 0 *)

Section OtherRanks.

Variable config : Config.
Variable ctx : Context.
Hypothesis Hrank : rank ctx <> 0.

Lemma rank_test : Nat.eqb (rank ctx) 0 = false.
Proof. now apply Nat.eqb_neq. Qed.

Lemma rank_zero_only_skips (fn : M unit) (s : State) :
  rank_zero_only ctx fn s = (Ok tt, s, []).
Proof. unfold rank_zero_only. now rewrite rank_test. Qed.

Lemma async_plot_skips (fn : M unit) (s : State) :
  _async_plot ctx fn s = (Ok tt, s, []).
Proof. apply rank_zero_only_skips. Qed.

(** A hook that computes [a % b] and then plots on rank 0 only. *)
Lemma gated_skips (a b : Z) (fn : Z -> M unit) (s : State) :
  (forall r s, snd (fn r s) = [] /\ snd (fst (fn r s)) = s) ->
  events (r <~ lift (mod_ a b) ;; fn r) s = [] /\
  final (r <~ lift (mod_ a b) ;; fn r) s = s.
Proof.
  intros H. unfold events, final, bind, lift, mod_.
  destruct (b =? 0)%Z; simpl; [now split|].
  destruct (H (a mod b)%Z s) as [H1 H2].
  destruct (fn (a mod b)%Z s) as [[r s'] ev]. simpl in *. now subst.
Qed.

Lemma hook_skips (cb : callback) (h : hook) (s : State) :
  events (call_hook config ctx cb h) s = [] /\
  final (call_hook config ctx cb h) s = s.
Proof.
  destruct cb, h; try (split; reflexivity); cbn [call_hook].
  - unfold LongRolloutPlots_on_validation_batch_end, events, final.
    now rewrite rank_zero_only_skips.
  - unfold GraphNodeTrainableFeaturesPlot_on_validation_epoch_start, events, final.
    now rewrite rank_zero_only_skips.
  - unfold GraphEdgeTrainableFeaturesPlot_on_validation_epoch_end.
    apply gated_skips. intros r s0. rewrite rank_test, andb_false_r. now split.
  - unfold PlotLoss_on_validation_batch_end. apply gated_skips. intros r s0.
    unfold when, plot, PlotLoss_plot.
    destruct (r =? 0)%Z; [|now split].
    destruct (asynchronous config);
      [rewrite async_plot_skips|rewrite rank_zero_only_skips]; now split.
  - unfold PlotSample_on_validation_batch_end. apply gated_skips. intros r s0.
    unfold when, plot, PlotSample_plot.
    destruct (r =? 0)%Z; [|now split].
    destruct (asynchronous config);
      [rewrite async_plot_skips|rewrite rank_zero_only_skips]; now split.
  - unfold PlotAdditionalMetrics_on_validation_batch_end. apply gated_skips. intros r s0.
    unfold when, plot, PlotAdditionalMetrics_plot.
    destruct (r =? 0)%Z; [|now split].
    destruct (asynchronous config);
      [rewrite async_plot_skips|rewrite rank_zero_only_skips]; now split.
Qed.

End OtherRanks.

(** ** The gates of the hooks *)

Section Gates.

Variable config : Config.
Variable ctx : Context.

(** A hook that computes [a % b] and goes on only when it is zero. *)
Lemma gated_events (a b : Z) (fn : M unit) (s : State) :
  events (r <~ lift (mod_ a b) ;; when (r =? 0)%Z fn) s <> [] ->
  b <> 0%Z /\ (a mod b = 0)%Z.
Proof.
  unfold events, bind, lift, mod_, when.
  destruct (Z.eqb_spec b 0); simpl; [congruence|].
  destruct (Z.eqb_spec (a mod b) 0); simpl; [now split|congruence].
Qed.

Lemma render_nonempty (ev : list event) : existsb is_render ev = true -> ev <> [].
Proof. destruct ev; simpl; [discriminate|congruence]. Qed.

Lemma long_rollout_gate (i : nat) (s : State) :
  events (LongRolloutPlots_on_validation_batch_end config ctx i) s <> [] ->
  rank ctx = 0 /\
  (frequency config <> 0 /\ Z.of_nat i mod frequency config = 0)%Z /\
  (longrollout_frequency config <> 0 /\
   (Z.of_nat (current_epoch ctx) + 1) mod longrollout_frequency config = 0)%Z.
Proof.
  unfold LongRolloutPlots_on_validation_batch_end, rank_zero_only.
  destruct (Nat.eqb_spec (rank ctx) 0) as [Hr|Hr]; [|intros H; now elim H].
  unfold events, bind, lift, mod_, when.
  destruct (Z.eqb_spec (frequency config) 0); simpl; [congruence|].
  destruct (Z.eqb_spec (Z.of_nat i mod frequency config) 0); simpl; [|congruence].
  destruct (Z.eqb_spec (longrollout_frequency config) 0); simpl; [congruence|].
  destruct (Z.eqb_spec ((Z.of_nat (current_epoch ctx) + 1)
                        mod longrollout_frequency config) 0); simpl; [|congruence].
  intros _. repeat split; assumption.
Qed.

Lemma graph_edge_gate (s : State) :
  events (GraphEdgeTrainableFeaturesPlot_on_validation_epoch_end config ctx) s <> [] ->
  rank ctx = 0 /\ (Z.of_nat (current_epoch ctx) mod epoch_freq = 0)%Z.
Proof.
  unfold GraphEdgeTrainableFeaturesPlot_on_validation_epoch_end.
  unfold events, bind, lift, mod_, when. simpl.
  destruct (Z.eqb_spec (Z.of_nat (current_epoch ctx) mod epoch_freq) 0); simpl;
    [|congruence].
  destruct (Nat.eqb_spec (rank ctx) 0); simpl; [now split|congruence].
Qed.

End Gates.

(** ** Exceptions in asynchronous mode *)

Section Async.

Variable config : Config.
Variable ctx : Context.

Lemma sync_plot (_plot : M unit) :
  asynchronous config = false -> plot config ctx _plot = _plot.
Proof. unfold plot. now intros ->. Qed.

Lemma async_plot (_plot : M unit) :
  asynchronous config = true -> plot config ctx _plot = _async_plot ctx _plot.
Proof. unfold plot. now intros ->. Qed.

(** The plot raises an [Exception] of a class that one message builds:
    the retrieval point sees the same class, with the formatted traceback
    as its message and the original as its cause; it is logged at level
    ERROR and the process exits with code 1. *)
Lemma async_plot_raises (_plot : M unit) (s s' : State) (ev : list event) (e : exn) :
  rank ctx = 0 ->
  _plot s = (Raise e, s', ev) ->
  derives_Exception (cls e) = true ->
  init_takes_message (cls e) = true ->
  _async_plot ctx _plot s
  = (Exit 1, s',
     Submit :: ev ++ [Log ERROR critical (Some (ExnFrom (cls e) (format_exc ctx e) e))]).
Proof.
  intros Hr Hp Hd Hi.
  unfold _async_plot, rank_zero_only. rewrite Hr. cbn [Nat.eqb].
  unfold bind, emit, try_except_Exception, _function_wrapper, try_except_Exception.
  rewrite Hp, Hd. unfold bind, lift, construct. rewrite Hi. cbn.
  rewrite Hd. cbn. now rewrite !app_nil_r.
Qed.

(** The class wants other arguments: [cls(text)] is a [TypeError], and
    that is what the retrieval point sees. *)
Lemma async_plot_raises_other_init (_plot : M unit) (s s' : State) (ev : list event)
      (e : exn) :
  rank ctx = 0 ->
  _plot s = (Raise e, s', ev) ->
  derives_Exception (cls e) = true ->
  init_takes_message (cls e) = false ->
  exists e', cls e' = TypeError /\
    _async_plot ctx _plot s = (Exit 1, s', Submit :: ev ++ [Log ERROR critical (Some e')]).
Proof.
  intros Hr Hp Hd Hi. eexists. split; [|
  unfold _async_plot, rank_zero_only; rewrite Hr; cbn [Nat.eqb];
  unfold bind, emit, try_except_Exception, _function_wrapper, try_except_Exception;
  rewrite Hp, Hd; unfold bind, lift, construct; rewrite Hi; cbn;
  now rewrite !app_nil_r].
  reflexivity.
Qed.

(** What is not an [Exception] goes through, unlogged. *)
Lemma async_plot_raises_base (_plot : M unit) (s s' : State) (ev : list event) (e : exn) :
  rank ctx = 0 ->
  _plot s = (Raise e, s', ev) ->
  derives_Exception (cls e) = false ->
  _async_plot ctx _plot s = (Raise e, s', Submit :: ev).
Proof.
  intros Hr Hp Hd.
  unfold _async_plot, rank_zero_only. rewrite Hr. cbn [Nat.eqb].
  unfold bind, emit, try_except_Exception, _function_wrapper, try_except_Exception.
  rewrite Hp, Hd. cbn. now rewrite Hd.
Qed.

Lemma async_plot_returns (_plot : M unit) (s s' : State) (ev : list event) :
  rank ctx = 0 ->
  _plot s = (Ok tt, s', ev) ->
  _async_plot ctx _plot s = (Ok tt, s', Submit :: ev).
Proof.
  intros Hr Hp.
  unfold _async_plot, rank_zero_only. rewrite Hr. cbn [Nat.eqb].
  unfold bind, emit, try_except_Exception, _function_wrapper, try_except_Exception.
  now rewrite Hp.
Qed.

End Async.

(** ** What the hooks keep *)

Section Keep.

Variable config : Config.
Variable ctx : Context.
Variable I : State -> Prop.
Variable P : event -> Prop.

(** [P] holds of every event that is not the call of a rendering function. *)
Hypothesis HP : forall e, is_render e = false -> P e.

Lemma keeps_ret : keeps I P (ret tt).
Proof. now apply hoare_ret. Qed.

Lemma keeps_emit (e : event) : is_render e = false -> keeps I P (emit e).
Proof. intros H. apply hoare_emit; [now apply HP|auto]. Qed.

Lemma keeps_seq (m k : M unit) : keeps I P m -> keeps I P k -> keeps I P (m ;;; k).
Proof. intros Hm Hk. eapply hoare_bind; [exact Hm|]. intros u. exact Hk. Qed.

Lemma keeps_when (b : bool) (m : M unit) : keeps I P m -> keeps I P (when b m).
Proof. destruct b; [auto|intros _; apply keeps_ret]. Qed.

Lemma keeps_rank_zero_only (m : M unit) : keeps I P m -> keeps I P (rank_zero_only ctx m).
Proof.
  unfold rank_zero_only. destruct (Nat.eqb (rank ctx) 0); [auto|intros _; apply keeps_ret].
Qed.

Lemma keeps_output_figure (epoch : nat) (tag exp_log_tag : string) :
  keeps I P (_output_figure config ctx epoch tag exp_log_tag).
Proof.
  unfold _output_figure. apply keeps_rank_zero_only. apply keeps_seq.
  - destruct (plots config); [|apply keeps_ret].
    repeat first [apply keeps_seq | apply keeps_when | now apply keeps_emit].
  - now apply keeps_emit.
Qed.

Lemma keeps_call (c : plot_call) : P (Render c) -> keeps I P (call ctx c).
Proof.
  intros Hc. unfold call. eapply hoare_bind.
  - apply hoare_emit with (post := fun _ => I); [exact Hc|auto].
  - intros u. destruct (render ctx c); [now apply hoare_raise|now apply hoare_ret].
Qed.

Lemma keeps_function_wrapper (m : M unit) : keeps I P m -> keeps I P (_function_wrapper ctx m).
Proof.
  intros Hm. unfold _function_wrapper. eapply hoare_try; [exact Hm| |auto].
  intros e. eapply hoare_bind with (mid := fun _ => I).
  - apply hoare_lift. intros s Hs. now destruct (construct _ _).
  - intros e'. now apply hoare_raise.
Qed.

Lemma keeps_async_plot (m : M unit) : keeps I P m -> keeps I P (_async_plot ctx m).
Proof.
  intros Hm. unfold _async_plot. apply keeps_rank_zero_only. apply keeps_seq.
  - now apply keeps_emit.
  - eapply hoare_try; [now apply keeps_function_wrapper| |auto].
    intros e. apply keeps_seq; [now apply keeps_emit|now apply hoare_exit].
Qed.

Lemma keeps_plot (m : M unit) : keeps I P m -> keeps I P (plot config ctx m).
Proof.
  unfold plot. destruct (asynchronous config); [apply keeps_async_plot|auto].
Qed.

Lemma hoare_modify (f : State -> State) (pre : State -> Prop)
      (post : unit -> State -> Prop) (exc : State -> Prop) :
  (forall s, pre s -> post tt (f s)) -> hoare pre (modify f) post exc P.
Proof. intros H s Hs. split; [constructor|]. now apply H. Qed.

End Keep.

(** ** The cached property of PlotLoss *)

Section Cached.

Variable config : Config.
Variable r : ParamGroups.result.
Variable n : nat.

Lemma not_render_plot_loss_with (e : event) : is_render e = false -> plot_loss_with r e.
Proof. intros H k r' ->. discriminate. Qed.

(** With the cache filled, the property returns what the cache holds. *)
Lemma cached_property_hit :
  hoare (cache_is r n) (sort_and_color_by_parameter_group config)
        (fun r' s => r' = r /\ cache_is r n s) (cache_is r n) (plot_loss_with r).
Proof.
  intros s [Hc Hn].
  unfold sort_and_color_by_parameter_group, events, outcome, final, bind, get_state.
  simpl. rewrite Hc. simpl. split; [constructor|]. repeat split; assumption.
Qed.

Lemma loss_step_keeps (ctx : Context) (epoch k : nat) (tag1 tag2 : string) :
  hoare (cache_is r n)
        (r' <~ sort_and_color_by_parameter_group config ;;
         call ctx (plot_loss k r') ;;;
         _output_figure config ctx epoch tag1 tag2)
        (fun _ => cache_is r n) (cache_is r n) (plot_loss_with r).
Proof.
  eapply hoare_bind; [apply cached_property_hit|].
  intros r'. apply hoare_conseq with
    (pre' := fun s => r' = r /\ cache_is r n s)
    (post' := fun _ s => cache_is r n s) (exc' := cache_is r n)
    (P' := plot_loss_with r); auto.
  intros s [-> Hs].
  assert (K : keeps (cache_is r n) (plot_loss_with r)
                (call ctx (plot_loss k r) ;;; _output_figure config ctx epoch tag1 tag2)).
  { apply keeps_seq.
    - apply keeps_call. intros k' r' E. now injection E.
    - apply keeps_output_figure. apply not_render_plot_loss_with. }
  now apply K.
Qed.

Lemma PlotLoss_plot_keeps (ctx : Context) (epoch : nat) :
  keeps (cache_is r n) (plot_loss_with r) (PlotLoss_plot config ctx epoch).
Proof.
  unfold PlotLoss_plot. apply keeps_rank_zero_only.
  eapply hoare_bind with (mid := fun _ => cache_is r n).
  - apply hoare_modify. intros s Hs. exact Hs.
  - intros u. apply hoare_for_each. intros k. apply loss_step_keeps.
Qed.

(** Once the cache is filled, no plot call changes it, runs the body of
    the property or passes other arguments to [plot_loss]. *)
Lemma plot_calls_keep (calls : list (Context * nat)) (s : State) :
  cache_is r n s ->
  Forall (fun '(s', ev) => cache_is r n s' /\ Forall (plot_loss_with r) ev)
         (PlotLoss_plot_calls config calls s).
Proof.
  revert s. induction calls as [|[ctx epoch] calls IH]; intros s Hs; simpl.
  - constructor.
  - assert (K : keeps (cache_is r n) (plot_loss_with r)
                  (plot config ctx (PlotLoss_plot config ctx epoch))).
    { apply keeps_plot; [apply not_render_plot_loss_with|apply PlotLoss_plot_keeps]. }
    destruct (K s Hs) as [Hev Hout].
    assert (Hfin : cache_is r n (final (plot config ctx (PlotLoss_plot config ctx epoch)) s)).
    { destruct (outcome _ s); exact Hout. }
    constructor; [now split|]. now apply IH.
Qed.

End Cached.

(** A plot call on rank 0 assigns the parameter names it finds, whatever
    the names of the call before. *)
Section Names.

Variable config : Config.
Variable ctx : Context.
Variable epoch : nat.

Hypothesis Hrank : rank ctx = 0.

Lemma cached_property_keeps_names :
  hoare (has_names ctx) (sort_and_color_by_parameter_group config)
        (fun _ => (has_names ctx)) (has_names ctx) (fun _ => True).
Proof.
  intros s Hs.
  unfold sort_and_color_by_parameter_group, events, outcome, final, bind, get_state.
  simpl. destruct (cached s); simpl.
  - split; [constructor|exact Hs].
  - unfold has_names in Hs. rewrite Hs. unfold when, put_state, emit, ret, bind.
    destruct (warns _ _); simpl; (split; [repeat constructor|reflexivity]).
Qed.

Lemma PlotLoss_plot_assigns_names (s : State) :
  (has_names ctx) (final (plot config ctx (PlotLoss_plot config ctx epoch)) s).
Proof.
  assert (K : hoare (fun _ => True) (plot config ctx (PlotLoss_plot config ctx epoch))
                    (fun _ => (has_names ctx)) (has_names ctx) (fun _ => True)).
  { assert (K1 : hoare (fun _ => True) (PlotLoss_plot config ctx epoch)
                       (fun _ => (has_names ctx)) (has_names ctx) (fun _ => True)).
    { unfold PlotLoss_plot, rank_zero_only. rewrite Hrank. cbn [Nat.eqb].
      eapply hoare_bind with (mid := fun _ => (has_names ctx)).
      - apply hoare_modify. intros s0 _. reflexivity.
      - intros u. apply hoare_for_each. intros k.
        eapply hoare_bind; [apply cached_property_keeps_names|].
        intros r. apply keeps_seq; [now apply keeps_call|now apply keeps_output_figure]. }
    unfold plot. destruct (asynchronous config); [|exact K1].
    unfold _async_plot, rank_zero_only. rewrite Hrank. cbn [Nat.eqb].
    eapply hoare_bind with (mid := fun _ => fun _ => True).
    - now apply hoare_emit.
    - intros u. eapply hoare_try with (mid := (has_names ctx)); [| |auto].
      + unfold _function_wrapper.
        eapply hoare_try with (mid := (has_names ctx)); [exact K1| |auto].
        intros e. eapply hoare_bind with (mid := fun _ => (has_names ctx)).
        * apply hoare_lift. intros s0 Hs0. now destruct (construct _ _).
        * intros e'. now apply hoare_raise.
      + intros e. eapply hoare_bind with (mid := fun _ => (has_names ctx)).
        * now apply hoare_emit.
        * intros u'. now apply hoare_exit. }
  destruct (K s I) as [_ H]. destruct (outcome _ s); exact H.
Qed.

End Names.

(** The first plot call, on rank 0 and with at least one rollout step,
    runs the body of the property, once, on the names of that call. *)
Section FirstCall.

Variable config : Config.
Variable ctx : Context.
Variable epoch : nat.
Variable n : nat.

Hypothesis Hrank : rank ctx = 0.
Hypothesis Hrollout : 0 < rollout ctx.

Lemma cached_property_miss :
  hoare (named ctx n) (sort_and_color_by_parameter_group config)
        (fun r' s => r' = (first_result config ctx) /\ cache_is (first_result config ctx) (S n) s)
        (cache_is (first_result config ctx) (S n)) (plot_loss_with (first_result config ctx)).
Proof.
  intros s [[Hc Hn] Hp].
  unfold sort_and_color_by_parameter_group, events, outcome, final, bind, get_state.
  simpl. rewrite Hc, Hp. unfold when, put_state, emit, ret, bind.
  destruct (warns _ _); simpl.
  - split; [repeat constructor; now apply not_render_plot_loss_with|].
    repeat split. simpl. now rewrite Hn.
  - split; [constructor|]. repeat split. simpl. now rewrite Hn.
Qed.

Lemma PlotLoss_plot_first :
  hoare (fresh n) (PlotLoss_plot config ctx epoch)
        (fun _ => cache_is (first_result config ctx) (S n)) (cache_is (first_result config ctx) (S n))
        (plot_loss_with (first_result config ctx)).
Proof.
  unfold PlotLoss_plot, rank_zero_only. rewrite Hrank. cbn [Nat.eqb].
  eapply hoare_bind with (mid := fun _ => named ctx n).
  - apply hoare_modify. intros s Hs. split; [exact Hs|reflexivity].
  - intros u. destruct (rollout ctx) as [|m]; [lia|].
    cbn [seq for_each].
    eapply hoare_bind with (mid := fun _ => cache_is (first_result config ctx) (S n)).
    + eapply hoare_bind; [apply cached_property_miss|].
      intros r'. apply hoare_conseq with
        (pre' := fun s => r' = (first_result config ctx) /\ cache_is (first_result config ctx) (S n) s)
        (post' := fun _ s => cache_is (first_result config ctx) (S n) s)
        (exc' := cache_is (first_result config ctx) (S n))
        (P' := plot_loss_with (first_result config ctx)); auto.
      intros s [-> Hs].
      assert (K : keeps (cache_is (first_result config ctx) (S n)) (plot_loss_with (first_result config ctx))
                    (call ctx (plot_loss 0 (first_result config ctx)) ;;;
                     _output_figure config ctx epoch
                       ("loss_rstep_rstep" ++ zero_padded 2 0
                          ++ "_rank" ++ zero_padded 1 (local_rank ctx))
                       ("loss_sample_rstep" ++ zero_padded 2 0
                          ++ "_rank" ++ zero_padded 1 (local_rank ctx)))).
      { apply keeps_seq.
        - apply keeps_call. intros k' r' E. now injection E.
        - apply keeps_output_figure. apply not_render_plot_loss_with. }
      now apply K.
    + intros u'. apply hoare_for_each. intros k. apply loss_step_keeps.
Qed.

Lemma plot_first :
  hoare (fresh n) (plot config ctx (PlotLoss_plot config ctx epoch))
        (fun _ => cache_is (first_result config ctx) (S n)) (cache_is (first_result config ctx) (S n))
        (plot_loss_with (first_result config ctx)).
Proof.
  unfold plot. destruct (asynchronous config); [|apply PlotLoss_plot_first].
  unfold _async_plot, rank_zero_only. rewrite Hrank. cbn [Nat.eqb].
  eapply hoare_bind with (mid := fun _ => fresh n).
  - apply hoare_emit; [now apply not_render_plot_loss_with|auto].
  - intros u. eapply hoare_try with (mid := cache_is (first_result config ctx) (S n)); [| |auto].
    + unfold _function_wrapper.
      eapply hoare_try with (mid := cache_is (first_result config ctx) (S n));
        [apply PlotLoss_plot_first| |auto].
      intros e. eapply hoare_bind with (mid := fun _ => cache_is (first_result config ctx) (S n)).
      * apply hoare_lift. intros s Hs. now destruct (construct _ _).
      * intros e'. now apply hoare_raise.
    + intros e. eapply hoare_bind with (mid := fun _ => cache_is (first_result config ctx) (S n)).
      * apply hoare_emit; [now apply not_render_plot_loss_with|auto].
      * intros u'. now apply hoare_exit.
Qed.

End FirstCall.

(** ** Events and exits of the hooks *)

Section Within.

Variable config : Config.
Variable ctx : Context.
Variable P : event -> Prop.
Variable X : Z -> Prop.

(** [P] holds of what is neither the output of a figure nor an event of
    [_async_plot]; of the output of a figure, when there is a directory for
    the plots. *)
Hypothesis Hother : forall e, outputs_figure e = false -> is_async e = false -> P e.
Hypothesis Hout : plots config = None \/ forall e, outputs_figure e = true -> P e.

Lemma within_ret (A : Type) (a : A) : within P X (ret a : M A).
Proof. intros s. split; [constructor|discriminate]. Qed.

Lemma within_raise (A : Type) (e : exn) : within P X (raise e : M A).
Proof. intros s. split; [constructor|discriminate]. Qed.

Lemma within_exit (A : Type) (c : Z) : X c -> within P X (sys_exit c : M A).
Proof.
  intros Hc s. split; [constructor|]. intros code E. injection E as <-. exact Hc.
Qed.

Lemma within_emit (e : event) : P e -> within P X (emit e).
Proof. intros He s. split; [repeat constructor; exact He|discriminate]. Qed.

Lemma within_mod (a b : Z) : within P X (lift (mod_ a b) : M Z).
Proof.
  intros s. split; [constructor|]. unfold outcome, lift, mod_. simpl.
  destruct (b =? 0)%Z; discriminate.
Qed.

Lemma within_construct (c : exn_class) (text : string) :
  within P X (lift (construct c text) : M exn).
Proof.
  intros s. split; [constructor|]. unfold outcome, lift, construct. simpl.
  destruct (init_takes_message c); discriminate.
Qed.

Lemma within_bind (A B : Type) (m : M A) (f : A -> M B) :
  within P X m -> (forall a, within P X (f a)) -> within P X (bind m f).
Proof.
  intros Hm Hf s. specialize (Hm s).
  unfold events, outcome, bind in *.
  destruct (m s) as [[r s'] ev]. simpl in *. destruct Hm as [Hev Hr].
  destruct r as [a|e|c]; simpl;
    [|split; [assumption|discriminate]
     |split; [assumption|intros code E; injection E as <-; now apply Hr]].
  specialize (Hf a s'). unfold events, outcome in Hf.
  destruct (f a s') as [[r' s''] ev']. simpl in *.
  destruct Hf as [Hev' Hr']. split; [|exact Hr'].
  apply Forall_app. now split.
Qed.

Lemma within_seq (m k : M unit) : within P X m -> within P X k -> within P X (m ;;; k).
Proof. intros Hm Hk. apply within_bind; [exact Hm|intros u; exact Hk]. Qed.

Lemma within_try (A : Type) (m : M A) (h : exn -> M A) :
  within P X m -> (forall e, within P X (h e)) -> within P X (try_except_Exception m h).
Proof.
  intros Hm Hh s. specialize (Hm s).
  unfold events, outcome, try_except_Exception in *.
  destruct (m s) as [[r s'] ev]. simpl in *. destruct Hm as [Hev Hr].
  destruct r as [a|e|c]; simpl; try (split; assumption).
  destruct (derives_Exception (cls e)); simpl; [|split; assumption].
  specialize (Hh e s'). unfold events, outcome in Hh.
  destruct (h e s') as [[r' s''] ev']. simpl in *.
  destruct Hh as [Hev' Hr']. split; [|exact Hr'].
  apply Forall_app. now split.
Qed.

Lemma within_for_each (A : Type) (l : list A) (body : A -> M unit) :
  (forall x, within P X (body x)) -> within P X (for_each l body).
Proof.
  intros Hb. induction l as [|x l IH]; simpl.
  - apply within_ret.
  - apply within_bind; [apply Hb|intros u; exact IH].
Qed.

Lemma within_when (b : bool) (m : M unit) : within P X m -> within P X (when b m).
Proof. destruct b; [auto|intros _; apply within_ret]. Qed.

Lemma within_rank_zero_only (m : M unit) : within P X m -> within P X (rank_zero_only ctx m).
Proof.
  unfold rank_zero_only. destruct (Nat.eqb (rank ctx) 0); [auto|intros _; apply within_ret].
Qed.

Lemma within_modify (f : State -> State) : within P X (modify f).
Proof. intros s. split; [constructor|discriminate]. Qed.

Lemma within_call (c : plot_call) : within P X (call ctx c).
Proof.
  unfold call. apply within_seq.
  - apply within_emit. now apply Hother.
  - destruct (render ctx c); [apply within_raise|apply within_ret].
Qed.

Lemma within_output_figure (epoch : nat) (tag exp_log_tag : string) :
  within P X (_output_figure config ctx epoch tag exp_log_tag).
Proof.
  unfold _output_figure. apply within_rank_zero_only. apply within_seq.
  - destruct (plots config) as [base|] eqn:E; [|apply within_ret].
    destruct Hout as [H|H]; [congruence|].
    repeat first [apply within_seq | apply within_when | apply within_emit; now apply H].
  - apply within_emit. now apply Hother.
Qed.

Lemma within_function_wrapper (m : M unit) :
  within P X m -> within P X (_function_wrapper ctx m).
Proof.
  intros Hm. unfold _function_wrapper. apply within_try; [exact Hm|].
  intros e. apply within_bind; [apply within_construct|].
  intros e'. apply within_raise.
Qed.

Lemma within_async_plot (m : M unit) :
  (forall e, is_async e = true -> P e) -> X 1%Z ->
  within P X m -> within P X (_async_plot ctx m).
Proof.
  intros Ha Hx Hm. unfold _async_plot. apply within_rank_zero_only. apply within_seq.
  - apply within_emit. now apply Ha.
  - apply within_try; [now apply within_function_wrapper|].
    intros e. apply within_seq; [apply within_emit; now apply Ha|now apply within_exit].
Qed.

Lemma within_plot (m : M unit) :
  asynchronous config = false \/ ((forall e, is_async e = true -> P e) /\ X 1%Z) ->
  within P X m -> within P X (plot config ctx m).
Proof.
  intros H Hm. unfold plot. destruct (asynchronous config) eqn:E; [|exact Hm].
  destruct H as [H|[Ha Hx]]; [discriminate|]. now apply within_async_plot.
Qed.

Lemma within_cached_property : within P X (sort_and_color_by_parameter_group config).
Proof.
  intros s.
  unfold sort_and_color_by_parameter_group, events, outcome, bind, get_state. simpl.
  destruct (cached s); simpl; [split; [constructor|discriminate]|].
  destruct (parameter_names s); simpl; [|split; [constructor|discriminate]].
  unfold when, put_state, emit, ret, bind.
  destruct (warns _ _); simpl; (split; [|discriminate]); repeat constructor.
  now apply Hother.
Qed.

Ltac within_steps :=
  repeat first
    [ apply within_call
    | apply within_output_figure
    | apply within_modify
    | apply within_rank_zero_only
    | apply within_seq
    | apply within_when
    | apply within_for_each; intros ?
    | apply within_ret
    | apply within_raise
    | apply within_emit; now apply Hother ].

Lemma within_LongRolloutPlots_plot (batch_idx epoch : nat) :
  within P X (LongRolloutPlots_plot config ctx batch_idx epoch).
Proof.
  unfold LongRolloutPlots_plot, cache_post_processors, cache_latlons.
  apply within_rank_zero_only. do 2 (apply within_seq; [apply within_modify|]).
  destruct (longrollout_rollout config) as [|r rs]; [apply within_raise|].
  destruct (Nat.ltb _ _); [apply within_raise|]. within_steps.
Qed.

Lemma within_PlotLoss_plot (epoch : nat) : within P X (PlotLoss_plot config ctx epoch).
Proof.
  unfold PlotLoss_plot. apply within_rank_zero_only.
  apply within_seq; [apply within_modify|]. apply within_for_each. intros k.
  apply within_bind; [apply within_cached_property|]. intros r. within_steps.
Qed.

Lemma within_PlotSample_plot (batch_idx epoch : nat) :
  within P X (PlotSample_plot config ctx batch_idx epoch).
Proof. unfold PlotSample_plot, cache_post_processors, cache_latlons. within_steps. Qed.

Lemma within_PlotAdditionalMetrics_plot (batch_idx epoch : nat) :
  within P X (PlotAdditionalMetrics_plot config ctx batch_idx epoch).
Proof.
  unfold PlotAdditionalMetrics_plot, cache_pre_processors, cache_post_processors,
    cache_latlons.
  within_steps.
Qed.

Lemma within_hook (cb : callback) (h : hook) :
  asynchronous config = false \/ calls_self_plot cb = false
  \/ ((forall e, is_async e = true -> P e) /\ X 1%Z) ->
  within P X (call_hook config ctx cb h).
Proof.
  intros H.
  assert (Hp : calls_self_plot cb = true ->
               asynchronous config = false
               \/ ((forall e, is_async e = true -> P e) /\ X 1%Z)).
  { intros E. destruct H as [H|[H|H]]; [now left|congruence|now right]. }
  destruct cb, h; cbn [call_hook]; try apply within_ret.
  - unfold LongRolloutPlots_on_validation_batch_end. apply within_rank_zero_only.
    apply within_bind; [apply within_mod|]. intros a.
    destruct (a =? 0)%Z; [|apply within_ret].
    apply within_bind; [apply within_mod|]. intros b.
    apply within_when. apply within_LongRolloutPlots_plot.
  - unfold GraphNodeTrainableFeaturesPlot_on_validation_epoch_start.
    apply within_rank_zero_only. apply within_plot; [now apply Hp|].
    unfold GraphNodeTrainableFeaturesPlot_plot. within_steps.
  - unfold GraphEdgeTrainableFeaturesPlot_on_validation_epoch_end.
    apply within_bind; [apply within_mod|]. intros a.
    unfold GraphEdgeTrainableFeaturesPlot_plot. within_steps.
  - unfold PlotLoss_on_validation_batch_end.
    apply within_bind; [apply within_mod|]. intros a. apply within_when.
    apply within_plot; [now apply Hp|]. apply within_PlotLoss_plot.
  - unfold PlotSample_on_validation_batch_end.
    apply within_bind; [apply within_mod|]. intros a. apply within_when.
    apply within_plot; [now apply Hp|]. apply within_PlotSample_plot.
  - unfold PlotAdditionalMetrics_on_validation_batch_end.
    apply within_bind; [apply within_mod|]. intros a. apply within_when.
    apply within_plot; [now apply Hp|]. apply within_PlotAdditionalMetrics_plot.
Qed.

End Within.

(** ** The plot frequency zero *)

Lemma zero_frequency_raises (config : Config) (ctx : Context) (a : Z) (fn : Z -> M unit)
      (s : State) :
  frequency config = 0%Z ->
  (r <~ lift (mod_ a (frequency config)) ;; fn r) s
  = (Raise (Exn ZeroDivisionError "integer modulo by zero"), s, []).
Proof. intros E. unfold bind, lift, mod_. now rewrite E. Qed.

(** ** The rollout steps of LongRolloutPlots *)

Lemma max_rollout_bound (r : nat) (rs : list nat) (x : nat) :
  In x (r :: rs) -> x <= fold_right Nat.max r rs.
Proof.
  induction rs as [|y rs IH]; simpl.
  - intros [->|[]]. lia.
  - intros [->|[->|H]].
    + assert (x <= fold_right Nat.max x rs) by (apply IH; now left). lia.
    + lia.
    + assert (x <= fold_right Nat.max r rs) by (apply IH; now right). lia.
Qed.

(** A batch that is too short for one of the rollout steps: the assertion
    of [_plot] comes before every event. *)
Lemma long_rollout_too_short (config : Config) (ctx : Context) (i epoch x : nat)
      (s : State) :
  In x (longrollout_rollout config) ->
  batch_length ctx < x + multi_step ctx ->
  events (LongRolloutPlots_plot config ctx i epoch) s = [].
Proof.
  intros Hin Hlt. unfold LongRolloutPlots_plot, rank_zero_only.
  destruct (Nat.eqb (rank ctx) 0); [|reflexivity].
  destruct (longrollout_rollout config) as [|r rs]; [destruct Hin|].
  pose proof (max_rollout_bound r rs x Hin) as Hmax.
  assert (E : Nat.ltb (batch_length ctx) (fold_right Nat.max r rs + multi_step ctx) = true)
    by (apply Nat.ltb_lt; lia).
  rewrite E. reflexivity.
Qed.

Lemma long_rollout_hook_too_short (config : Config) (ctx : Context) (h : hook) (x : nat)
      (s : State) :
  In x (longrollout_rollout config) ->
  batch_length ctx < x + multi_step ctx ->
  events (call_hook config ctx LongRolloutPlots h) s = [].
Proof.
  intros Hin Hlt. destruct h as [|i|]; [reflexivity| |reflexivity]. cbn [call_hook].
  pose proof (long_rollout_too_short config ctx i (current_epoch ctx) x s Hin Hlt) as Hp.
  unfold LongRolloutPlots_on_validation_batch_end, rank_zero_only.
  destruct (Nat.eqb (rank ctx) 0); [|reflexivity].
  unfold events, bind, lift, mod_, when in *.
  destruct (frequency config =? 0)%Z; [reflexivity|].
  destruct (Z.of_nat i mod frequency config =? 0)%Z; [|reflexivity].
  destruct (longrollout_frequency config =? 0)%Z; [reflexivity|].
  destruct ((Z.of_nat (current_epoch ctx) + 1) mod longrollout_frequency config =? 0)%Z;
    [|reflexivity].
  destruct (LongRolloutPlots_plot config ctx i (current_epoch ctx) s) as [[r s'] ev].
  simpl in *. now subst.
Qed.

(** ** The rendering calls that a hook can make *)

Section Renders.

Variable config : Config.
Variable ctx : Context.

(** The calls of rendering functions among the events are in [Q]. *)
Local Abbreviation calls_in Q := (fun e : event => forall c : plot_call, e = Render c -> Q c).

Lemma no_call (Q : plot_call -> Prop) (e : event) : is_render e = false -> calls_in Q e.
Proof. intros H c ->. discriminate. Qed.

Lemma calls_call (Q : plot_call -> Prop) (c : plot_call) :
  Q c -> keeps (fun _ => True) (calls_in Q) (call ctx c).
Proof. intros H. apply keeps_call. intros c' E. now injection E as <-. Qed.

Lemma calls_mod (Q : plot_call -> Prop) (a b : Z) (k : Z -> M unit) :
  (forall r, keeps (fun _ => True) (calls_in Q) (k r)) ->
  keeps (fun _ => True) (calls_in Q) (r <~ lift (mod_ a b) ;; k r).
Proof.
  intros Hk. eapply hoare_bind with (mid := fun _ _ => True); [|exact Hk].
  apply hoare_lift. intros s _. now destruct (mod_ a b).
Qed.

Lemma calls_modify (Q : plot_call -> Prop) (f : State -> State) (k : M unit) :
  keeps (fun _ => True) (calls_in Q) k ->
  keeps (fun _ => True) (calls_in Q) (modify f ;;; k).
Proof.
  intros Hk. eapply hoare_bind with (mid := fun _ _ => True); [|intros u; exact Hk].
  apply hoare_modify. auto.
Qed.

Lemma calls_cached_property (Q : plot_call -> Prop) (k : ParamGroups.result -> M unit) :
  (forall r, keeps (fun _ => True) (calls_in Q) (k r)) ->
  keeps (fun _ => True) (calls_in Q)
        (r <~ sort_and_color_by_parameter_group config ;; k r).
Proof.
  intros Hk. eapply hoare_bind with (mid := fun _ _ => True); [|exact Hk].
  intros s _.
  unfold sort_and_color_by_parameter_group, events, outcome, final, bind, get_state.
  simpl. destruct (cached s); simpl; [split; [constructor|exact I]|].
  destruct (parameter_names s); simpl; [|split; [constructor|exact I]].
  unfold when, put_state, emit, ret, bind.
  destruct (warns _ _); simpl; (split; [|exact I]); repeat constructor.
  now apply no_call.
Qed.

Lemma calls_LongRolloutPlots (i : nat) :
  keeps (fun _ => True)
        (calls_in (fun c => exists k, c = plot_predicted_multilevel_flat_sample k
                                      /\ In (S k) (longrollout_rollout config)))
        (LongRolloutPlots_on_validation_batch_end config ctx i).
Proof.
  unfold LongRolloutPlots_on_validation_batch_end. apply keeps_rank_zero_only.
  apply calls_mod. intros a. destruct (a =? 0)%Z; [|now apply keeps_ret].
  apply calls_mod. intros b. apply keeps_when.
  unfold LongRolloutPlots_plot, cache_post_processors, cache_latlons.
  apply keeps_rank_zero_only. do 2 apply calls_modify.
  remember (longrollout_rollout config) as steps eqn:Er.
  destruct steps as [|r rs]; [now apply hoare_raise|].
  destruct (Nat.ltb _ _); [now apply hoare_raise|].
  apply keeps_seq; [|apply keeps_emit; [apply no_call|reflexivity]].
  apply hoare_for_each. intros k.
  destruct (existsb (Nat.eqb (k + 1)) (r :: rs)) eqn:Ex; cbn [when]; [|now apply keeps_ret].
  apply keeps_seq; [|apply keeps_output_figure; apply no_call].
  apply calls_call. exists k. split; [reflexivity|].
  apply existsb_exists in Ex as (x & Hx & E). apply Nat.eqb_eq in E.
  replace (S k) with x by lia. exact Hx.
Qed.

Lemma calls_PlotLoss (i : nat) :
  keeps (fun _ => True)
        (calls_in (fun c => exists k r, c = plot_loss k r /\ k < rollout ctx))
        (PlotLoss_on_validation_batch_end config ctx i).
Proof.
  unfold PlotLoss_on_validation_batch_end.
  apply calls_mod. intros a. apply keeps_when. apply keeps_plot; [apply no_call|].
  unfold PlotLoss_plot. apply keeps_rank_zero_only. apply calls_modify.
  apply hoare_for_each_in. intros k Hk. apply in_seq in Hk.
  apply calls_cached_property. intros r.
  apply keeps_seq; [|apply keeps_output_figure; apply no_call].
  apply calls_call. exists k, r. split; [reflexivity|lia].
Qed.

Lemma calls_PlotSample (i : nat) :
  keeps (fun _ => True)
        (calls_in (fun c => exists k, c = plot_predicted_multilevel_flat_sample k
                                      /\ k < rollout ctx))
        (PlotSample_on_validation_batch_end config ctx i).
Proof.
  unfold PlotSample_on_validation_batch_end.
  apply calls_mod. intros a. apply keeps_when. apply keeps_plot; [apply no_call|].
  unfold PlotSample_plot, cache_post_processors, cache_latlons.
  apply keeps_rank_zero_only. do 2 apply calls_modify.
  apply hoare_for_each_in. intros k Hk. apply in_seq in Hk.
  apply keeps_seq; [|apply keeps_output_figure; apply no_call].
  apply calls_call. exists k. split; [reflexivity|lia].
Qed.

Lemma calls_PlotAdditionalMetrics (i : nat) :
  keeps (fun _ => True)
        (calls_in (fun c => exists k,
                     k < rollout ctx
                     /\ ((c = plot_histogram k /\ parameters_histogram config = true)
                         \/ (c = plot_power_spectrum k
                             /\ parameters_spectrum config = true))))
        (PlotAdditionalMetrics_on_validation_batch_end config ctx i).
Proof.
  unfold PlotAdditionalMetrics_on_validation_batch_end.
  apply calls_mod. intros a. apply keeps_when. apply keeps_plot; [apply no_call|].
  unfold PlotAdditionalMetrics_plot, cache_pre_processors, cache_post_processors,
    cache_latlons.
  apply keeps_rank_zero_only. do 3 apply calls_modify.
  apply hoare_for_each_in. intros k Hk. apply in_seq in Hk.
  apply keeps_seq.
  - destruct (parameters_histogram config) eqn:Eh; cbn [when]; [|now apply keeps_ret].
    apply keeps_seq; [|apply keeps_output_figure; apply no_call].
    apply calls_call. exists k. split; [lia|]. left. now split.
  - destruct (parameters_spectrum config) eqn:Es; cbn [when]; [|now apply keeps_ret].
    apply keeps_seq; [|apply keeps_output_figure; apply no_call].
    apply calls_call. exists k. split; [lia|]. right. now split.
Qed.

(** From the events of a hook to one of them. *)
Lemma call_among (Q : plot_call -> Prop) (m : M unit) (s : State) (c : plot_call) :
  keeps (fun _ => True) (calls_in Q) m -> In (Render c) (events m s) -> Q c.
Proof.
  intros Hm Hin. destruct (Hm s I) as [Hev _].
  rewrite Forall_forall in Hev. now apply (Hev _ Hin).
Qed.

End Renders.

(** ** The parameter names of PlotLoss *)

Lemma insert_by_position_perm (x : string * nat) (l : list (string * nat)) :
  Permutation (x :: l) (insert_by_position x l).
Proof.
  induction l as [|y l IH]; simpl; [reflexivity|].
  destruct (Nat.leb (snd x) (snd y)); [reflexivity|].
  eapply Permutation_trans; [apply perm_swap|]. now constructor.
Qed.

Lemma insert_by_position_sorted (x : string * nat) (l : list (string * nat)) :
  StronglySorted (fun a b => snd a <= snd b) l ->
  StronglySorted (fun a b => snd a <= snd b) (insert_by_position x l).
Proof.
  induction 1 as [|y l Hl IH Hy]; simpl.
  - repeat constructor.
  - destruct (Nat.leb_spec (snd x) (snd y)).
    + constructor; [now constructor|]. constructor; [assumption|].
      eapply Forall_impl; [|exact Hy]. intros b Hb. simpl in Hb. lia.
    + constructor; [exact IH|].
      eapply Permutation_Forall; [apply insert_by_position_perm|].
      constructor; [lia|exact Hy].
Qed.

Lemma sorted_by_position (d : list (string * nat)) :
  Permutation d (fold_right insert_by_position [] d)
  /\ StronglySorted (fun a b => snd a <= snd b) (fold_right insert_by_position [] d).
Proof.
  induction d as [|x d [IH1 IH2]]; simpl.
  - split; constructor.
  - split.
    + eapply Permutation_trans; [|apply insert_by_position_perm]. now constructor.
    + now apply insert_by_position_sorted.
Qed.

(** ** When the hooks do render *)

Lemma in_bind_l (A B : Type) (m : M A) (f : A -> M B) (s : State) (e : event) :
  In e (events m s) -> In e (events (bind m f) s).
Proof.
  unfold events, bind. destruct (m s) as [[r s'] ev]. simpl. intros H.
  destruct r as [a| |]; try exact H.
  destruct (f a s') as [[r' s''] ev']. simpl. apply in_or_app. now left.
Qed.

Lemma in_bind_r (A B : Type) (m : M A) (f : A -> M B) (s : State) (a : A) (e : event) :
  outcome m s = Ok a -> In e (events (f a) (final m s)) -> In e (events (bind m f) s).
Proof.
  unfold events, outcome, final, bind. destruct (m s) as [[r s'] ev]. simpl.
  intros -> H. destruct (f a s') as [[r' s''] ev']. simpl in *.
  apply in_or_app. now right.
Qed.

Lemma in_try (A : Type) (m : M A) (h : exn -> M A) (s : State) (e : event) :
  In e (events m s) -> In e (events (try_except_Exception m h) s).
Proof.
  unfold events, try_except_Exception. destruct (m s) as [[r s'] ev]. simpl. intros H.
  destruct r as [|x|]; try exact H.
  destruct (derives_Exception (cls x)); [|exact H].
  destruct (h x s') as [[r' s''] ev']. simpl. apply in_or_app. now left.
Qed.

Section Fires.

Variable config : Config.
Variable ctx : Context.

Hypothesis Hrank : rank ctx = 0.

Lemma in_rank_zero_only (m : M unit) (s : State) (e : event) :
  In e (events m s) -> In e (events (rank_zero_only ctx m) s).
Proof. unfold rank_zero_only. now rewrite Hrank. Qed.

Lemma in_plot (m : M unit) (s : State) (e : event) :
  In e (events m s) -> In e (events (plot config ctx m) s).
Proof.
  intros H. unfold plot. destruct (asynchronous config); [|exact H].
  unfold _async_plot. apply in_rank_zero_only.
  apply in_bind_r with (a := tt); [reflexivity|].
  apply in_try. unfold _function_wrapper. now apply in_try.
Qed.

Lemma call_renders (c : plot_call) (s : State) : In (Render c) (events (call ctx c) s).
Proof. unfold call. apply in_bind_l. now left. Qed.

Lemma call_then_renders (c : plot_call) (k : M unit) (s : State) :
  In (Render c) (events (call ctx c ;;; k) s).
Proof. apply in_bind_l. apply call_renders. Qed.

End Fires.

End PlottingFacts.

(* ================================================================== *)
(** * The properties of the specification                               *)
(* ================================================================== *)

Import ValFacts TensorFacts.

Lemma equal_shape (a b : tensor) : equal a b = true -> shape a = shape b.
Proof.
  unfold equal. intros H. apply andb_true_iff in H as [H _].
  destruct (list_eq_dec Nat.eq_dec (shape a) (shape b)); [assumption|discriminate].
Qed.

(** On inputs of the documented shape (bs, lat*lon, n_outputs) the result
    of [WeightedMSELoss.forward] is 0-dimensional, whatever [squash] is. *)
Lemma mse_forward_shape_3d (self : MSE.WeightedMSELoss) (pred target : tensor)
      (bs N nv : nat) (squash : bool) :
  shape pred = [bs; N; nv] -> shape target = [bs; N; nv] ->
  shape (MSE.weights self) = [N] ->
  match MSE.ivar self with Some iv => shape iv = [nv] | None => True end ->
  option_map shape (MSE.forward self pred target squash) = Some [].
Proof.
  intros Hp Ht Hw Hi. destruct squash.
  - now rewrite (MSEFacts.forward_squash_3d self pred target bs N nv).
  - now rewrite (MSEFacts.forward_nosquash_3d self pred target bs N nv).
Qed.

(** C1.  [WeightedMSELoss.forward] on prediction and target of the
    documented shape (bs, lat*lon, n_outputs), here (1, 2, 2): with
    [squash=True] the result has no variable axis, and with [squash=False]
    it has none either, the sum over the axes (0, 1, 2) having taken it;
    the variable axis stays only when the inputs have a fourth,
    ensemble, axis, as the inputs of the MAE loss have. *)
Theorem mse_squash_false_drops_variable_axis :
  let self := MSE.mk Examples.node_weights None false in
  option_map shape (MSE.forward self Examples.pred3 Examples.target3 true) = Some []
  /\ option_map shape (MSE.forward self Examples.pred3 Examples.target3 false) = Some []
  /\ option_map shape (MSE.forward self Examples.pred4 Examples.target4 false) = Some [2].
Proof. cbv zeta. repeat split; vm_compute; reflexivity. Qed.

(** C2.  Node weights that are at least zero and whose sum is positive, a
    prediction equal to its target ([torch.equal], so without NaN), at
    least one variable, and variances or feature weights without NaN: the
    MSE loss on (bs, lat*lon, n_outputs) is the scalar zero and the MAE
    loss on (bs, ensemble, lat*lon, n_outputs) is zero in every element,
    for both values of [squash] and of [ignore_nans]. *)
Theorem weighted_losses_zero_on_equal_inputs
        (w : tensor) (N : nat) (ignore_nans squash : bool) (pred target : tensor) :
  shape w = [N] -> wf w -> nonneg w = true ->
  Val.ltb zero (Val.sum (data w)) = true ->
  equal pred target = true ->
  (forall (bs nv : nat) (ivar : option tensor),
     shape pred = [bs; N; nv] -> 0 < nv -> MSE.per_variable ivar nv ->
     MSE.forward (MSE.mk w ivar ignore_nans) pred target squash = Some (scalar zero))
  /\
  (forall (bs ens nv : nat) (fw : option tensor) (feature_indices : option (list nat))
          (feature_scale : bool) (fs : option tensor),
     shape pred = [bs; ens; N; nv] -> 0 < nv ->
     MAE.feature_scaling (MAE.mk w ignore_nans fw) feature_indices feature_scale = Some fs ->
     MSE.per_variable fs nv ->
     MAE.forward (MAE.mk w ignore_nans fw) pred target squash feature_indices feature_scale
     = Some (tabulate (if squash then [bs; ens] else [bs; ens; nv]) (fun _ => zero))).
Proof.
  intros Hw Hwf Hnn Hpos Heq. pose proof (equal_shape _ _ Heq) as Hsh. split.
  - intros bs nv ivar Hp Hnv Hiv.
    apply (MSEFacts.forward_zero_3d (MSE.mk w ivar ignore_nans) pred target bs N nv);
      simpl; try assumption; try congruence.
    + destruct ivar as [iv|]; [apply Hiv|exact I].
    + destruct ivar as [iv|]; [split; apply Hiv|exact I].
  - intros bs ens nv fw fi fsc fs Hp Hnv Hfs Hok.
    apply (MAEFacts.forward_zero_4d (MAE.mk w ignore_nans fw) pred target fi fsc fs
                                    bs ens N nv);
      simpl; try assumption; try congruence.
    + destruct fs as [f|]; [apply Hok|exact I].
    + destruct fs as [f|]; [split; apply Hok|exact I].
Qed.

Lemma weighted_losses_zero_on_equal_inputs_witness :
  MSE.forward (MSE.mk Examples.node_weights (Some Examples.variances) false)
              Examples.pred3 Examples.pred3 false = Some (scalar zero)
  /\ MAE.forward (MAE.mk Examples.node_weights true (Some Examples.feature_weights))
                 Examples.pred4 Examples.pred4 true None true
     = Some (tabulate [1; 1] (fun _ => zero)).
Proof.
  split.
  - apply (proj1 (weighted_losses_zero_on_equal_inputs
                    Examples.node_weights 2 false false Examples.pred3 Examples.pred3
                    eq_refl eq_refl eq_refl eq_refl eq_refl)
                 1 2 (Some Examples.variances) eq_refl).
    + lia.
    + repeat split.
  - apply (proj2 (weighted_losses_zero_on_equal_inputs
                    Examples.node_weights 2 true true Examples.pred4 Examples.pred4
                    eq_refl eq_refl eq_refl eq_refl eq_refl)
                 1 1 2 (Some Examples.feature_weights) None true
                 (Some Examples.feature_weights) eq_refl).
    + lia.
    + reflexivity.
    + repeat split.
Defined.

(** Without a variable there is no zero: the mean over an empty axis is
    NaN, and [torch.sum] keeps it. *)
Example mse_without_variables :
  MSE.forward (MSE.mk (of_list1 [Examples.q 1]) None false)
              Examples.no_variable Examples.no_variable true
  = Some (scalar NaN).
Proof. vm_compute. reflexivity. Qed.


(** C4.  In NaN-tolerant mode ([ignore_nans=True]) the MSE loss of a
    prediction and a target that differ from [pred] and [target] only at
    nodes whose weight is zero (where they may hold NaN, or anything) is
    the loss of [pred] and [target], for both values of [squash]. *)
Theorem nan_at_zero_weight_nodes_leaves_loss
        (self : MSE.WeightedMSELoss) (pred target pred' target' : tensor)
        (bs N nv : nat) (squash : bool) :
  MSE.ignore_nans self = true ->
  shape pred = [bs; N; nv] -> shape target = [bs; N; nv] ->
  shape (MSE.weights self) = [N] ->
  match MSE.ivar self with Some iv => shape iv = [nv] | None => True end ->
  same_off_zero_weight (MSE.weights self) pred pred' = true ->
  same_off_zero_weight (MSE.weights self) target target' = true ->
  MSE.forward self pred' target' squash = MSE.forward self pred target squash.
Proof.
  intros. now apply (MSEFacts.forward_zero_weight_3d self pred target pred' target' bs N nv).
Qed.

Lemma nan_at_zero_weight_nodes_leaves_loss_witness :
  MSE.forward (MSE.mk Examples.node_weights_with_zero None true)
              Examples.pred3_nan Examples.target3_nan true
  = MSE.forward (MSE.mk Examples.node_weights_with_zero None true)
                Examples.pred3 Examples.target3 true.
Proof.
  apply (nan_at_zero_weight_nodes_leaves_loss
           (MSE.mk Examples.node_weights_with_zero None true)
           Examples.pred3 Examples.target3 Examples.pred3_nan Examples.target3_nan
           1 2 2 true eq_refl eq_refl eq_refl eq_refl I eq_refl eq_refl).
Defined.

(** With [ignore_nans] that loss is a number, and without [ignore_nans] the
    same NaN makes the loss NaN. *)
Example nan_poisons_without_ignore_nans :
  option_map (fun t => isnan (item t))
             (MSE.forward (MSE.mk Examples.node_weights_with_zero None true)
                          Examples.pred3_nan Examples.target3_nan true) = Some false
  /\ option_map (fun t => isnan (item t))
                (MSE.forward (MSE.mk Examples.node_weights_with_zero None false)
                             Examples.pred3_nan Examples.target3_nan true) = Some true.
Proof. split; vm_compute; reflexivity. Qed.

Import Py PyFacts Plotting PlottingFacts.

(** ** The plot callbacks *)

(** C5, counterexample.  A plot function that raises [ValueError]: the
    error is logged by [LOGGER.exception], at level ERROR, and CRITICAL is
    more severe. *)
Lemma async_error_logged_below_highest_severity :
  ~ surfaces_at_highest_severity
      (Examples.context 0 [] (Examples.failing (Exn ValueError "no data")))
      (call (Examples.context 0 [] (Examples.failing (Exn ValueError "no data")))
            plot_graph_node_features)
      init.
Proof.
  intros H.
  destruct (H (Exn ValueError "no data") init [Render plot_graph_node_features]
              eq_refl eq_refl) as (lv & x & Hin & _ & Hhigh & _).
  assert (Elv : lv = ERROR).
  { vm_compute in Hin. destruct Hin as [E|[E|[E|[]]]]; try discriminate.
    now injection E. }
  subst lv. specialize (Hhigh CRITICAL). simpl in Hhigh. lia.
Qed.

(** C5, amended.  On rank 0, a plot function that raises an [Exception]
    whose class one message builds: the retrieval point of [_async_plot]
    sees an exception of the same class, whose message is the formatted
    traceback of the original and whose cause is the original; it logs it
    at level ERROR and exits the process with code 1, and nothing else
    happens after the events of the plot function. *)
Theorem async_plot_error_surfaces_and_exits
        (ctx : Context) (_plot : M unit) (s s' : State) (ev : list event) (e : exn) :
  rank ctx = 0 ->
  _plot s = (Raise e, s', ev) ->
  derives_Exception (cls e) = true ->
  init_takes_message (cls e) = true ->
  exists x,
    cls x = cls e /\ message x = format_exc ctx e /\ cause x = Some e /\
    _async_plot ctx _plot s = (Exit 1, s', Submit :: ev ++ [Log ERROR critical (Some x)]).
Proof.
  intros Hr Hp Hd Hi. exists (ExnFrom (cls e) (format_exc ctx e) e).
  repeat split. now apply async_plot_raises.
Qed.

Lemma async_plot_error_surfaces_and_exits_witness :
  exists x,
    cls x = ValueError /\
    message x = Examples.traceback (Exn ValueError "no data") /\
    cause x = Some (Exn ValueError "no data") /\
    _async_plot (Examples.context 0 [] (Examples.failing (Exn ValueError "no data")))
      (call (Examples.context 0 [] (Examples.failing (Exn ValueError "no data")))
            plot_graph_node_features)
      init
    = (Exit 1, init,
       Submit :: [Render plot_graph_node_features] ++ [Log ERROR critical (Some x)]).
Proof.
  apply (async_plot_error_surfaces_and_exits
           (Examples.context 0 [] (Examples.failing (Exn ValueError "no data")))
           _ init init [Render plot_graph_node_features] (Exn ValueError "no data")
           eq_refl eq_refl eq_refl eq_refl).
Defined.

(** A class that one message does not build: the retrieval point sees the
    [TypeError] of the failed construction, not the class that was raised. *)
Example async_error_of_a_class_with_other_arguments :
  events (_async_plot
            (Examples.context 0 [] (Examples.failing (Exn UnicodeDecodeError "bad byte")))
            (call (Examples.context 0 []
                     (Examples.failing (Exn UnicodeDecodeError "bad byte")))
                  plot_graph_node_features))
         init
  = [Submit; Render plot_graph_node_features;
     Log ERROR critical
         (Some (Exn TypeError "__init__() missing required positional arguments"))].
Proof. vm_compute. reflexivity. Qed.

(** C7, counterexample.  [GraphNodeTrainableFeaturesPlot] plots at the
    start of a validation epoch, where there is no batch index. *)
Lemma graph_node_plot_ignores_plot_frequency :
  ~ fires_only_on_plot_frequency
      (Examples.config false) (Examples.context 0 [] Examples.rendering)
      GraphNodeTrainableFeaturesPlot on_validation_epoch_start init.
Proof.
  intros H. destruct (H eq_refl) as (i & E & _). discriminate.
Qed.

(** C7, amended.  The callbacks that plot in a batch hook call a
    rendering function only at the end of a validation batch whose index
    is a multiple of the plot frequency: [PlotLoss], [PlotSample],
    [PlotAdditionalMetrics] and [LongRolloutPlots], the last only in an
    epoch for which [current_epoch + 1] is a multiple of the evaluation
    frequency as well.  The two callbacks of the trainable features call
    one only in an epoch hook, where there is no batch index:
    [GraphNodeTrainableFeaturesPlot] only in [on_validation_epoch_start],
    and [GraphEdgeTrainableFeaturesPlot] only in [on_validation_epoch_end]
    of an epoch that is a multiple of 5.  These are conditions without
    which no callback plots; that a callback does plot when they hold is
    not part of the statement. *)
Theorem plot_hooks_gates
        (config : Config) (ctx : Context) (cb : callback) (h : hook) (s : State) :
  existsb is_render (events (call_hook config ctx cb h) s) = true ->
  match cb with
  | LongRolloutPlots =>
      exists i, h = on_validation_batch_end i
        /\ (frequency config <> 0 /\ Z.of_nat i mod frequency config = 0)%Z
        /\ (longrollout_frequency config <> 0 /\
            (Z.of_nat (current_epoch ctx) + 1) mod longrollout_frequency config = 0)%Z
  | PlotLoss | PlotSample | PlotAdditionalMetrics =>
      exists i, h = on_validation_batch_end i
        /\ (frequency config <> 0 /\ Z.of_nat i mod frequency config = 0)%Z
  | GraphNodeTrainableFeaturesPlot => h = on_validation_epoch_start
  | GraphEdgeTrainableFeaturesPlot =>
      h = on_validation_epoch_end
      /\ (Z.of_nat (current_epoch ctx) mod 5 = 0)%Z
  end.
Proof.
  intros H. apply render_nonempty in H.
  destruct cb, h; cbn [call_hook] in H; try (now elim H); try reflexivity.
  - exists batch_idx. split; [reflexivity|].
    now apply long_rollout_gate in H as (_ & H1 & H2).
  - split; [reflexivity|]. now apply graph_edge_gate in H as [_ H].
  - exists batch_idx. split; [reflexivity|]. now apply gated_events in H.
  - exists batch_idx. split; [reflexivity|]. now apply gated_events in H.
  - exists batch_idx. split; [reflexivity|]. now apply gated_events in H.
Qed.

Lemma plot_hooks_gates_witness :
  exists i, on_validation_batch_end 4 = on_validation_batch_end i
    /\ (frequency (Examples.config true) <> 0
        /\ Z.of_nat i mod frequency (Examples.config true) = 0)%Z.
Proof.
  apply (plot_hooks_gates (Examples.config true)
           (Examples.context 0 [("b", 1); ("a", 0)] Examples.rendering)
           PlotLoss (on_validation_batch_end 4) init eq_refl).
Defined.

(** C8.  The group of every parameter in the loss plot.  More than 15
    names: the explicit group the name belongs to, otherwise the prefix
    before its first underscore, and "other" in place of every group that
    then holds exactly one parameter and is not a group of the
    configuration.  15 names or fewer: the name itself. *)
Theorem loss_plot_parameter_grouping
        (parameter_groups : ParamGroups.groups) (parameter_names : list string) :
  ParamGroups.parameters_to_groups parameter_groups parameter_names
  = ParamGroups.grouping_spec parameter_groups parameter_names.
Proof. apply ParamGroupsFacts.parameters_to_groups_spec. Qed.

(** Twenty names and no explicit group: the groups are the prefixes, and
    the prefixes that come once are "other". *)
Example twenty_names_grouped :
  ParamGroups.parameters_to_groups []
    ["aaa_1"; "aaa_2"; "aaa_3"; "bbb_1"; "bbb_2"; "ccc_1"; "ddd_1"; "ddd_2"; "eee_1";
     "fff_1"; "fff_2"; "ggg"; "hhh_1"; "hhh_2"; "iii_1"; "iii_2"; "jjj_1"; "kkk_1";
     "kkk_2"; "z_9"]%string
  = ["aaa"; "aaa"; "aaa"; "bbb"; "bbb"; "other"; "ddd"; "ddd"; "other";
     "fff"; "fff"; "other"; "hhh"; "hhh"; "iii"; "iii"; "other"; "kkk";
     "kkk"; "other"]%string.
Proof. vm_compute. reflexivity. Qed.

(** C9.  On a process whose rank is not 0, a validation hook of a plot
    callback has no event at all, so it writes nothing to the filesystem
    and calls no rendering function, and it leaves the callback as it was. *)
Theorem plot_hooks_noop_off_rank_zero
        (config : Config) (ctx : Context) (cb : callback) (h : hook) (s : State) :
  rank ctx <> 0 ->
  events (call_hook config ctx cb h) s = []
  /\ existsb writes_file (events (call_hook config ctx cb h) s) = false
  /\ existsb is_render (events (call_hook config ctx cb h) s) = false
  /\ final (call_hook config ctx cb h) s = s.
Proof.
  intros H. destruct (hook_skips config ctx H cb h s) as [E F].
  rewrite E. repeat split. exact F.
Qed.

Lemma plot_hooks_noop_off_rank_zero_witness :
  let hook := call_hook (Examples.config true)
                (Examples.context 1 [("b", 1); ("a", 0)] Examples.rendering)
                PlotLoss (on_validation_batch_end 4) in
  events hook init = []
  /\ existsb writes_file (events hook init) = false
  /\ existsb is_render (events hook init) = false
  /\ final hook init = init.
Proof.
  apply (plot_hooks_noop_off_rank_zero (Examples.config true)
           (Examples.context 1 [("b", 1); ("a", 0)] Examples.rendering)
           PlotLoss (on_validation_batch_end 4) init).
  discriminate.
Defined.

(** On rank 0 the same hook does write and render. *)
Example plot_hook_on_rank_zero :
  let hook := call_hook (Examples.config true)
                (Examples.context 0 [("b", 1); ("a", 0)] Examples.rendering)
                PlotLoss (on_validation_batch_end 4) in
  existsb writes_file (events hook init) = true
  /\ existsb is_render (events hook init) = true.
Proof. vm_compute. split; reflexivity. Qed.

(** C10.  A [PlotLoss] instance whose cached property has not been
    computed, on rank 0.  Its first plot call, with at least one rollout
    step, runs the body of [sort_and_color_by_parameter_group] once, on the
    parameter names of that call, and every call of [plot_loss] gets the
    result.  After every later plot call, whatever names, rollout and
    rendering it finds, the cache still holds that result, the body has
    run no further time, and [plot_loss] got that result again; and yet
    every plot call on rank 0 assigns [parameter_names] anew. *)
Theorem plot_loss_sorting_computed_once
        (config : Config) (ctx : Context) (epoch : nat) (s : State)
        (later : list (Context * nat)) :
  rank ctx = 0 -> 0 < rollout ctx -> cached s = None ->
  let first := plot config ctx (PlotLoss_plot config ctx epoch) in
  let r := first_result config ctx in
  cache_is r (S (evaluations s)) (final first s)
  /\ Forall (plot_loss_with r) (events first s)
  /\ Forall (fun '(s', ev) =>
               cache_is r (S (evaluations s)) s' /\ Forall (plot_loss_with r) ev)
            (PlotLoss_plot_calls config later (final first s))
  /\ (forall ctx' epoch' s',
        rank ctx' = 0 ->
        has_names ctx' (final (plot config ctx' (PlotLoss_plot config ctx' epoch')) s')).
Proof.
  intros Hr Hro Hc first r.
  destruct (plot_first config ctx epoch (evaluations s) Hr Hro s (conj Hc eq_refl))
    as [Hev Hout].
  assert (Hfin : cache_is r (S (evaluations s)) (final first s)).
  { unfold first, r. destruct (outcome _ s); exact Hout. }
  split; [exact Hfin|]. split; [exact Hev|]. split.
  - now apply plot_calls_keep.
  - intros ctx' epoch' s' Hr'. now apply PlotLoss_plot_assigns_names.
Qed.

Lemma plot_loss_sorting_computed_once_witness :
  let config := Examples.config false in
  let ctx := Examples.context 0 [("b_1", 1); ("a_1", 0)] Examples.rendering in
  let other := Examples.context 0 [("c_1", 0); ("d_9", 1); ("e", 2)] Examples.rendering in
  let first := plot config ctx (PlotLoss_plot config ctx 3) in
  let r := first_result config ctx in
  cache_is r 1 (final first init)
  /\ Forall (plot_loss_with r) (events first init)
  /\ Forall (fun '(s', ev) => cache_is r 1 s' /\ Forall (plot_loss_with r) ev)
            (PlotLoss_plot_calls config [(other, 4); (ctx, 5)] (final first init))
  /\ (forall ctx' epoch' s',
        rank ctx' = 0 ->
        has_names ctx' (final (plot config ctx' (PlotLoss_plot config ctx' epoch')) s')).
Proof.
  cbv zeta.
  apply (plot_loss_sorting_computed_once (Examples.config false)
           (Examples.context 0 [("b_1", 1); ("a_1", 0)] Examples.rendering) 3 init
           [(Examples.context 0 [("c_1", 0); ("d_9", 1); ("e", 2)] Examples.rendering, 4);
            (Examples.context 0 [("b_1", 1); ("a_1", 0)] Examples.rendering, 5)]
           eq_refl).
  - unfold Examples.context. simpl. lia.
  - reflexivity.
Defined.

(** In this run the second call finds other names, and [plot_loss]
    still gets the order of the first two. *)
Example later_names_do_not_reach_the_plot :
  let config := Examples.config false in
  let ctx := Examples.context 0 [("b_1", 1); ("a_1", 0)] Examples.rendering in
  let other := Examples.context 0 [("c_1", 0); ("d_9", 1); ("e", 2)] Examples.rendering in
  let s1 := final (plot config ctx (PlotLoss_plot config ctx 3)) init in
  let s2 := final (plot config other (PlotLoss_plot config other 4)) s1 in
  parameter_names s1 = Some ["a_1"; "b_1"]
  /\ parameter_names s2 = Some ["c_1"; "d_9"; "e"]
  /\ option_map ParamGroups.sort_order (cached s2) = Some [0; 1]
  /\ evaluations s2 = 1.
Proof. vm_compute. repeat split. Qed.

(* ================================================================== *)
(** * Further properties of the losses                                  *)
(* ================================================================== *)

Import MSEFacts.

(** X1.  [WeightedMSELoss.forward] does not tell the prediction from the
    target: on inputs of shape (bs, lat*lon, n_outputs) the loss of
    [(pred, target)] is the loss of [(target, pred)]. *)
Theorem mse_loss_symmetric
        (self : MSE.WeightedMSELoss) (pred target : tensor) (bs N nv : nat) (squash : bool) :
  shape pred = [bs; N; nv] -> shape target = [bs; N; nv] ->
  shape (MSE.weights self) = [N] ->
  match MSE.ivar self with Some iv => shape iv = [nv] | None => True end ->
  MSE.forward self pred target squash = MSE.forward self target pred squash.
Proof.
  intros Hp Ht Hw Hi. destruct squash.
  - rewrite (forward_squash_3d self pred target bs N nv),
            (forward_squash_3d self target pred bs N nv) by assumption.
    do 3 f_equal. apply map_ext. intros ix. now rewrite squashed_at_sym.
  - rewrite (forward_nosquash_3d self pred target bs N nv),
            (forward_nosquash_3d self target pred bs N nv) by assumption.
    do 3 f_equal. apply map_ext. intros ix. now rewrite err_at_sym.
Qed.

Lemma mse_loss_symmetric_witness :
  MSE.forward (MSE.mk Examples.node_weights (Some Examples.variances) false)
              Examples.pred3 Examples.target3 true
  = MSE.forward (MSE.mk Examples.node_weights (Some Examples.variances) false)
                Examples.target3 Examples.pred3 true.
Proof.
  apply (mse_loss_symmetric
           (MSE.mk Examples.node_weights (Some Examples.variances) false)
           Examples.pred3 Examples.target3 1 2 2 true eq_refl eq_refl eq_refl eq_refl).
Defined.



(** X4.  Node weights whose number is neither the number of nodes of the
    prediction nor 1 cannot be expanded to it: [WeightedMSELoss.forward]
    raises, for both values of [squash]. *)
Theorem mse_weights_of_another_length_raise
        (self : MSE.WeightedMSELoss) (pred target : tensor) (bs N nv M : nat)
        (squash : bool) :
  shape pred = [bs; N; nv] -> shape target = [bs; N; nv] ->
  shape (MSE.weights self) = [M] -> M <> N -> M <> 1 ->
  MSE.forward self pred target squash = None.
Proof.
  intros Hp Ht Hw HN H1. unfold MSE.forward.
  destruct (MSE.error self pred target) as [out|] eqn:E; [|reflexivity].
  apply error_shape in E; [|congruence]. rewrite Hp in E.
  apply Nat.eqb_neq in HN. apply Nat.eqb_neq in H1.
  destruct squash.
  - unfold reduce, Tensor.rank. rewrite E. cbn [List.length].
    change (norm_dims 3 [(-1)%Z]) with (Some [2]). cbv beta iota zeta.
    change (mask 3 [2]) with [false; false; true].
    cbn [select Bool.eqb]. unfold expand_as, expand. cbn [shape tabulate]. rewrite Hw.
    cbn [rev app expandable_rev]. now rewrite HN, H1.
  - unfold expand_as, expand, unsqueeze_last. cbn [shape]. rewrite Hw, E.
    cbn [rev app expandable_rev]. rewrite HN, H1.
    now rewrite andb_false_r.
Qed.

Lemma mse_weights_of_another_length_raise_witness :
  MSE.forward (MSE.mk (of_list1 [Examples.q 1; Examples.q 1; Examples.q 1]) None false)
              Examples.pred3 Examples.target3 false = None.
Proof.
  apply (mse_weights_of_another_length_raise
           (MSE.mk (of_list1 [Examples.q 1; Examples.q 1; Examples.q 1]) None false)
           Examples.pred3 Examples.target3 1 2 2 3 false eq_refl eq_refl eq_refl);
    discriminate.
Defined.

(** X7.  On inputs with an ensemble axis, of shape (bs, ensemble, lat*lon,
    n_outputs), [WeightedMSELoss.forward] with [squash=False] does keep
    the variable axis: it returns one number per variable, the sum over
    batch, ensemble member and node of the squared error times the node
    weight, divided by the sum of the node weights over batch, ensemble
    member and node. *)
Theorem mse_unsquashed_loss_of_ensemble_inputs
        (self : MSE.WeightedMSELoss) (pred target : tensor) (bs ens N nv : nat) :
  shape pred = [bs; ens; N; nv] -> shape target = [bs; ens; N; nv] ->
  shape (MSE.weights self) = [N] ->
  match MSE.ivar self with Some iv => shape iv = [nv] | None => True end ->
  exists out,
    MSE.forward self pred target false = Some out /\
    shape out = [nv] /\
    forall v, v < nv ->
      get out [v]
      = MSE.sum_function self
          (map (fun kx =>
                  Val.div (Val.mul (MSE.err_at_4d self pred target (kx ++ [v]))
                                   (MSE.w_at_4d self kx))
                          (MSE.sum_function self
                             (map (MSE.w_at_4d self) (indices [bs; ens; N]))))
               (indices [bs; ens; N])).
Proof.
  intros Hp Ht Hw Hi.
  rewrite (forward_nosquash_4d_mse self pred target bs ens N nv) by assumption.
  eexists. split; [reflexivity|]. split; [reflexivity|].
  intros v Hv. rewrite get_tabulate; [reflexivity|].
  repeat constructor. exact Hv.
Qed.

Lemma mse_unsquashed_loss_of_ensemble_inputs_witness :
  exists out,
    MSE.forward (MSE.mk Examples.node_weights None false)
                Examples.pred4 Examples.target4 false = Some out /\
    shape out = [2] /\
    forall v, v < 2 ->
      get out [v]
      = MSE.sum_function (MSE.mk Examples.node_weights None false)
          (map (fun kx =>
                  Val.div (Val.mul (MSE.err_at_4d (MSE.mk Examples.node_weights None false)
                                                  Examples.pred4 Examples.target4 (kx ++ [v]))
                                   (MSE.w_at_4d (MSE.mk Examples.node_weights None false) kx))
                          (MSE.sum_function (MSE.mk Examples.node_weights None false)
                             (map (MSE.w_at_4d (MSE.mk Examples.node_weights None false))
                                  (indices [1; 1; 2]))))
               (indices [1; 1; 2])).
Proof.
  apply (mse_unsquashed_loss_of_ensemble_inputs
           (MSE.mk Examples.node_weights None false)
           Examples.pred4 Examples.target4 1 1 2 2 eq_refl eq_refl eq_refl I).
Defined.

(** X19.  The loss is never a negative number.  With node weights and
    inverse variances among which there is no negative number,
    [WeightedMSELoss.forward] on inputs of shape (bs, lat*lon, n_outputs)
    returns one number that is NaN or at least zero, whatever the
    prediction and the target hold, for both values of [squash] and in
    both NaN modes. *)
Theorem mse_loss_is_never_negative
        (self : MSE.WeightedMSELoss) (pred target : tensor) (bs N nv : nat)
        (squash : bool) :
  shape pred = [bs; N; nv] -> shape target = [bs; N; nv] ->
  shape (MSE.weights self) = [N] ->
  match MSE.ivar self with Some iv => shape iv = [nv] | None => True end ->
  never_negative (MSE.weights self) = true ->
  match MSE.ivar self with Some iv => never_negative iv = true | None => True end ->
  exists v,
    MSE.forward self pred target squash = Some (scalar v) /\ Val.ltb v zero = false.
Proof.
  intros Hp Ht Hw Hi Hnw Hni. destruct squash.
  - rewrite (forward_squash_3d self pred target bs N nv) by assumption.
    eexists. split; [reflexivity|]. apply notneg_ltb.
    apply (normalised_sum_notneg self Hnw). intros ix.
    now apply squashed_at_notneg.
  - rewrite (forward_nosquash_3d self pred target bs N nv) by assumption.
    eexists. split; [reflexivity|]. apply notneg_ltb.
    apply (normalised_sum_notneg self Hnw). intros ix.
    now apply err_at_notneg.
Qed.

Lemma mse_loss_is_never_negative_witness :
  exists v,
    MSE.forward (MSE.mk Examples.node_weights_with_zero (Some Examples.variances) true)
                Examples.pred3_nan Examples.target3 true
    = Some (scalar v)
    /\ Val.ltb v zero = false.
Proof.
  apply (mse_loss_is_never_negative
           (MSE.mk Examples.node_weights_with_zero (Some Examples.variances) true)
           Examples.pred3_nan Examples.target3 1 2 2 true
           eq_refl eq_refl eq_refl eq_refl eq_refl eq_refl).
Defined.

(** X23.  In NaN-tolerant mode a prediction that holds NaN only has the
    loss zero: every term of the weighted sum is NaN, and [torch.nansum]
    reads NaN as zero.  This holds for every target and all node weights,
    and for both values of [squash]. *)
Theorem mse_of_nan_prediction_is_zero
        (self : MSE.WeightedMSELoss) (pred target : tensor) (bs N nv : nat)
        (squash : bool) :
  MSE.ignore_nans self = true ->
  shape pred = [bs; N; nv] -> shape target = [bs; N; nv] ->
  shape (MSE.weights self) = [N] ->
  match MSE.ivar self with Some iv => shape iv = [nv] | None => True end ->
  forallb isnan (data pred) = true ->
  MSE.forward self pred target squash = Some (scalar zero).
Proof.
  intros Hign Hp Ht Hw Hi Hnan.
  assert (He : forall ix, MSE.err_at self pred target ix = NaN).
  { intros ix. apply err_at_nan. left. now apply get_all_nan. }
  destruct squash.
  - rewrite (forward_squash_3d self pred target bs N nv) by assumption.
    do 2 f_equal. apply all_nan_terms; [exact Hign|]. intros ix.
    unfold MSE.squashed_at, MSE.avg_function. rewrite Hign.
    apply nanmean_all_nan. apply Forall_forall. intros a Ha.
    apply in_map_iff in Ha as (v & <- & _). now rewrite He.
  - rewrite (forward_nosquash_3d self pred target bs N nv) by assumption.
    do 2 f_equal. now apply all_nan_terms.
Qed.

Lemma mse_of_nan_prediction_is_zero_witness :
  MSE.forward (MSE.mk Examples.node_weights None true)
              (of_list3 2 2 [[[NaN; NaN]; [NaN; NaN]]]) Examples.target3 true
  = Some (scalar zero).
Proof.
  apply (mse_of_nan_prediction_is_zero
           (MSE.mk Examples.node_weights None true)
           (of_list3 2 2 [[[NaN; NaN]; [NaN; NaN]]]) Examples.target3 1 2 2 true
           eq_refl eq_refl eq_refl eq_refl I eq_refl).
Defined.

(* ================================================================== *)
(** * Further properties of the plot callbacks                          *)
(* ================================================================== *)

(** X8.  [_async_plot] hands on what is no [Exception]: when the plot
    function returns, raises an exception that derives from
    [BaseException] only ([KeyboardInterrupt]) or exits, the call of
    [_async_plot] on rank 0 ends the same way in the same state, and the
    only event it adds is the submission to the executor: nothing is
    logged and the process is not made to exit. *)
Theorem async_plot_passes_on_what_is_no_exception
        (ctx : Context) (_plot : M unit) (s s' : State) (ev : list event)
        (r : result unit) :
  rank ctx = 0 ->
  _plot s = (r, s', ev) ->
  match r with Raise e => derives_Exception (cls e) = false | _ => True end ->
  _async_plot ctx _plot s = (r, s', Submit :: ev).
Proof.
  intros Hr Hp Hd.
  unfold _async_plot, rank_zero_only. rewrite Hr. cbn [Nat.eqb].
  unfold bind, emit, try_except_Exception, _function_wrapper, try_except_Exception.
  rewrite Hp. destruct r as [a|e|c]; [reflexivity| |reflexivity].
  rewrite Hd. cbn. now rewrite Hd.
Qed.

Lemma async_plot_passes_on_what_is_no_exception_witness :
  _async_plot (Examples.context 0 [] (Examples.failing (Exn KeyboardInterrupt "")))
    (call (Examples.context 0 [] (Examples.failing (Exn KeyboardInterrupt "")))
          plot_graph_node_features)
    init
  = (Raise (Exn KeyboardInterrupt ""), init, [Submit; Render plot_graph_node_features]).
Proof.
  apply (async_plot_passes_on_what_is_no_exception
           (Examples.context 0 [] (Examples.failing (Exn KeyboardInterrupt "")))
           _ init init [Render plot_graph_node_features] (Raise (Exn KeyboardInterrupt ""))
           eq_refl eq_refl eq_refl).
Defined.

(** X9.  An [Exception] whose class cannot be built from one message
    ([UnicodeDecodeError]) does not reach the retrieval point:
    [_function_wrapper] calls the class on the formatted traceback, that
    call is a [TypeError], and the [TypeError], which has no [__cause__],
    is what [_async_plot] logs before it exits with code 1. *)
Theorem async_plot_error_of_class_with_other_arguments
        (ctx : Context) (_plot : M unit) (s s' : State) (ev : list event) (e : exn) :
  rank ctx = 0 ->
  _plot s = (Raise e, s', ev) ->
  derives_Exception (cls e) = true ->
  init_takes_message (cls e) = false ->
  exists x,
    cls x = TypeError /\ cause x = None /\
    _async_plot ctx _plot s = (Exit 1, s', Submit :: ev ++ [Log ERROR critical (Some x)]).
Proof.
  intros Hr Hp Hd Hi.
  exists (Exn TypeError "__init__() missing required positional arguments").
  split; [reflexivity|]. split; [reflexivity|].
  unfold _async_plot, rank_zero_only. rewrite Hr. cbn [Nat.eqb].
  unfold bind, emit, try_except_Exception, _function_wrapper, try_except_Exception.
  rewrite Hp, Hd. unfold bind, lift, construct. rewrite Hi. cbn.
  now rewrite !app_nil_r.
Qed.

Lemma async_plot_error_of_class_with_other_arguments_witness :
  exists x,
    cls x = TypeError /\ cause x = None /\
    _async_plot
      (Examples.context 0 [] (Examples.failing (Exn UnicodeDecodeError "bad byte")))
      (call (Examples.context 0 [] (Examples.failing (Exn UnicodeDecodeError "bad byte")))
            plot_graph_node_features)
      init
    = (Exit 1, init,
       Submit :: [Render plot_graph_node_features] ++ [Log ERROR critical (Some x)]).
Proof.
  apply (async_plot_error_of_class_with_other_arguments
           (Examples.context 0 [] (Examples.failing (Exn UnicodeDecodeError "bad byte")))
           _ init init [Render plot_graph_node_features]
           (Exn UnicodeDecodeError "bad byte") eq_refl eq_refl eq_refl eq_refl).
Defined.

(** X10.  A plot frequency of zero.  The batch hooks of [PlotLoss],
    [PlotSample] and [PlotAdditionalMetrics] compute
    [batch_idx % self.plot_frequency] before anything looks at the rank:
    they raise [ZeroDivisionError] on every rank and for every batch, with
    no event and no change of the callback.  The hook of
    [LongRolloutPlots] is [rank_zero_only] and raises on rank 0. *)
Theorem zero_plot_frequency_raises
        (config : Config) (ctx : Context) (cb : callback) (i : nat) (s : State) :
  frequency config = 0%Z ->
  tests_frequency_first cb = true \/ (cb = LongRolloutPlots /\ rank ctx = 0) ->
  exists e,
    cls e = ZeroDivisionError /\
    call_hook config ctx cb (on_validation_batch_end i) s = (Raise e, s, []).
Proof.
  intros Hf Hcb. exists (Exn ZeroDivisionError "integer modulo by zero").
  split; [reflexivity|].
  destruct Hcb as [Hcb|[-> Hr]].
  - destruct cb; try discriminate; cbn [call_hook];
      now apply zero_frequency_raises.
  - cbn [call_hook]. unfold LongRolloutPlots_on_validation_batch_end, rank_zero_only.
    rewrite Hr. cbn [Nat.eqb]. now apply zero_frequency_raises.
Qed.

Lemma zero_plot_frequency_raises_witness :
  exists e,
    cls e = ZeroDivisionError /\
    call_hook (mk_config (Some "/out") 0 true true false [1; 2] 1 None true false)
              (Examples.context 1 [] Examples.rendering)
              PlotSample (on_validation_batch_end 3) init
    = (Raise e, init, []).
Proof.
  apply (zero_plot_frequency_raises
           (mk_config (Some "/out") 0 true true false [1; 2] 1 None true false)
           (Examples.context 1 [] Examples.rendering) PlotSample 3 init eq_refl).
  left. reflexivity.
Defined.

(** X11.  Without a directory for the plots ([hardware.paths.plots] is
    [None]) no hook of any plot callback puts a figure anywhere: no
    directory is made, no file is saved, and nothing goes to Weights &
    Biases or MLflow either, enabled or not, since [_output_figure] uploads
    only inside [if self.save_basedir is not None]. *)
Theorem no_plot_directory_no_figure_output
        (config : Config) (ctx : Context) (cb : callback) (h : hook) (s : State) :
  plots config = None ->
  Forall (fun e => outputs_figure e = false) (events (call_hook config ctx cb h) s).
Proof.
  intros Hp.
  apply (within_hook config ctx (fun e => outputs_figure e = false) (fun _ => True)).
  - intros e H _. exact H.
  - now left.
  - right. right. split; [|exact I]. now intros [].
Qed.

Lemma no_plot_directory_no_figure_output_witness :
  Forall (fun e => outputs_figure e = false)
         (events (call_hook (mk_config None 2 true true true [1; 2] 1 None true true)
                            (Examples.context 0 [] Examples.rendering)
                            PlotAdditionalMetrics (on_validation_batch_end 4))
                 init).
Proof.
  apply (no_plot_directory_no_figure_output
           (mk_config None 2 true true true [1; 2] 1 None true true)
           (Examples.context 0 [] Examples.rendering)
           PlotAdditionalMetrics (on_validation_batch_end 4) init eq_refl).
Defined.

(** X12.  The executor is behind [self.plot] only.  In synchronous mode,
    and in every mode for [LongRolloutPlots] and
    [GraphEdgeTrainableFeaturesPlot], whose hooks call [self._plot], a hook
    submits nothing to the executor, logs no error of an asynchronous plot
    and never ends in [SystemExit]: an error of a rendering function
    leaves the hook as the exception it is. *)
Theorem executor_only_behind_self_plot
        (config : Config) (ctx : Context) (cb : callback) (h : hook) (s : State) :
  asynchronous config = false \/ calls_self_plot cb = false ->
  Forall (fun e => is_async e = false) (events (call_hook config ctx cb h) s)
  /\ forall code, outcome (call_hook config ctx cb h) s <> Exit code.
Proof.
  intros H.
  destruct (within_hook config ctx (fun e => is_async e = false) (fun _ => False))
    with (cb := cb) (h := h) (s := s) as [Hev Hex].
  - intros e _ He. exact He.
  - right. intros [] E; try discriminate; reflexivity.
  - destruct H as [H|H]; [now left|right; now left].
  - split; [exact Hev|]. intros code E. exact (Hex code E).
Qed.

Lemma executor_only_behind_self_plot_witness :
  Forall (fun e => is_async e = false)
         (events (call_hook (Examples.config true)
                            (Examples.context 0 [] (Examples.failing (Exn ValueError "no data")))
                            LongRolloutPlots (on_validation_batch_end 4))
                 init)
  /\ forall code,
       outcome (call_hook (Examples.config true)
                          (Examples.context 0 [] (Examples.failing (Exn ValueError "no data")))
                          LongRolloutPlots (on_validation_batch_end 4))
               init
       <> Exit code.
Proof.
  apply (executor_only_behind_self_plot (Examples.config true)
           (Examples.context 0 [] (Examples.failing (Exn ValueError "no data")))
           LongRolloutPlots (on_validation_batch_end 4) init).
  right. reflexivity.
Defined.

(** X13.  [LongRolloutPlots] and a batch that is too short for one of
    the configured rollout steps: the assertion of [_plot] stands before
    the loop over the rollout steps, so that no hook of the callback has
    an event.  No figure is rendered or saved, not even for the steps
    that the batch is long enough for. *)
Theorem long_rollout_short_batch_plots_nothing
        (config : Config) (ctx : Context) (h : hook) (x : nat) (s : State) :
  In x (longrollout_rollout config) ->
  batch_length ctx < x + multi_step ctx ->
  events (call_hook config ctx LongRolloutPlots h) s = [].
Proof.
  intros Hin Hlt. now apply (long_rollout_hook_too_short config ctx h x s).
Qed.

Lemma long_rollout_short_batch_plots_nothing_witness :
  events (call_hook (Examples.config false)
                    (mk_context 0 0 3 2 1 2 [] Examples.rendering Examples.traceback)
                    LongRolloutPlots (on_validation_batch_end 4))
         init
  = [].
Proof.
  apply (long_rollout_short_batch_plots_nothing (Examples.config false)
           (mk_context 0 0 3 2 1 2 [] Examples.rendering Examples.traceback)
           (on_validation_batch_end 4) 2 init).
  - simpl. right. left. reflexivity.
  - simpl. lia.
Defined.

(** X14.  What [LongRolloutPlots] renders is a sample of a configured
    rollout step: a call of a rendering function in one of its hooks is
    [plot_predicted_multilevel_flat_sample] for a rollout index [k] such
    that [k + 1] is among the configured steps.  The configuration counts
    the steps from 1, and a configured step 0 is never plotted. *)
Theorem long_rollout_plots_only_configured_steps
        (config : Config) (ctx : Context) (h : hook) (c : plot_call) (s : State) :
  In (Render c) (events (call_hook config ctx LongRolloutPlots h) s) ->
  exists k, c = plot_predicted_multilevel_flat_sample k
            /\ In (S k) (longrollout_rollout config).
Proof.
  destruct h as [|i|]; cbn [call_hook]; try (intros []).
  apply (call_among (fun c => exists k, c = plot_predicted_multilevel_flat_sample k
                                        /\ In (S k) (longrollout_rollout config))).
  apply calls_LongRolloutPlots.
Qed.

Lemma long_rollout_plots_only_configured_steps_witness :
  exists k, plot_predicted_multilevel_flat_sample 1 = plot_predicted_multilevel_flat_sample k
            /\ In (S k) (longrollout_rollout (Examples.config false)).
Proof.
  apply (long_rollout_plots_only_configured_steps (Examples.config false)
           (Examples.context 0 [] Examples.rendering) (on_validation_batch_end 4)
           (plot_predicted_multilevel_flat_sample 1) init).
  vm_compute. repeat (first [left; reflexivity | right]).
Defined.

(** X15.  Every plot call of [PlotLoss] on rank 0 leaves in
    [self.parameter_names] the names of [name_to_index] in the order of
    their positions: the keys of the dict, each once, and no name comes
    before a name of a lower position. *)
Theorem plot_loss_names_ordered_by_position
        (config : Config) (ctx : Context) (epoch : nat) (s : State) :
  rank ctx = 0 ->
  exists sorted,
    Permutation (name_to_index ctx) sorted
    /\ StronglySorted (fun a b => snd a <= snd b) sorted
    /\ parameter_names (final (plot config ctx (PlotLoss_plot config ctx epoch)) s)
       = Some (map fst sorted).
Proof.
  intros Hr. exists (fold_right insert_by_position [] (name_to_index ctx)).
  destruct (sorted_by_position (name_to_index ctx)) as [H1 H2].
  split; [exact H1|]. split; [exact H2|].
  exact (PlotLoss_plot_assigns_names config ctx epoch Hr s).
Qed.

Lemma plot_loss_names_ordered_by_position_witness :
  exists sorted,
    Permutation [("b_1", 1); ("a_1", 0)]%string sorted
    /\ StronglySorted (fun a b => snd a <= snd b) sorted
    /\ parameter_names
         (final (plot (Examples.config true)
                      (Examples.context 0 [("b_1", 1); ("a_1", 0)]%string Examples.rendering)
                      (PlotLoss_plot (Examples.config true)
                         (Examples.context 0 [("b_1", 1); ("a_1", 0)]%string
                                           Examples.rendering) 3))
                init)
       = Some (map fst sorted).
Proof.
  apply (plot_loss_names_ordered_by_position (Examples.config true)
           (Examples.context 0 [("b_1", 1); ("a_1", 0)]%string Examples.rendering)
           3 init eq_refl).
Defined.

(* ================================================================== *)
(** * Further properties of the order and the colours of the loss plot  *)
(* ================================================================== *)

(** X16.  The order that [sort_and_color_by_parameter_group] returns
    holds every position of the parameter names once, so that
    [loss[sort_by_parameter_group]] only rearranges the losses; and the
    colours it returns are one per parameter. *)
Theorem loss_plot_order_is_a_permutation
        (parameter_groups : ParamGroups.groups) (parameter_names : list string) :
  Permutation
    (ParamGroups.sort_order
       (ParamGroups.sort_and_color_by_parameter_group parameter_groups parameter_names))
    (seq 0 (List.length parameter_names))
  /\ List.length
       (ParamGroups.colors
          (ParamGroups.sort_and_color_by_parameter_group parameter_groups parameter_names))
     = List.length parameter_names.
Proof.
  split.
  - rewrite ParamGroupsFacts.sort_order_eq.
    apply ParamGroupsFacts.sort_by_parameter_group_perm.
  - apply ParamGroupsFacts.colors_length.
Qed.

(** X17.  With at most 15 parameter names, which are distinct since they
    are the keys of a dict, the loss plot keeps the parameters in their
    order and draws every bar in black, whatever the configured groups. *)
Theorem loss_plot_of_few_parameters
        (parameter_groups : ParamGroups.groups) (parameter_names : list string) :
  List.length parameter_names <= 15 -> NoDup parameter_names ->
  ParamGroups.sort_order
    (ParamGroups.sort_and_color_by_parameter_group parameter_groups parameter_names)
  = seq 0 (List.length parameter_names)
  /\ ParamGroups.colors
       (ParamGroups.sort_and_color_by_parameter_group parameter_groups parameter_names)
     = repeat ParamGroups.Black (List.length parameter_names).
Proof. apply ParamGroupsFacts.few_names. Qed.

Lemma loss_plot_of_few_parameters_witness :
  ParamGroups.sort_order
    (ParamGroups.sort_and_color_by_parameter_group
       [("wind", ["u_10"; "v_10"])]%string ["u_10"; "v_10"; "t_2"]%string)
  = seq 0 3
  /\ ParamGroups.colors
       (ParamGroups.sort_and_color_by_parameter_group
          [("wind", ["u_10"; "v_10"])]%string ["u_10"; "v_10"; "t_2"]%string)
     = repeat ParamGroups.Black 3.
Proof.
  apply (loss_plot_of_few_parameters
           [("wind", ["u_10"; "v_10"])]%string ["u_10"; "v_10"; "t_2"]%string).
  - simpl. lia.
  - repeat constructor; simpl; intuition discriminate.
Defined.

(** X18.  With more than 15 parameter names the order of the loss plot
    keeps every group together: between two parameters of one group, in
    the order of the plot, there are only parameters of that group. *)
Theorem loss_plot_groups_stay_together
        (parameter_groups : ParamGroups.groups) (parameter_names : list string)
        (i j k : nat) :
  15 < List.length parameter_names ->
  i <= j -> j <= k -> k < List.length parameter_names ->
  nth i (ParamGroups.sorted_parameters_to_groups parameter_groups parameter_names) ""%string
  = nth k (ParamGroups.sorted_parameters_to_groups parameter_groups parameter_names) ""%string ->
  nth j (ParamGroups.sorted_parameters_to_groups parameter_groups parameter_names) ""%string
  = nth i (ParamGroups.sorted_parameters_to_groups parameter_groups parameter_names) ""%string.
Proof. apply ParamGroupsFacts.sorted_groups_together. Qed.

Lemma loss_plot_groups_stay_together_witness :
  nth 1 (ParamGroups.sorted_parameters_to_groups []
           ["aaa_1"; "bbb_1"; "aaa_2"; "ccc_1"; "bbb_2"; "aaa_3"; "ddd_1"; "ddd_2"; "eee_1";
            "fff_1"; "fff_2"; "ggg"; "hhh_1"; "hhh_2"; "iii_1"; "iii_2"; "jjj_1"]%string)
      ""%string
  = nth 0 (ParamGroups.sorted_parameters_to_groups []
           ["aaa_1"; "bbb_1"; "aaa_2"; "ccc_1"; "bbb_2"; "aaa_3"; "ddd_1"; "ddd_2"; "eee_1";
            "fff_1"; "fff_2"; "ggg"; "hhh_1"; "hhh_2"; "iii_1"; "iii_2"; "jjj_1"]%string)
      ""%string.
Proof.
  apply (loss_plot_groups_stay_together []
           ["aaa_1"; "bbb_1"; "aaa_2"; "ccc_1"; "bbb_2"; "aaa_3"; "ddd_1"; "ddd_2"; "eee_1";
            "fff_1"; "fff_2"; "ggg"; "hhh_1"; "hhh_2"; "iii_1"; "iii_2"; "jjj_1"]%string
           0 1 2).
  - simpl. lia.
  - lia.
  - lia.
  - simpl. lia.
  - reflexivity.
Defined.

(* ================================================================== *)
(** * What the hooks render                                             *)
(* ================================================================== *)

(** X20.  What [PlotLoss] and [PlotSample] render is a plot of a rollout
    step of the module: a call of a rendering function in one of their
    hooks is [plot_loss], and [plot_predicted_multilevel_flat_sample], for
    a rollout index below [pl_module.rollout].  With no rollout step
    nothing is rendered. *)
Theorem loss_and_sample_plots_render_only_rollout_steps
        (config : Config) (ctx : Context) (cb : callback) (h : hook) (c : plot_call)
        (s : State) :
  cb = PlotLoss \/ cb = PlotSample ->
  In (Render c) (events (call_hook config ctx cb h) s) ->
  exists k,
    k < rollout ctx
    /\ ((cb = PlotLoss /\ exists r, c = plot_loss k r)
        \/ (cb = PlotSample /\ c = plot_predicted_multilevel_flat_sample k)).
Proof.
  intros [-> | ->]; destruct h as [|i|]; cbn [call_hook]; try (intros []); intros Hin.
  - destruct (call_among
                (fun c => exists k r, c = plot_loss k r /\ k < rollout ctx)
                _ s c (calls_PlotLoss config ctx i) Hin) as (k & r & -> & Hk).
    exists k. split; [exact Hk|]. left. split; [reflexivity|now exists r].
  - destruct (call_among
                (fun c => exists k, c = plot_predicted_multilevel_flat_sample k
                                    /\ k < rollout ctx)
                _ s c (calls_PlotSample config ctx i) Hin) as (k & -> & Hk).
    exists k. split; [exact Hk|]. right. now split.
Qed.

Lemma loss_and_sample_plots_render_only_rollout_steps_witness :
  exists k,
    k < rollout (Examples.context 0 [] Examples.rendering)
    /\ ((PlotSample = PlotLoss
         /\ exists r, plot_predicted_multilevel_flat_sample 1 = plot_loss k r)
        \/ (PlotSample = PlotSample
            /\ plot_predicted_multilevel_flat_sample 1
               = plot_predicted_multilevel_flat_sample k)).
Proof.
  apply (loss_and_sample_plots_render_only_rollout_steps (Examples.config false)
           (Examples.context 0 [] Examples.rendering) PlotSample
           (on_validation_batch_end 4) (plot_predicted_multilevel_flat_sample 1) init).
  - right. reflexivity.
  - vm_compute. repeat (first [left; reflexivity | right]).
Defined.

(** X21.  What [PlotAdditionalMetrics] renders is configured: a call of
    a rendering function in one of its hooks is [plot_histogram] with
    [parameters_histogram] configured, or [plot_power_spectrum] with
    [parameters_spectrum] configured, for a rollout index below
    [pl_module.rollout].  With neither configured nothing is rendered. *)
Theorem additional_metrics_render_only_what_is_configured
        (config : Config) (ctx : Context) (h : hook) (c : plot_call) (s : State) :
  In (Render c) (events (call_hook config ctx PlotAdditionalMetrics h) s) ->
  exists k,
    k < rollout ctx
    /\ ((c = plot_histogram k /\ parameters_histogram config = true)
        \/ (c = plot_power_spectrum k /\ parameters_spectrum config = true)).
Proof.
  destruct h as [|i|]; cbn [call_hook]; try (intros []).
  apply (call_among
           (fun c => exists k,
              k < rollout ctx
              /\ ((c = plot_histogram k /\ parameters_histogram config = true)
                  \/ (c = plot_power_spectrum k /\ parameters_spectrum config = true)))).
  apply calls_PlotAdditionalMetrics.
Qed.

Lemma additional_metrics_render_only_what_is_configured_witness :
  exists k,
    k < rollout (Examples.context 0 [] Examples.rendering)
    /\ ((plot_histogram 1 = plot_histogram k
         /\ parameters_histogram (Examples.config false) = true)
        \/ (plot_histogram 1 = plot_power_spectrum k
            /\ parameters_spectrum (Examples.config false) = true)).
Proof.
  apply (additional_metrics_render_only_what_is_configured (Examples.config false)
           (Examples.context 0 [] Examples.rendering) (on_validation_batch_end 4)
           (plot_histogram 1) init).
  vm_compute. repeat (first [left; reflexivity | right]).
Defined.

(** X22.  The plots of the trainable features on rank 0.
    [GraphNodeTrainableFeaturesPlot] sets [epoch_freq = 5] and never reads
    it: its hook renders the node features at the start of every
    validation epoch.  [GraphEdgeTrainableFeaturesPlot] renders the edge
    features exactly at the end of the validation epochs that are a
    multiple of 5. *)
Theorem trainable_feature_plots_render
        (config : Config) (ctx : Context) (s : State) :
  rank ctx = 0 ->
  In (Render plot_graph_node_features)
     (events (call_hook config ctx GraphNodeTrainableFeaturesPlot on_validation_epoch_start)
             s)
  /\ (In (Render plot_graph_edge_features)
         (events (call_hook config ctx GraphEdgeTrainableFeaturesPlot
                            on_validation_epoch_end) s)
      <-> (Z.of_nat (current_epoch ctx) mod 5 = 0)%Z).
Proof.
  intros Hr. cbn [call_hook]. split; [|split].
  - unfold GraphNodeTrainableFeaturesPlot_on_validation_epoch_start.
    apply in_rank_zero_only; [exact Hr|]. apply in_plot; [exact Hr|].
    unfold GraphNodeTrainableFeaturesPlot_plot.
    apply in_rank_zero_only; [exact Hr|]. apply call_then_renders.
  - intros H.
    assert (Hne : events (GraphEdgeTrainableFeaturesPlot_on_validation_epoch_end config ctx) s
                  <> []) by (intros E; rewrite E in H; destruct H).
    now apply graph_edge_gate in Hne as [_ Hne].
  - intros H. unfold GraphEdgeTrainableFeaturesPlot_on_validation_epoch_end.
    apply in_bind_r with (a := 0%Z).
    + unfold outcome, lift, mod_. cbn [fst]. change epoch_freq with 5%Z.
      cbn [Z.eqb]. now rewrite H.
    + rewrite Hr. cbn [Z.eqb Nat.eqb andb when].
      unfold GraphEdgeTrainableFeaturesPlot_plot. apply call_then_renders.
Qed.

Lemma trainable_feature_plots_render_witness :
  In (Render plot_graph_node_features)
     (events (call_hook (Examples.config true) (Examples.context 0 [] Examples.rendering)
                        GraphNodeTrainableFeaturesPlot on_validation_epoch_start)
             init)
  /\ (In (Render plot_graph_edge_features)
         (events (call_hook (Examples.config true) (Examples.context 0 [] Examples.rendering)
                            GraphEdgeTrainableFeaturesPlot on_validation_epoch_end)
                 init)
      <-> (Z.of_nat (current_epoch (Examples.context 0 [] Examples.rendering)) mod 5 = 0)%Z).
Proof.
  apply (trainable_feature_plots_render (Examples.config true)
           (Examples.context 0 [] Examples.rendering) init eq_refl).
Defined.
